(** * agv-sim: the AGV telemetry simulator of [sim.py]

    A shallow embedding of the fleet simulator: the per-vehicle model
    ([AGVState]), the snapshot rendering ([to_doc]), the batch publisher
    ([bulk_index]) and the driver loop ([main]).

    Python floats are IEEE-754 binary64 values: they are modelled by Rocq's
    primitive [float], whose operations round to nearest, ties to even, as
    Python's do.  The [random] module is modelled by the answers it gives:
    every call site of the source reads its answer from a record of draws,
    and the documented range of each call is a predicate on these records. *)

From Stdlib Require Import ZArith Floats Reals Lra Lia List String Ascii Bool.
From Stdlib Require Import Decimal DecimalString DecimalZ DecimalPos.
Import ListNotations.

Set Warnings "-inexact-float".

Local Open Scope string_scope.
Local Open Scope float_scope.

(** ** The Python runtime the program relies on *)

(** Exceptions the program can see. *)
Inductive exn : Type :=
| KeyError (key : string)
| IndexError
| ValueError
| SystemExit (msg : string)
| ConnectionError
| HTTPError (status : Z).

(** A computation returns a value or raises. *)
Inductive result (A : Type) : Type :=
| Ok (a : A)
| Raise (e : exn).

Arguments Ok {A} a.
Arguments Raise {A} e.

Definition bind {A B : Type} (m : result A) (k : A -> result B) : result B :=
  match m with
  | Ok a => k a
  | Raise e => Raise e
  end.

Notation "x <- m ;; k" := (bind m (fun x => k))
  (at level 61, m at next level, right associativity).

(** [min(a, b)] and [max(a, b)] on two arguments: the builtin keeps the first
    argument unless the second compares strictly below (above) it. *)
Definition py_min (a b : float) : float := if b <? a then b else a.
Definition py_max (a b : float) : float := if a <? b then b else a.

(** [a >= b] on floats. *)
Definition py_ge (a b : float) : bool := b <=? a.

(** [d[k]] on a dict with string keys. *)
Fixpoint dict_get {V : Type} (d : list (string * V)) (k : string) : result V :=
  match d with
  | [] => Raise (KeyError k)
  | (k', v) :: d' => if String.eqb k' k then Ok v else dict_get d' k
  end.

(** [random.choice(seq)]: the element at the index the generator picked
    below [len(seq)]; an empty sequence raises [IndexError]. *)
Definition choice {A : Type} (items : list A) (pick : nat) : result A :=
  match nth_error items (pick mod List.length items) with
  | Some x => Ok x
  | None => Raise IndexError
  end.

(** [str(n)] on an integer. *)
Definition str_int (n : Z) : string := NilZero.string_of_int (Z.to_int n).

(** The format [{i:02d}]: decimal, padded with zeros to two characters. *)
Definition fmt_02d (i : Z) : string :=
  let s := str_int i in
  if (String.length s <? 2)%nat then "0" ++ s else s.

(** [str(x)] on a value that may be [None]. *)
Definition str_opt (x : option string) : string :=
  match x with
  | Some s => s
  | None => "None"
  end.

(** Truth value of a string that may be [None]. *)
Definition truthy (x : option string) : bool :=
  match x with
  | Some s => negb (String.eqb s EmptyString)
  | None => false
  end.

(** ** Module constants *)

Definition AGV_IDS : list string :=
  map (fun i => "AGV-" ++ fmt_02d (Z.of_nat i)) (seq 1 10).

Definition YARD_BLOCKS : list string := ["YB10"; "YB11"; "YB12"].

Definition LANES_BY_BLOCK : list (string * list string) :=
  [ ("YB10", ["L41"; "L42"]);
    ("YB11", ["L43"; "L44"]);
    ("YB12", ["L45"; "L46"]) ].

(** ** Snapshot records *)

Module Doc.

(** The dict built by [to_doc], one field per key. *)
Record t : Type := mk {
  timestamp : string;
  agv_id : string;
  yard_block : string;
  lane_id : string;
  position_m : float;
  speed_kph : float;
  soc_pct : float;
  job_id : string;
  load_status : string;
  mode : string
}.

(** The record with its capture timestamp blanked. *)
Definition untimed (d : t) : t :=
  mk EmptyString (agv_id d) (yard_block d) (lane_id d) (position_m d)
     (speed_kph d) (soc_pct d) (job_id d) (load_status d) (mode d).

End Doc.

(** ** The vehicle model *)

Module AGVState.

Record t : Type := mk {
  agv_id : string;
  yard_block : string;
  lane_id : string;
  position_m : float;
  speed_kph : float;
  soc_pct : float;
  job_id : string;
  load_status : string
}.

(** Attribute assignments [self.x = v]. *)
Definition set_yard_block (v : string) (self : t) : t :=
  mk (agv_id self) v (lane_id self) (position_m self) (speed_kph self)
     (soc_pct self) (job_id self) (load_status self).
Definition set_lane_id (v : string) (self : t) : t :=
  mk (agv_id self) (yard_block self) v (position_m self) (speed_kph self)
     (soc_pct self) (job_id self) (load_status self).
Definition set_position_m (v : float) (self : t) : t :=
  mk (agv_id self) (yard_block self) (lane_id self) v (speed_kph self)
     (soc_pct self) (job_id self) (load_status self).
Definition set_speed_kph (v : float) (self : t) : t :=
  mk (agv_id self) (yard_block self) (lane_id self) (position_m self) v
     (soc_pct self) (job_id self) (load_status self).
Definition set_soc_pct (v : float) (self : t) : t :=
  mk (agv_id self) (yard_block self) (lane_id self) (position_m self)
     (speed_kph self) v (job_id self) (load_status self).
Definition set_job_id (v : string) (self : t) : t :=
  mk (agv_id self) (yard_block self) (lane_id self) (position_m self)
     (speed_kph self) (soc_pct self) v (load_status self).
Definition set_load_status (v : string) (self : t) : t :=
  mk (agv_id self) (yard_block self) (lane_id self) (position_m self)
     (speed_kph self) (soc_pct self) (job_id self) v.

(** The answers of the generator to the calls of [__init__], in call order. *)
Record InitDraws : Type := {
  init_block : nat;        (* random.choice(YARD_BLOCKS) *)
  init_lane : nat;         (* random.choice(LANES_BY_BLOCK[...]) *)
  init_position : float;   (* random.uniform(0, 1000) *)
  init_speed : float;      (* random.uniform(8, 14) *)
  init_soc : float;        (* random.uniform(60, 100) *)
  init_job : Z;            (* random.randint(100000, 999999) *)
  init_load : nat          (* random.choice of the two load statuses *)
}.

(** The answers of the generator to the calls of [tick], one field per call
    site; a call that is not reached leaves its field unread. *)
Record TickDraws : Type := {
  speed_delta : float;     (* random.uniform(-1.0, 1.0) *)
  job_number : Z;          (* random.randint(100000, 999999) *)
  flip_roll : float;       (* random.random() < 0.5 *)
  reassign_roll : float;   (* random.random() < 0.3 *)
  block_pick : nat;        (* random.choice(YARD_BLOCKS) *)
  lane_pick : nat;         (* random.choice(LANES_BY_BLOCK[...]) *)
  drain : float;           (* random.uniform(0.01, 0.05) *)
  recharge_roll : float;   (* random.random() < 0.01 *)
  recharge_level : float   (* random.uniform(70, 100) *)
}.

Definition _new_job_id (n : Z) : string := "JOB-" ++ str_int n.

Definition __init__ (agv_id : string) (rnd : InitDraws) : result t :=
  yard_block <- choice YARD_BLOCKS (init_block rnd) ;;
  lanes <- dict_get LANES_BY_BLOCK yard_block ;;
  lane_id <- choice lanes (init_lane rnd) ;;
  let position_m := init_position rnd in
  let speed_kph := init_speed rnd in
  let soc_pct := init_soc rnd in
  let job_id := _new_job_id (init_job rnd) in
  load_status <- choice ["EMPTY"; "LOADED"] (init_load rnd) ;;
  Ok (mk agv_id yard_block lane_id position_m speed_kph soc_pct job_id
         load_status).

(** The body of [if self.position_m >= 1000.0]. *)
Definition finish_job (rnd : TickDraws) (self : t) : result t :=
  let self := set_position_m 0.0 self in
  let self := set_job_id (_new_job_id (job_number rnd)) self in
  let self :=
    if flip_roll rnd <? 0.5 then
      set_load_status
        (if String.eqb (load_status self) "EMPTY" then "LOADED" else "EMPTY")
        self
    else self in
  if reassign_roll rnd <? 0.3 then
    yard_block <- choice YARD_BLOCKS (block_pick rnd) ;;
    let self := set_yard_block yard_block self in
    lanes <- dict_get LANES_BY_BLOCK (AGVState.yard_block self) ;;
    lane_id <- choice lanes (lane_pick rnd) ;;
    Ok (set_lane_id lane_id self)
  else Ok self.

(** The battery lines of [tick]. *)
Definition battery (dt_sec : float) (rnd : TickDraws) (self : t) : t :=
  let self := set_soc_pct (soc_pct self - drain rnd * dt_sec) self in
  if soc_pct self <? 30 then
    if recharge_roll rnd <? 0.01 then set_soc_pct (recharge_level rnd) self
    else self
  else self.

(** The speed and movement lines of [tick]. *)
Definition move (dt_sec : float) (rnd : TickDraws) (self : t) : t :=
  let self := set_speed_kph (speed_kph self + speed_delta rnd) self in
  let self := set_speed_kph (py_max 4.0 (py_min (speed_kph self) 18.0)) self in
  let m_per_sec := (speed_kph self * 1000.0) / 3600.0 in
  set_position_m (position_m self + m_per_sec * dt_sec) self.

Definition tick (self : t) (dt_sec : float) (rnd : TickDraws) : result t :=
  let self := move dt_sec rnd self in
  self <- (if py_ge (position_m self) 1000.0 then finish_job rnd self
           else Ok self) ;;
  Ok (battery dt_sec rnd self).

(** [to_doc]; [now] is the text of [datetime.now(timezone.utc).isoformat()]
    and [round] the builtin of that name. *)
Definition to_doc (round : float -> Z -> float) (self : t) (now : string)
  : Doc.t :=
  Doc.mk now (agv_id self) (yard_block self) (lane_id self)
         (round (position_m self) 2%Z) (round (speed_kph self) 2%Z)
         (round (soc_pct self) 1%Z) (job_id self) (load_status self) "BAU".

End AGVState.

(** ** The batch publisher *)

(** The builtins the rendering and the publisher call, taken as parameters:
    [round(x, ndigits)] on floats and [json.dumps] on a snapshot record. *)
Record Builtins : Type := {
  round : float -> Z -> float;
  json_dumps : Doc.t -> string
}.

(** The values read from the environment when the module is loaded. *)
Record Config : Type := {
  ES_URL : option string;
  ES_API_KEY : option string;
  INDEX_NAME : string;
  TICK_INTERVAL_SEC : float;
  DURATION_SEC : Z
}.

(** The arguments of one [requests.post] call. *)
Record Request : Type := {
  url : string;
  data : string;
  headers : list (string * string);
  timeout : Z
}.

Definition newline : string := String (ascii_of_nat 10) EmptyString.
Definition quote : string := String (ascii_of_nat 34) EmptyString.

(** The text of [json.dumps] on the empty index action. *)
Definition index_action : string :=
  "{" ++ quote ++ "index" ++ quote ++ ": {}}".

(** [resp.raise_for_status()]: client and server error codes raise. *)
Definition raise_for_status (status : Z) : result unit :=
  if ((400 <=? status) && (status <? 600))%Z then Raise (HTTPError status)
  else Ok tt.

(** [bulk_index]; [response] is what [requests.post] does on this call: it
    raises, or it returns a response with a status code.  The result is the
    request that was posted, if any. *)
Definition bulk_index (py : Builtins) (cfg : Config) (index : string)
           (docs : list Doc.t) (response : result Z) : result (option Request) :=
  match docs with
  | [] => Ok None
  | _ :: _ =>
    let lines := flat_map (fun doc => [index_action; json_dumps py doc]) docs in
    let body := String.concat newline lines ++ newline in
    let headers :=
      [ ("Content-Type", "application/x-ndjson");
        ("Authorization", "ApiKey " ++ str_opt (ES_API_KEY cfg)) ] in
    let req :=
      Build_Request (str_opt (ES_URL cfg) ++ "/" ++ index ++ "/_bulk")
                    body headers 10 in
    status <- response ;;
    _ <- raise_for_status status ;;
    Ok (Some req)
  end.

(** ** The driver loop *)

(** What the outside world answers during one iteration of the [while] loop:
    the clock read by the loop test, the draws and the capture timestamps of
    each vehicle (by its index in the fleet), the outcome of the post, and
    the outcome of [time.sleep]. *)
Record Iteration : Type := {
  clock : float;
  draws : nat -> AGVState.TickDraws;
  stamps : nat -> string;
  response : result Z;
  slept : result unit
}.

Record World : Type := {
  init_draws : nat -> AGVState.InitDraws;
  start_time : float;
  iterations : list Iteration
}.

(** How a run ends: the loop test fails and the message is printed, an
    exception leaves [main], or the iterations on record are used up. *)
Inductive ending : Type :=
| Finished (message : string)
| Aborted (e : exn)
| Unfinished.

(** A run: how it ended, the tick counter, the fleet, and the batches
    handed to [bulk_index], oldest first. *)
Record Run : Type := {
  ended : ending;
  ticks : Z;
  fleet : list AGVState.t;
  batches : list (list Doc.t)
}.

(** The integer [n] as a float (exact up to 2^53 in magnitude). *)
Definition float_of_int (n : Z) : float :=
  SF2Prim (binary_normalize prec emax n 0 false).

(** [[AGVState(agv_id) for agv_id in ids]]; the vehicle at index [i] reads
    the draws [rnd i]. *)
Fixpoint create_fleet (rnd : nat -> AGVState.InitDraws) (i : nat)
         (ids : list string) : result (list AGVState.t) :=
  match ids with
  | [] => Ok []
  | agv_id :: ids' =>
    agv <- AGVState.__init__ agv_id (rnd i) ;;
    agvs <- create_fleet rnd (S i) ids' ;;
    Ok (agv :: agvs)
  end.

(** The [for agv in agvs] loop: every vehicle ticks, then renders. *)
Fixpoint tick_fleet (py : Builtins) (dt_sec : float)
         (rnd : nat -> AGVState.TickDraws) (now : nat -> string) (i : nat)
         (agvs : list AGVState.t) : result (list AGVState.t * list Doc.t) :=
  match agvs with
  | [] => Ok ([], [])
  | agv :: agvs' =>
    agv <- AGVState.tick agv dt_sec (rnd i) ;;
    let doc := AGVState.to_doc (round py) agv (now i) in
    rest <- tick_fleet py dt_sec rnd now (S i) agvs' ;;
    Ok (agv :: fst rest, doc :: snd rest)
  end.

(** The [while] loop, one iteration of the world per turn. *)
Fixpoint loop (py : Builtins) (cfg : Config) (start : float)
         (its : list Iteration) (agvs : list AGVState.t) (tick : Z)
         (sent : list (list Doc.t)) : Run :=
  match its with
  | [] => Build_Run Unfinished tick agvs sent
  | it :: its' =>
    if clock it - start <? float_of_int (DURATION_SEC cfg) then
      match tick_fleet py (TICK_INTERVAL_SEC cfg) (draws it) (stamps it) 0 agvs with
      | Raise e => Build_Run (Aborted e) tick agvs sent
      | Ok (agvs, docs) =>
        let sent := (sent ++ [docs])%list in
        match bulk_index py cfg (INDEX_NAME cfg) docs (response it) with
        | Raise e => Build_Run (Aborted e) tick agvs sent
        | Ok _ =>
          let tick := (tick + 1)%Z in
          match slept it with
          | Raise e => Build_Run (Aborted e) tick agvs sent
          | Ok _ => loop py cfg start its' agvs tick sent
          end
        end
      end
    else
      Build_Run
        (Finished ("Simulation finished after " ++ str_int tick ++ " ticks"))
        tick agvs sent
  end.

Definition main (py : Builtins) (cfg : Config) (w : World) : Run :=
  if negb (truthy (ES_URL cfg)) || negb (truthy (ES_API_KEY cfg)) then
    Build_Run
      (Aborted (SystemExit "ES_URL and ES_API_KEY must be set as environment variables"))
      0 [] []
  else
    match create_fleet (init_draws w) 0 AGV_IDS with
    | Raise e => Build_Run (Aborted e) 0 [] []
    | Ok agvs => loop py cfg (start_time w) (iterations w) agvs 0 []
    end.

(** ** The program on the generator of the [random] module

    The functions above read the answers of the generator from records, one
    field per call site.  The source draws every answer from the one
    generator of the [random] module, which all vehicles share: the answer
    to a call depends on the calls made before it.  This part transcribes
    the program with that generator threaded through it, in the order of
    the calls. *)

Module random.

(** The generator: a state and, for each function of the module that the
    program calls, its answer and the state it leaves.  [randbelow n] is
    the index that [choice] picks in a sequence of length [n]. *)
Record t : Type := mk {
  state : Type;
  random : state -> float * state;
  uniform : float -> float -> state -> float * state;
  randint : Z -> Z -> state -> Z * state;
  randbelow : nat -> state -> nat * state
}.

End random.

Module Seeded.

(** What the outside world answers during one iteration of the [while]
    loop: the clock read by the loop test, the capture timestamps (by the
    index of the vehicle), the outcome of the post and of the sleep. *)
Record Iteration : Type := {
  clock : float;
  stamps : nat -> string;
  response : result Z;
  slept : result unit
}.

Section Generator.

Variable rng : random.t.

(** A computation that calls the generator, and returns or raises. *)
Definition M (A : Type) : Type :=
  random.state rng -> result A * random.state rng.

Definition ret {A : Type} (a : A) : M A := fun g => (Ok a, g).

Definition lift {A : Type} (r : result A) : M A := fun g => (r, g).

Definition draw {A : Type} (call : random.state rng -> A * random.state rng)
  : M A :=
  fun g => let (a, g') := call g in (Ok a, g').

Definition bindM {A B : Type} (m : M A) (k : A -> M B) : M B :=
  fun g =>
    match m g with
    | (Ok a, g') => k a g'
    | (Raise e, g') => (Raise e, g')
    end.

Notation "x <~ m ;; k" := (bindM m (fun x => k))
  (at level 61, m at next level, right associativity).

(** [random.choice(seq)]. *)
Definition random_choice {A : Type} (items : list A) : M A :=
  k <~ draw (random.randbelow rng (List.length items)) ;;
  lift (choice items k).

Definition _new_job_id : M string :=
  n <~ draw (random.randint rng 100000 999999) ;;
  ret (AGVState._new_job_id n).

Definition __init__ (agv_id : string) : M AGVState.t :=
  yard_block <~ random_choice YARD_BLOCKS ;;
  lanes <~ lift (dict_get LANES_BY_BLOCK yard_block) ;;
  lane_id <~ random_choice lanes ;;
  position_m <~ draw (random.uniform rng 0.0 1000.0) ;;
  speed_kph <~ draw (random.uniform rng 8.0 14.0) ;;
  soc_pct <~ draw (random.uniform rng 60.0 100.0) ;;
  job_id <~ _new_job_id ;;
  load_status <~ random_choice ["EMPTY"; "LOADED"] ;;
  ret (AGVState.mk agv_id yard_block lane_id position_m speed_kph soc_pct
                   job_id load_status).

(** The body of [if self.position_m >= 1000.0]. *)
Definition finish_job (self : AGVState.t) : M AGVState.t :=
  let self := AGVState.set_position_m 0.0 self in
  job_id <~ _new_job_id ;;
  let self := AGVState.set_job_id job_id self in
  flip <~ draw (random.random rng) ;;
  let self :=
    if flip <? 0.5 then
      AGVState.set_load_status
        (if String.eqb (AGVState.load_status self) "EMPTY"
         then "LOADED" else "EMPTY") self
    else self in
  reassign <~ draw (random.random rng) ;;
  if reassign <? 0.3 then
    yard_block <~ random_choice YARD_BLOCKS ;;
    let self := AGVState.set_yard_block yard_block self in
    lanes <~ lift (dict_get LANES_BY_BLOCK (AGVState.yard_block self)) ;;
    lane_id <~ random_choice lanes ;;
    ret (AGVState.set_lane_id lane_id self)
  else ret self.

(** The battery lines of [tick]. *)
Definition battery (dt_sec : float) (self : AGVState.t) : M AGVState.t :=
  drain <~ draw (random.uniform rng 0.01 0.05) ;;
  let self :=
    AGVState.set_soc_pct (AGVState.soc_pct self - drain * dt_sec) self in
  if AGVState.soc_pct self <? 30 then
    roll <~ draw (random.random rng) ;;
    if roll <? 0.01 then
      level <~ draw (random.uniform rng 70.0 100.0) ;;
      ret (AGVState.set_soc_pct level self)
    else ret self
  else ret self.

Definition tick (self : AGVState.t) (dt_sec : float) : M AGVState.t :=
  delta <~ draw (random.uniform rng (-1.0) 1.0) ;;
  let self := AGVState.set_speed_kph (AGVState.speed_kph self + delta) self in
  let self :=
    AGVState.set_speed_kph
      (py_max 4.0 (py_min (AGVState.speed_kph self) 18.0)) self in
  let m_per_sec := (AGVState.speed_kph self * 1000.0) / 3600.0 in
  let self :=
    AGVState.set_position_m (AGVState.position_m self + m_per_sec * dt_sec)
                            self in
  self <~ (if py_ge (AGVState.position_m self) 1000.0 then finish_job self
           else ret self) ;;
  battery dt_sec self.

Fixpoint create_fleet (ids : list string) : M (list AGVState.t) :=
  match ids with
  | [] => ret []
  | agv_id :: ids' =>
    agv <~ __init__ agv_id ;;
    agvs <~ create_fleet ids' ;;
    ret (agv :: agvs)
  end.

(** The [for agv in agvs] loop: every vehicle ticks, then renders. *)
Fixpoint tick_fleet (py : Builtins) (dt_sec : float) (now : nat -> string)
         (i : nat) (agvs : list AGVState.t)
  : M (list AGVState.t * list Doc.t) :=
  match agvs with
  | [] => ret ([], [])
  | agv :: agvs' =>
    agv <~ tick agv dt_sec ;;
    let doc := AGVState.to_doc (round py) agv (now i) in
    rest <~ tick_fleet py dt_sec now (S i) agvs' ;;
    ret (agv :: fst rest, doc :: snd rest)
  end.

Fixpoint loop (py : Builtins) (cfg : Config) (start : float)
         (its : list Iteration) (agvs : list AGVState.t) (tick : Z)
         (sent : list (list Doc.t)) (g : random.state rng) : Run :=
  match its with
  | [] => Build_Run Unfinished tick agvs sent
  | it :: its' =>
    if clock it - start <? float_of_int (DURATION_SEC cfg) then
      match tick_fleet py (TICK_INTERVAL_SEC cfg) (stamps it) 0 agvs g with
      | (Raise e, _) => Build_Run (Aborted e) tick agvs sent
      | (Ok (agvs, docs), g) =>
        let sent := (sent ++ [docs])%list in
        match bulk_index py cfg (INDEX_NAME cfg) docs (response it) with
        | Raise e => Build_Run (Aborted e) tick agvs sent
        | Ok _ =>
          let tick := (tick + 1)%Z in
          match slept it with
          | Raise e => Build_Run (Aborted e) tick agvs sent
          | Ok _ => loop py cfg start its' agvs tick sent g
          end
        end
      end
    else
      Build_Run
        (Finished ("Simulation finished after " ++ str_int tick ++ " ticks"))
        tick agvs sent
  end.

(** [main], from the state [seed] of the generator, with [start] the
    reading of the clock before the loop. *)
Definition main (py : Builtins) (cfg : Config) (seed : random.state rng)
           (start : float) (its : list Iteration) : Run :=
  if negb (truthy (ES_URL cfg)) || negb (truthy (ES_API_KEY cfg)) then
    Build_Run
      (Aborted (SystemExit "ES_URL and ES_API_KEY must be set as environment variables"))
      0 [] []
  else
    match create_fleet AGV_IDS seed with
    | (Raise e, _) => Build_Run (Aborted e) 0 [] []
    | (Ok agvs, g) => loop py cfg start its agvs 0 [] g
    end.

(** What [n] ticks of the fleet yield from a state of the generator: the
    batches with their timestamps blanked, and the fleet.  No clock, no
    timestamp and no outcome of the publisher is read. *)
Fixpoint ticks_from (py : Builtins) (dt_sec : float) (agvs : list AGVState.t)
         (g : random.state rng) (n : nat)
  : list (list Doc.t) * list AGVState.t :=
  match n with
  | O => ([], agvs)
  | S n' =>
    match tick_fleet py dt_sec (fun _ => EmptyString) 0 agvs g with
    | (Ok (agvs', docs), g') =>
      let (later, final) := ticks_from py dt_sec agvs' g' n' in
      (map Doc.untimed docs :: later, final)
    | (Raise _, _) => ([], agvs)
    end
  end.

(** The same from the seed: the fleet is created, then ticks [n] times. *)
Definition of_seed (py : Builtins) (cfg : Config) (seed : random.state rng)
           (n : nat) : list (list Doc.t) * list AGVState.t :=
  if negb (truthy (ES_URL cfg)) || negb (truthy (ES_API_KEY cfg)) then ([], [])
  else
    match create_fleet AGV_IDS seed with
    | (Raise _, _) => ([], [])
    | (Ok agvs, g) => ticks_from py (TICK_INTERVAL_SEC cfg) agvs g n
    end.

End Generator.

End Seeded.

(** ** The properties the model is checked against *)

(** A run of ticks on one vehicle; each tick has its interval and draws. *)
Fixpoint run_ticks (steps : list (float * AGVState.TickDraws))
         (self : AGVState.t) : result AGVState.t :=
  match steps with
  | [] => Ok self
  | (dt_sec, rnd) :: steps' =>
    self <- AGVState.tick self dt_sec rnd ;;
    run_ticks steps' self
  end.

(** [MIN_SPEED <= speed <= MAX_SPEED]. *)
Definition speed_ok (a : AGVState.t) : bool :=
  (4.0 <=? AGVState.speed_kph a) && (AGVState.speed_kph a <=? 18.0).

(** [0 <= position < LANE_LENGTH]. *)
Definition position_ok (a : AGVState.t) : bool :=
  (0.0 <=? AGVState.position_m a) && (AGVState.position_m a <? 1000.0).

(** [lane_id in LANES_BY_BLOCK[yard_block]]. *)
Definition lane_ok (a : AGVState.t) : bool :=
  match dict_get LANES_BY_BLOCK (AGVState.yard_block a) with
  | Ok lanes => existsb (String.eqb (AGVState.lane_id a)) lanes
  | Raise _ => false
  end.

(** [charge <= 100]. *)
Definition charge_ok (a : AGVState.t) : bool := AGVState.soc_pct a <=? 100.0.

(** The documented range of [random.uniform(lo, hi)]: [lo <= N <= hi]. *)
Definition uniform_ok (lo hi x : float) : bool := (lo <=? x) && (x <=? hi).

(** The documented ranges of the two draws of the battery lines. *)
Definition battery_draws_ok (rnd : AGVState.TickDraws) : bool :=
  uniform_ok 0.01 0.05 (AGVState.drain rnd) &&
  uniform_ok 70.0 100.0 (AGVState.recharge_level rnd).

(** A tick of a configured run: the interval is not negative and the battery
    draws are in their ranges. *)
Definition step_ok (st : float * AGVState.TickDraws) : bool :=
  (0.0 <=? fst st) && battery_draws_ok (snd st).


(** The recharge reset of the tick is executed: the charge after the drain
    is below 30 and the roll fires. *)
Definition recharges (dt_sec : float) (rnd : AGVState.TickDraws)
           (a : AGVState.t) : bool :=
  (AGVState.soc_pct a - AGVState.drain rnd * dt_sec <? 30.0) &&
  (AGVState.recharge_roll rnd <? 0.01).

(** The movement of the tick takes the vehicle to the end of its lane. *)
Definition reaches_end (dt_sec : float) (rnd : AGVState.TickDraws)
           (a : AGVState.t) : bool :=
  py_ge (AGVState.position_m (AGVState.move dt_sec rnd a)) 1000.0.

(** The publish step fails with [e]: the post raises [e], or it returns an
    error status that [raise_for_status] turns into [e]. *)
Definition publish_fails (response : result Z) (e : exn) : Prop :=
  response = Raise e \/
  exists status, response = Ok status /\ (400 <= status < 600)%Z /\
                 e = HTTPError status.

(** The batches of a run with their capture timestamps blanked. *)
Definition untimed_batches (r : Run) : list (list Doc.t) :=
  map (map Doc.untimed) (batches r).

(** [load_status in {EMPTY, LOADED}]. *)
Definition load_ok (a : AGVState.t) : bool :=
  String.eqb (AGVState.load_status a) "EMPTY" ||
  String.eqb (AGVState.load_status a) "LOADED".

(** The other status of a load: the expression of the flip in [tick]. *)
Definition flipped (load_status : string) : string :=
  if String.eqb load_status "EMPTY" then "LOADED" else "EMPTY".

(** A snapshot record that names a lane of its yard block, a load status
    of the two, and the mode [BAU]. *)
Definition doc_ok (d : Doc.t) : bool :=
  String.eqb (Doc.mode d) "BAU" &&
  (String.eqb (Doc.load_status d) "EMPTY" ||
   String.eqb (Doc.load_status d) "LOADED") &&
  match dict_get LANES_BY_BLOCK (Doc.yard_block d) with
  | Ok lanes => existsb (String.eqb (Doc.lane_id d)) lanes
  | Raise _ => false
  end.

(** The configuration passes the test at the start of [main]. *)
Definition configured (cfg : Config) : bool :=
  truthy (ES_URL cfg) && truthy (ES_API_KEY cfg).

(** The loop test of an iteration: the clock is within the duration. *)
Definition within_duration (cfg : Config) (start : float) (it : Iteration)
  : bool :=
  clock it - start <? float_of_int (DURATION_SEC cfg).

(** The post of the iteration returns a status that is no error, and the
    sleep returns. *)
Definition uneventful (it : Iteration) : bool :=
  match response it, slept it with
  | Ok status, Ok _ => negb ((400 <=? status) && (status <? 600))%Z
  | _, _ => false
  end.

(** The text of the body of a bulk request: two lines per record, each
    closed by a newline. *)
Definition ndjson (py : Builtins) (docs : list Doc.t) : string :=
  String.concat EmptyString
    (map (fun doc => index_action ++ newline ++ json_dumps py doc ++ newline)
         docs).

(** The invariants of a vehicle that do not depend on arithmetic. *)
Definition vehicle_ok (a : AGVState.t) : bool := lane_ok a && load_ok a.

(** [s.split(newline)] on a text, and the texts without a newline. *)
Fixpoint split_lines (s : string) : list string :=
  match s with
  | EmptyString => [EmptyString]
  | String c s' =>
    if Ascii.eqb c (ascii_of_nat 10) then EmptyString :: split_lines s'
    else
      match split_lines s' with
      | l :: ls => String c l :: ls
      | [] => [String c EmptyString]
      end
  end.

Fixpoint no_newline (s : string) : bool :=
  match s with
  | EmptyString => true
  | String c s' => negb (Ascii.eqb c (ascii_of_nat 10)) && no_newline s'
  end.

(** The characters [0] to [9]: the codes 48 to 57, read on their bits. *)
Definition is_digit (c : ascii) : bool :=
  match c with
  | Ascii _ b1 b2 b3 b4 b5 b6 b7 =>
    b4 && b5 && negb b6 && negb b7 && (negb b3 || (negb b2 && negb b1))
  end.

(** A text of decimal digits. *)
Fixpoint all_digits (s : string) : bool :=
  match s with
  | EmptyString => true
  | String c s' => is_digit c && all_digits s'
  end.

(** [str(n)] is a text of six decimal digits, or [n] is above 999999. *)
Definition six_digits (n : Z) : bool :=
  (999999 <? n)%Z ||
  ((String.length (str_int n) =? 6)%nat && all_digits (str_int n)).

(** [P] holds on the [2 ^ k] integers from [lo] on. *)
Fixpoint all_from (k : nat) (lo : Z) (P : Z -> bool) : bool :=
  match k with
  | O => P lo
  | S k' => all_from k' lo P && all_from k' (lo + 2 ^ Z.of_nat k')%Z P
  end.

(** No tick of the run takes the lane completion branch. *)
Fixpoint never_completes (steps : list (float * AGVState.TickDraws))
         (a : AGVState.t) : bool :=
  match steps with
  | [] => true
  | (dt_sec, rnd) :: steps' =>
    negb (reaches_end dt_sec rnd a) &&
    match AGVState.tick a dt_sec rnd with
    | Ok a' => never_completes steps' a'
    | Raise _ => false
    end
  end.

(** No tick of the run executes the recharge reset. *)
Fixpoint never_recharges (steps : list (float * AGVState.TickDraws))
         (a : AGVState.t) : bool :=
  match steps with
  | [] => true
  | (dt_sec, rnd) :: steps' =>
    negb (recharges dt_sec rnd a) &&
    match AGVState.tick a dt_sec rnd with
    | Ok a' => never_recharges steps' a'
    | Raise _ => false
    end
  end.

(** The interval of the tick is between zero and one second. *)
Definition within_second (st : float * AGVState.TickDraws) : bool :=
  (0 <=? fst st) && (fst st <=? 1.0).

(** The records are the rendering of the vehicles, timestamps apart. *)
Definition renders (py : Builtins) (docs : list Doc.t)
           (agvs : list AGVState.t) : Prop :=
  map Doc.untimed docs
  = map (fun a => Doc.untimed (AGVState.to_doc (round py) a EmptyString)) agvs.

(** The ticks that vehicle [i] goes through in the given iterations. *)
Definition ticks_of (cfg : Config) (its : list Iteration) (i : nat)
  : list (float * AGVState.TickDraws) :=
  map (fun it => (TICK_INTERVAL_SEC cfg, draws it i)) its.

(** ** Sample inputs, used to evaluate the model *)

(** Stand-ins for the builtins: no rounding, and the vehicle id as text. *)
Definition sample_py : Builtins :=
  Build_Builtins (fun x _ => x) (fun doc => Doc.agv_id doc).

(** Builtins whose [json.dumps] returns the empty object. *)
Definition plain_py : Builtins :=
  Build_Builtins (fun x _ => x) (fun _ => "{}").

Definition sample_cfg : Config :=
  Build_Config (Some "https://elastic.example.com") (Some "key")
               "agv_telemetry" 1.0 600.

(** The same configuration with a duration of zero seconds. *)
Definition zero_duration_cfg : Config :=
  Build_Config (Some "https://elastic.example.com") (Some "key")
               "agv_telemetry" 1.0 0.

Definition sample_init : AGVState.InitDraws :=
  AGVState.Build_InitDraws 1 0 250.0 9.5 77.0 100000 1.

Definition sample_draws : AGVState.TickDraws :=
  AGVState.Build_TickDraws 0.5 123456 0.25 0.125 2 1 0.03125 0.5 80.0.

Definition sample_vehicle : AGVState.t :=
  AGVState.mk "AGV-01" "YB10" "L41" 999.5 10.0 60.0 "JOB-123456" "EMPTY".


Definition draining : AGVState.TickDraws :=
  AGVState.Build_TickDraws 0.0 100000 0.75 0.75 0 0 0.046875 0.75 85.0.

(** A vehicle that enters a tick with charge 50, and the draws of a tick
    whose recharge roll fires. *)
Definition half_charged : AGVState.t :=
  AGVState.mk "AGV-01" "YB10" "L41" 10.0 10.0 50.0 "JOB-123456" "EMPTY".

Definition recharging : AGVState.TickDraws :=
  AGVState.Build_TickDraws 0.0 100000 0.75 0.75 0 0 0.046875 0.0078125 85.0.

(** A vehicle in the middle of its lane. *)
Definition midlane_vehicle : AGVState.t :=
  AGVState.mk "AGV-01" "YB10" "L41" 500.0 10.0 60.0 "JOB-123456" "EMPTY".

(** A vehicle at the start of a lane. *)
Definition lane_start : AGVState.t :=
  AGVState.mk "AGV-01" "YB10" "L41" 0.0 10.0 60.0 "JOB-123456" "EMPTY".

(** One iteration of the loop at clock [now], stamped [stamp], with the
    given outcome of the post. *)
Definition sample_iteration (now : float) (stamp : string)
           (response : result Z) : Iteration :=
  Build_Iteration now (fun _ => sample_draws) (fun _ => stamp) response (Ok tt).

(** Three iterations within the duration; the second post gets a 503. *)
Definition failing_world : World :=
  Build_World (fun _ => sample_init) 100.0
    [ sample_iteration 100.0 "t0" (Ok 200%Z);
      sample_iteration 101.0 "t1" (Ok 503%Z);
      sample_iteration 102.0 "t2" (Ok 200%Z) ].

(** Two iterations within the duration, then a clock reading beyond it. *)
Definition finishing_world : World :=
  Build_World (fun _ => sample_init) 100.0
    [ sample_iteration 100.0 "t0" (Ok 200%Z);
      sample_iteration 101.0 "t1" (Ok 201%Z);
      sample_iteration 800.0 "t2" (Ok 200%Z) ].

(** A generator that counts its calls: [random()] answers 0.25, [uniform]
    a point of its range, [randint] and the index of [choice] follow the
    count. *)
Definition counting_rng : random.t :=
  random.mk nat
    (fun n => (0.25, S n))
    (fun a b n => (a + (b - a) * (if Nat.even n then 0.25 else 0.875), S n))
    (fun a b n => ((a + Z.of_nat n mod (b - a + 1))%Z, S n))
    (fun k n => ((n mod k)%nat, S n)).

(** Two runs of two ticks, at different times, with different capture
    timestamps and different answers of the store. *)
Definition morning_run : list Seeded.Iteration :=
  [ Seeded.Build_Iteration 100.0 (fun _ => "t0") (Ok 200%Z) (Ok tt);
    Seeded.Build_Iteration 101.0 (fun _ => "t1") (Ok 200%Z) (Ok tt);
    Seeded.Build_Iteration 800.0 (fun _ => "t2") (Ok 200%Z) (Ok tt) ].

Definition evening_run : list Seeded.Iteration :=
  [ Seeded.Build_Iteration 5000.5 (fun _ => "u0") (Ok 201%Z) (Ok tt);
    Seeded.Build_Iteration 5002.25 (fun _ => "u1") (Ok 503%Z) (Ok tt);
    Seeded.Build_Iteration 5003.0 (fun _ => "u2") (Ok 200%Z) (Ok tt) ].

(** A vehicle created with a charge just below 100. *)
Definition high_init : AGVState.InitDraws :=
  AGVState.Build_InitDraws 0 0 0.0 10.0 99.984375 100000 0.

(** * Binary64 arithmetic

    The operations of the primitive floats are specified by the Standard
    Library on the bit-level [spec_float]; this part relates them to real
    numbers: every operation returns one of the two binary64 neighbours of
    its exact result, and the comparisons read the order of the reals. *)

Module B64.

Local Open Scope Z_scope.

(** Powers of two as reals. *)
Definition bpow (e : Z) : R := powerRZ 2 e.

Lemma bpow_gt_0 e : (0 < bpow e)%R.
Proof. apply powerRZ_lt. lra. Qed.

Lemma bpow_add a b : bpow (a + b) = (bpow a * bpow b)%R.
Proof. apply powerRZ_add. lra. Qed.

Lemma bpow_nonneg_exp k : 0 <= k -> bpow k = IZR (2 ^ k).
Proof.
  intros Hk. unfold bpow.
  rewrite <- (Z2Nat.id k Hk) at 1.
  rewrite <- pow_powerRZ, pow_IZR, Z2Nat.id by assumption. reflexivity.
Qed.

Lemma bpow_ge_1 k : 0 <= k -> (1 <= bpow k)%R.
Proof.
  intros Hk. rewrite bpow_nonneg_exp by assumption.
  apply IZR_le. assert (0 < 2 ^ k) by (apply Z.pow_pos_nonneg; lia). lia.
Qed.

Lemma bpow_le a b : a <= b -> (bpow a <= bpow b)%R.
Proof.
  intros Hab. replace b with (a + (b - a)) by ring. rewrite bpow_add.
  pose proof (bpow_gt_0 a). pose proof (bpow_ge_1 (b - a) ltac:(lia)). nra.
Qed.

Lemma bpow_lt a b : a < b -> (bpow a < bpow b)%R.
Proof.
  intros Hab. replace b with (a + 1 + (b - a - 1)) by ring.
  rewrite !bpow_add.
  pose proof (bpow_gt_0 a). pose proof (bpow_ge_1 (b - a - 1) ltac:(lia)).
  replace (bpow 1) with 2%R by (unfold bpow; simpl; lra). nra.
Qed.

Arguments bpow e : simpl never.

(** The real value of a dyadic number [m * 2^e]. *)
Definition dyad (m e : Z) : R := (IZR m * bpow e)%R.

Arguments dyad m e : simpl never.

Lemma dyad_shift m e k : 0 <= k -> dyad (m * 2 ^ k) e = dyad m (e + k).
Proof.
  intros Hk. unfold dyad. rewrite mult_IZR, bpow_add, (bpow_nonneg_exp k Hk). ring.
Qed.

Lemma dyad_le m1 m2 e : m1 <= m2 -> (dyad m1 e <= dyad m2 e)%R.
Proof.
  intros H. unfold dyad. apply IZR_le in H. pose proof (bpow_gt_0 e). nra.
Qed.

Lemma dyad_lt m1 m2 e : m1 < m2 -> (dyad m1 e < dyad m2 e)%R.
Proof.
  intros H. unfold dyad. apply IZR_lt in H. pose proof (bpow_gt_0 e). nra.
Qed.

Lemma dyad_pow k e : 0 <= k -> dyad (2 ^ k) e = bpow (k + e).
Proof.
  intros Hk. unfold dyad. rewrite <- bpow_nonneg_exp by assumption.
  symmetry. apply bpow_add.
Qed.

Lemma dyad_add a b e : dyad (a + b) e = (dyad a e + dyad b e)%R.
Proof. unfold dyad. rewrite plus_IZR. ring. Qed.

Lemma dyad_opp a e : dyad (- a) e = (- dyad a e)%R.
Proof. unfold dyad. rewrite opp_IZR. ring. Qed.

Lemma dyad_0 e : dyad 0 e = 0%R.
Proof. unfold dyad. simpl. ring. Qed.

(** Number of binary digits. *)
Lemma digits2_pos_bounds p :
  2 ^ (Z.pos (digits2_pos p) - 1) <= Z.pos p < 2 ^ Z.pos (digits2_pos p).
Proof.
  induction p as [p IH | p IH |]; simpl digits2_pos.
  - rewrite Pos2Z.inj_succ.
    replace (Z.succ (Z.pos (digits2_pos p)) - 1) with (Z.succ (Z.pos (digits2_pos p) - 1)) by lia.
    rewrite !Z.pow_succ_r by lia. lia.
  - rewrite Pos2Z.inj_succ.
    replace (Z.succ (Z.pos (digits2_pos p)) - 1) with (Z.succ (Z.pos (digits2_pos p) - 1)) by lia.
    rewrite !Z.pow_succ_r by lia. lia.
  - simpl. lia.
Qed.

Lemma digits2_pos_le p k : Z.pos p < 2 ^ k -> 0 <= k -> Z.pos (digits2_pos p) <= k.
Proof.
  intros Hp Hk. pose proof (digits2_pos_bounds p) as [Hlo _].
  destruct (Z_le_gt_dec (Z.pos (digits2_pos p)) k) as [|Hgt]; [assumption|].
  exfalso. assert (2 ^ k <= 2 ^ (Z.pos (digits2_pos p) - 1)) by (apply Z.pow_le_mono_r; lia).
  lia.
Qed.

Lemma digits2_pos_ge p k : 2 ^ k <= Z.pos p -> 0 <= k -> k + 1 <= Z.pos (digits2_pos p).
Proof.
  intros Hp Hk. pose proof (digits2_pos_bounds p) as [_ Hhi].
  destruct (Z_le_gt_dec (k + 1) (Z.pos (digits2_pos p))) as [|Hgt]; [assumption|].
  exfalso. assert (2 ^ Z.pos (digits2_pos p) <= 2 ^ k) by (apply Z.pow_le_mono_r; lia).
  lia.
Qed.


(** Right shifts with rounding bits. *)
Lemma iter_pos_nat {A : Type} (f : A -> A) p x :
  SpecFloat.iter_pos f p x = Nat.iter (Pos.to_nat p) f x.
Proof.
  assert (Hswap : forall n y, Nat.iter n f (f y) = f (Nat.iter n f y)).
  { intros n y. rewrite <- Nat.iter_succ_r. reflexivity. }
  revert x. induction p as [p IH | p IH |]; intros x; simpl SpecFloat.iter_pos.
  - rewrite !IH, Pos2Nat.inj_xI.
    replace (S (2 * Pos.to_nat p)) with (S (Pos.to_nat p + Pos.to_nat p)) by lia.
    rewrite Nat.iter_succ, Nat.iter_add, !Hswap. reflexivity.
  - rewrite !IH, Pos2Nat.inj_xO.
    replace (2 * Pos.to_nat p)%nat with (Pos.to_nat p + Pos.to_nat p)%nat by lia.
    rewrite Nat.iter_add. reflexivity.
  - reflexivity.
Qed.

Lemma shr_1_m mrs : 0 <= shr_m mrs -> shr_m (shr_1 mrs) = shr_m mrs / 2.
Proof.
  destruct mrs as [m r s]. cbn [shr_m]. intros Hm.
  destruct m as [| [p | p |] | p]; cbn [shr_1 shr_m]; try lia.
  - reflexivity.
  - apply Z.div_unique with (r := 1); lia.
  - apply Z.div_unique with (r := 0); lia.
  - reflexivity.
Qed.

Lemma shr_iter_m k mrs :
  0 <= shr_m mrs -> shr_m (Nat.iter k shr_1 mrs) = shr_m mrs / 2 ^ Z.of_nat k.
Proof.
  intros Hm. induction k as [| k IH].
  - simpl. rewrite Z.div_1_r. reflexivity.
  - simpl Nat.iter. rewrite shr_1_m.
    + rewrite IH, Nat2Z.inj_succ, Z.pow_succ_r by lia.
      rewrite Z.div_div by (try lia; apply Z.pow_pos_nonneg; lia).
      f_equal. ring.
    + rewrite IH. apply Z.div_pos; [assumption | apply Z.pow_pos_nonneg; lia].
Qed.

Lemma shr_iter_exact k m :
  0 <= m -> m mod 2 ^ Z.of_nat k = 0 ->
  Nat.iter k shr_1 (Build_shr_record m false false)
  = Build_shr_record (m / 2 ^ Z.of_nat k) false false.
Proof.
  revert m. induction k as [| k IH]; intros m Hm Hmod.
  - simpl. rewrite Z.div_1_r. reflexivity.
  - rewrite Nat.iter_succ_r.
    rewrite Nat2Z.inj_succ, Z.pow_succ_r in * by lia.
    assert (Hk : 0 < 2 ^ Z.of_nat k) by (apply Z.pow_pos_nonneg; lia).
    apply Z.mod_divide in Hmod; [| lia]. destruct Hmod as [q Hq].
    assert (Hm2 : m = 2 * (q * 2 ^ Z.of_nat k)) by lia.
    assert (Hs : shr_1 (Build_shr_record m false false)
                 = Build_shr_record (q * 2 ^ Z.of_nat k) false false).
    { rewrite Hm2. destruct (q * 2 ^ Z.of_nat k) as [| p | p]; simpl; reflexivity. }
    rewrite Hs, IH.
    + f_equal. rewrite Z.div_mul by lia. rewrite Hm2 at 1.
      replace (2 * (q * 2 ^ Z.of_nat k)) with (q * (2 * 2 ^ Z.of_nat k)) by ring.
      rewrite Z.div_mul by lia. reflexivity.
    + nia.
    + apply Z.mod_mul. lia.
Qed.

Lemma round_nearest_even_cases m l :
  round_nearest_even m l = m \/ round_nearest_even m l = m + 1.
Proof.
  destruct l as [| []]; simpl; auto. destruct (Z.even m); auto.
Qed.


(** The binary64 format. *)
Abbreviation fexp64 := (fexp prec emax).

Lemma fexp64_eq e : fexp64 e = Z.max (e - 53) (-1074).
Proof. reflexivity. Qed.

Lemma shr_fexp_noshift m e l :
  fexp64 (Zdigits2 m + e) <= e ->
  shr_fexp prec emax m e l = (shr_record_of_loc m l, e).
Proof.
  intros H. unfold shr_fexp, shr.
  destruct (fexp64 (Zdigits2 m + e) - e) eqn:E; try reflexivity. lia.
Qed.

Lemma shr_record_of_loc_m m l : shr_m (shr_record_of_loc m l) = m.
Proof. destruct l as [| []]; reflexivity. Qed.

Lemma shr_fexp_spec m e l :
  0 <= m -> e <= fexp64 (Zdigits2 m + e) ->
  let e1 := fexp64 (Zdigits2 m + e) in
  exists mrs,
    shr_fexp prec emax m e l = (mrs, e1) /\
    shr_m mrs = m / 2 ^ (e1 - e) /\
    (l = loc_Exact -> m mod 2 ^ (e1 - e) = 0 ->
     mrs = Build_shr_record (m / 2 ^ (e1 - e)) false false).
Proof.
  intros Hm He e1. unfold shr_fexp, shr. fold e1.
  destruct (e1 - e) as [| q | q] eqn:E; try lia.
  - exists (shr_record_of_loc m l). assert (e1 = e) by lia.
    repeat split.
    + congruence.
    + rewrite shr_record_of_loc_m. simpl. rewrite Z.div_1_r. reflexivity.
    + intros -> _. simpl. rewrite Z.div_1_r. reflexivity.
  - exists (SpecFloat.iter_pos shr_1 q (shr_record_of_loc m l)).
    repeat split.
    + f_equal. lia.
    + rewrite iter_pos_nat, shr_iter_m, shr_record_of_loc_m, positive_nat_Z.
      * reflexivity.
      * rewrite shr_record_of_loc_m. assumption.
    + intros -> Hmod. rewrite iter_pos_nat. simpl shr_record_of_loc.
      rewrite <- (positive_nat_Z q) in *. apply shr_iter_exact; assumption.
Qed.

(** The rounding bit and the sticky bit after the shifts. *)
Lemma shr_1_r mrs : 0 <= shr_m mrs -> shr_r (shr_1 mrs) = Z.odd (shr_m mrs).
Proof.
  destruct mrs as [m r s]. cbn [shr_m]. intros Hm.
  destruct m as [| [p | p |] | p]; try reflexivity. lia.
Qed.

Lemma shr_1_s mrs : shr_s (shr_1 mrs) = shr_r mrs || shr_s mrs.
Proof.
  destruct mrs as [m r s]. destruct m as [| [p | p |] | [p | p |]]; reflexivity.
Qed.

Lemma shr_iter_nonneg k mrs : 0 <= shr_m mrs -> 0 <= shr_m (Nat.iter k shr_1 mrs).
Proof.
  intros Hm. rewrite shr_iter_m by assumption.
  apply Z.div_pos; [assumption | apply Z.pow_pos_nonneg; lia].
Qed.

Lemma shr_iter_r k mrs :
  0 <= shr_m mrs ->
  shr_r (Nat.iter (S k) shr_1 mrs) = Z.odd (shr_m mrs / 2 ^ Z.of_nat k).
Proof.
  intros Hm. simpl Nat.iter. rewrite shr_1_r by (apply shr_iter_nonneg; assumption).
  rewrite shr_iter_m by assumption. reflexivity.
Qed.

Lemma shr_iter_s k m :
  0 <= m ->
  shr_s (Nat.iter (S k) shr_1 (Build_shr_record m false false)) = false ->
  m mod 2 ^ Z.of_nat k = 0.
Proof.
  intros Hm. induction k as [| k IH].
  - intros _. apply Z.mod_1_r.
  - intros Hs. change (Nat.iter (S (S k)) shr_1 ?x) with (shr_1 (Nat.iter (S k) shr_1 x)) in Hs.
    rewrite shr_1_s in Hs. apply orb_false_iff in Hs. destruct Hs as [Hr Hs].
    specialize (IH Hs). rewrite shr_iter_r in Hr by assumption. cbn [shr_m] in Hr.
    assert (Hk : 0 < 2 ^ Z.of_nat k) by (apply Z.pow_pos_nonneg; lia).
    rewrite Nat2Z.inj_succ, Z.pow_succ_r by lia.
    apply Z.mod_divide in IH; [| lia]. destruct IH as [q Hq].
    rewrite Hq, Z.div_mul in Hr by lia.
    rewrite <- Z.negb_even, negb_false_iff in Hr. apply Z.even_spec in Hr.
    destruct Hr as [q' ->]. rewrite Hq.
    replace (2 * q' * 2 ^ Z.of_nat k) with (q' * (2 * 2 ^ Z.of_nat k)) by ring.
    apply Z.mod_mul. lia.
Qed.

(** Rounding to nearest: the mantissa goes up only from a remainder of at
    least half a unit, and stays only on a remainder of at most half. *)
Lemma shr_fexp_nearest m e mrs :
  0 <= m -> e <= fexp64 (Zdigits2 m + e) ->
  let e1 := fexp64 (Zdigits2 m + e) in
  shr_fexp prec emax m e loc_Exact = (mrs, e1) ->
  let m1 := m / 2 ^ (e1 - e) in
  let m2 := round_nearest_even (shr_m mrs) (loc_of_shr_record mrs) in
  (m2 = m1 + 1 -> 2 ^ (e1 - e) <= 2 * (m mod 2 ^ (e1 - e))) /\
  (m2 = m1 -> 2 * (m mod 2 ^ (e1 - e)) <= 2 ^ (e1 - e)).
Proof.
  intros Hm He e1 Hshr m1 m2.
  unfold shr_fexp, shr in Hshr. fold e1 in Hshr. cbn [shr_record_of_loc] in Hshr.
  destruct (e1 - e) as [| q | q] eqn:En; try lia.
  - injection Hshr as <-. unfold m2, m1. cbn. rewrite Z.mod_1_r, Z.div_1_r. lia.
  - assert (Emrs : mrs = Nat.iter (Pos.to_nat q) shr_1 (Build_shr_record m false false)).
    { rewrite <- iter_pos_nat. congruence. }
    destruct (Pos2Nat.is_succ q) as [k Ek]. rewrite Ek in Emrs.
    assert (Eq : Z.pos q = Z.of_nat k + 1) by lia.
    set (h := 2 ^ Z.of_nat k).
    assert (Hh : 0 < h) by (apply Z.pow_pos_nonneg; lia).
    assert (E2h : 2 ^ Z.pos q = 2 * h).
    { rewrite Eq, Z.pow_add_r by lia. unfold h. ring. }
    assert (Em2 : shr_m mrs = m1).
    { rewrite Emrs, shr_iter_m by (cbn; assumption). cbn [shr_m]. unfold m1.
      f_equal. f_equal. lia. }
    assert (Er : shr_r mrs = Z.odd (m / h)).
    { rewrite Emrs, shr_iter_r by (cbn; assumption). reflexivity. }
    assert (Es : shr_s mrs = false -> m mod h = 0).
    { rewrite Emrs. apply shr_iter_s. assumption. }
    assert (Em1 : m1 = m / (2 * h)) by (unfold m1; rewrite E2h; reflexivity).
    clearbody m1. rewrite E2h in *.
    pose proof (Z.div_mod m (2 * h) ltac:(lia)) as Hdm.
    pose proof (Z.mod_pos_bound m (2 * h) ltac:(lia)) as Hrem.
    rewrite <- Em1 in Hdm. set (rem := m mod (2 * h)) in *.
    pose proof (Z.div_mod rem h ltac:(lia)) as Hdr.
    pose proof (Z.mod_pos_bound rem h ltac:(lia)) as Hrr.
    assert (Hb : 0 <= rem / h <= 1).
    { split; [apply Z.div_pos; lia |].
      assert (rem / h < 2) by (apply Z.div_lt_upper_bound; lia). lia. }
    assert (Emh : m / h = 2 * m1 + rem / h).
    { symmetry. apply Z.div_unique with (r := rem mod h); [left; lia | nia]. }
    assert (Emodh : m mod h = rem mod h).
    { symmetry. apply Z.mod_unique with (q := 2 * m1 + rem / h); [left; lia | nia]. }
    rewrite Emh, Z.add_comm, Z.odd_add_mul_2 in Er.
    unfold m2. rewrite Em2.
    destruct mrs as [mm r s]. cbn [shr_r shr_s shr_m loc_of_shr_record] in *.
    destruct r.
    + assert (rem / h = 1).
      { destruct (Z.eq_dec (rem / h) 0) as [E0 | E0]; [rewrite E0 in Er; discriminate | lia]. }
      split; [nia |]. intros Hstay. destruct s.
      * simpl in Hstay. lia.
      * specialize (Es eq_refl). rewrite Emodh in Es. nia.
    + assert (rem / h = 0).
      { destruct (Z.eq_dec (rem / h) 1) as [E1 | E1]; [rewrite E1 in Er; discriminate | lia]. }
      split; [| nia]. intros Hup. destruct s; simpl in Hup; lia.
Qed.

Lemma Zdigits2_bounds m :
  0 <= m ->
  0 <= Zdigits2 m /\ m < 2 ^ Zdigits2 m /\ (0 < m -> 2 ^ (Zdigits2 m - 1) <= m).
Proof.
  intros Hm. destruct m as [| p | p]; try lia.
  - simpl. lia.
  - pose proof (digits2_pos_bounds p). simpl Zdigits2. lia.
Qed.

(** What [binary_round_aux] returns on a mantissa [m], an exponent [e] that
    is not above the target exponent, and a location [l]: the mantissa is
    shifted down to [m1], rounded to [m2], which is [m1] or its successor. *)
Lemma round_aux_spec s m e l :
  0 <= m ->
  let e1 := fexp64 (Zdigits2 m + e) in
  e <= e1 ->
  let m1 := m / 2 ^ (e1 - e) in
  let r := binary_round_aux prec emax s m e l in
  exists m2,
    (m2 = m1 \/ m2 = m1 + 1) /\
    (l = loc_Exact -> m mod 2 ^ (e1 - e) = 0 -> m2 = m1) /\
    0 <= m1 < 2 ^ 53 /\ (e1 = -1074 \/ 2 ^ 52 <= m1) /\ -1074 <= e1 /\
    ((r = S754_zero s /\ m2 = 0) \/
     (exists m3 e3, r = S754_finite s m3 e3 /\ dyad (Z.pos m3) e3 = dyad m2 e1 /\
                    e1 <= 971) \/
     (r = S754_infinity s /\ (bpow 1024 <= dyad m2 e1)%R)) /\
    (l = loc_Exact ->
     (m2 = m1 + 1 -> 2 ^ (e1 - e) <= 2 * (m mod 2 ^ (e1 - e))) /\
     (m2 = m1 -> 2 * (m mod 2 ^ (e1 - e)) <= 2 ^ (e1 - e))).
Proof.
  intros Hm0 e1 He m1 r.
  destruct (shr_fexp_spec m e l) as (mrs & Hshr & Hmrs & Hexact); [lia | exact He |].
  fold e1 in Hshr, Hmrs, Hexact. fold m1 in Hmrs, Hexact.
  set (m2 := round_nearest_even (shr_m mrs) (loc_of_shr_record mrs)).
  assert (Hpow : 0 < 2 ^ (e1 - e)) by (apply Z.pow_pos_nonneg; lia).
  destruct (Zdigits2_bounds m Hm0) as (Hd0 & Hdhi & Hdlo).
  assert (He1 : -1074 <= e1) by (unfold e1; rewrite fexp64_eq; lia).
  assert (Hm1 : 0 <= m1 < 2 ^ 53).
  { split.
    - apply Z.div_pos; lia.
    - apply Z.div_lt_upper_bound; [assumption |].
      rewrite <- Z.pow_add_r by lia.
      assert (2 ^ Zdigits2 m <= 2 ^ (e1 - e + 53)).
      { apply Z.pow_le_mono_r; [lia |]. unfold e1. rewrite fexp64_eq. lia. }
      lia. }
  assert (Hnorm : e1 = -1074 \/ 2 ^ 52 <= m1).
  { destruct (Z.eq_dec e1 (-1074)) as [| Hne]; [left; assumption | right].
    assert (E : e1 - e = Zdigits2 m - 53).
    { unfold e1 in *. rewrite fexp64_eq in *. lia. }
    assert (0 < m).
    { destruct (Z.eq_dec m 0) as [-> |]; [| lia]. simpl in E. lia. }
    apply Z.div_le_lower_bound; [assumption |].
    rewrite <- Z.pow_add_r by lia. rewrite E.
    replace (Zdigits2 m - 53 + 52) with (Zdigits2 m - 1) by ring.
    auto. }
  assert (Hm2 : m2 = m1 \/ m2 = m1 + 1).
  { unfold m2. rewrite Hmrs. apply round_nearest_even_cases. }
  exists m2.
  split; [assumption |]. split.
  { intros Hl Hmod. unfold m2. rewrite (Hexact Hl Hmod). reflexivity. }
  split; [assumption |]. split; [assumption |]. split; [assumption |].
  split.
  2:{ intros ->. apply (shr_fexp_nearest m e mrs Hm0 He Hshr). }
  - unfold r, binary_round_aux. rewrite Hshr. fold m2.
    destruct (Z.eq_dec m2 (2 ^ 53)) as [Hcarry | Hnocarry].
    + (* the mantissa carried into a new binade *)
      rewrite Hcarry.
      assert (E : shr_fexp prec emax (2 ^ 53) e1 loc_Exact
                  = (Build_shr_record (2 ^ 52) false false, e1 + 1)).
      { unfold shr_fexp. change (Zdigits2 (2 ^ 53)) with 54. rewrite fexp64_eq.
        replace (Z.max (54 + e1 - 53) (-1074) - e1) with 1 by lia. reflexivity. }
      rewrite E. cbn [shr_m]. change (2 ^ 52) with (Z.pos (2 ^ 52)).
      destruct (e1 + 1 <=? emax - prec) eqn:Hov.
      * right; left. exists (2 ^ 52)%positive, (e1 + 1). split; [reflexivity |].
        apply Z.leb_le in Hov. change (emax - prec) with 971 in Hov.
        split; [| lia]. rewrite <- dyad_shift by lia. reflexivity.
      * right; right. split; [reflexivity |].
        apply Z.leb_gt in Hov. change (emax - prec) with 971 in Hov.
        rewrite dyad_pow by lia. apply bpow_le. lia.
    + assert (Hlt : m2 < 2 ^ 53) by lia.
      destruct m2 as [| q | q] eqn:Em2; try lia.
      * left. split; [| reflexivity].
        rewrite shr_fexp_noshift; [reflexivity |].
        simpl Zdigits2. rewrite fexp64_eq. lia.
      * right.
        rewrite shr_fexp_noshift.
        2:{ simpl Zdigits2. rewrite fexp64_eq.
            pose proof (digits2_pos_le q 53 Hlt). lia. }
        rewrite shr_record_of_loc_m.
        destruct (e1 <=? emax - prec) eqn:Hov.
        -- left. exists q, e1. apply Z.leb_le in Hov.
           change (emax - prec) with 971 in Hov. repeat split. assumption.
        -- right. split; [reflexivity |].
           apply Z.leb_gt in Hov. change (emax - prec) with 971 in Hov.
           assert (2 ^ 52 <= Z.pos q) by lia.
           apply Rle_trans with (dyad (2 ^ 52) e1); [| apply dyad_le; assumption].
           rewrite dyad_pow by lia. apply bpow_le. lia.
Qed.

(** ** Real values of binary64 numbers *)

Definition SF2R (x : spec_float) : R :=
  match x with
  | S754_finite s m e => if s then (- dyad (Z.pos m) e)%R else dyad (Z.pos m) e
  | _ => 0%R
  end.

Definition SFfin (x : spec_float) : bool :=
  match x with
  | S754_zero _ | S754_finite _ _ _ => true
  | _ => false
  end.

Lemma dyad_pos p e : (0 < dyad (Z.pos p) e)%R.
Proof.
  unfold dyad. pose proof (bpow_gt_0 e). assert (0 < IZR (Z.pos p))%R by (apply IZR_lt; lia). nra.
Qed.

Lemma valid_finite_bounds s m e :
  valid_binary (S754_finite s m e) = true ->
  -1074 <= e <= 971 /\ Z.pos m < 2 ^ 53 /\ (e = -1074 \/ 2 ^ 52 <= Z.pos m).
Proof.
  unfold SpecFloat.valid_binary, SpecFloat.bounded, SpecFloat.canonical_mantissa.
  rewrite andb_true_iff, Z.eqb_eq, Z.leb_le, fexp64_eq.
  change (emax - prec) with 971. intros [Hc Hb].
  pose proof (digits2_pos_bounds m) as [Hlo Hhi].
  assert (Hd : Z.pos (digits2_pos m) <= 53) by lia.
  repeat split; try lia.
  - assert (2 ^ Z.pos (digits2_pos m) <= 2 ^ 53) by (apply Z.pow_le_mono_r; lia). lia.
  - destruct (Z.eq_dec e (-1074)); [left; assumption | right].
    replace (Z.pos (digits2_pos m)) with 53 in Hlo by lia. exact Hlo.
Qed.

Lemma valid_lt_bpow x :
  valid_binary x = true -> (Rabs (SF2R x) < bpow 1024)%R.
Proof.
  intros Hv. pose proof (bpow_gt_0 1024).
  destruct x as [s | s | | s m e]; simpl; try (rewrite Rabs_R0; assumption).
  apply valid_finite_bounds in Hv. destruct Hv as (He & Hm & _).
  pose proof (dyad_pos m e).
  assert (dyad (Z.pos m) e < bpow 1024)%R.
  { apply Rlt_le_trans with (dyad (2 ^ 53) e); [apply dyad_lt; assumption |].
    rewrite dyad_pow by lia. apply bpow_le. lia. }
  destruct s; [rewrite Rabs_Ropp |]; rewrite Rabs_pos_eq; lra.
Qed.

(** Order of the real values, as a comparison result. *)
Definition cmp_R (c : comparison) (a b : R) : Prop :=
  match c with
  | Lt => (a < b)%R
  | Eq => a = b
  | Gt => (b < a)%R
  end.

Lemma dyad_compare m1 e1 m2 e2 :
  Z.pos m1 < 2 ^ 53 -> (e1 = -1074 \/ 2 ^ 52 <= Z.pos m1) -> -1074 <= e1 ->
  Z.pos m2 < 2 ^ 53 -> (e2 = -1074 \/ 2 ^ 52 <= Z.pos m2) -> -1074 <= e2 ->
  cmp_R (match e1 ?= e2 with
         | Lt => Lt
         | Gt => Gt
         | Eq => Pos.compare_cont Eq m1 m2
         end) (dyad (Z.pos m1) e1) (dyad (Z.pos m2) e2).
Proof.
  intros H1 N1 L1 H2 N2 L2.
  assert (Hlex : forall ma ea mb eb, Z.pos ma < 2 ^ 53 -> 2 ^ 52 <= Z.pos mb -> ea < eb ->
                 (dyad (Z.pos ma) ea < dyad (Z.pos mb) eb)%R).
  { intros ma ea mb eb Ha Hb Hlt.
    apply Rlt_le_trans with (dyad (2 ^ 53) ea); [apply dyad_lt; assumption |].
    apply Rle_trans with (dyad (2 ^ 52) eb); [| apply dyad_le; assumption].
    rewrite !dyad_pow by lia. apply bpow_le. lia. }
  destruct (Z.compare_spec e1 e2) as [E | E | E].
  - subst e2. change (Pos.compare_cont Eq m1 m2) with (Pos.compare m1 m2).
    destruct (Pos.compare_spec m1 m2) as [E | E | E]; simpl.
    + subst. reflexivity.
    + apply dyad_lt. lia.
    + apply dyad_lt. lia.
  - simpl. apply Hlex; lia.
  - simpl. apply Hlex; lia.
Qed.

Lemma SFcompare_spec x y :
  valid_binary x = true -> valid_binary y = true ->
  SFfin x = true -> SFfin y = true ->
  exists c, SFcompare x y = Some c /\ cmp_R c (SF2R x) (SF2R y).
Proof.
  intros Vx Vy Fx Fy.
  destruct x as [sx | sx | | sx mx ex]; try discriminate;
  destruct y as [sy | sy | | sy my ey]; try discriminate; simpl.
  - exists Eq. split; reflexivity.
  - pose proof (dyad_pos my ey).
    destruct sy; eexists; (split; [reflexivity | simpl; lra]).
  - pose proof (dyad_pos mx ex).
    destruct sx; eexists; (split; [reflexivity | simpl; lra]).
  - apply valid_finite_bounds in Vx, Vy.
    destruct Vx as (Ex & Mx & Nx), Vy as (Ey & My & Ny).
    pose proof (dyad_pos mx ex). pose proof (dyad_pos my ey).
    pose proof (dyad_compare mx ex my ey Mx Nx ltac:(lia) My Ny ltac:(lia)) as Hc.
    destruct sx, sy; eexists; (split; [reflexivity |]); try (simpl; lra).
    + destruct (ex ?= ey); [destruct (Pos.compare_cont Eq mx my) |..]; simpl in *; lra.
    + exact Hc.
Qed.

Lemma SFleb_spec x y :
  valid_binary x = true -> valid_binary y = true ->
  SFfin x = true -> SFfin y = true ->
  (SFleb x y = true <-> (SF2R x <= SF2R y)%R).
Proof.
  intros Vx Vy Fx Fy.
  destruct (SFcompare_spec x y Vx Vy Fx Fy) as (c & Hc & Hr).
  unfold SFleb. rewrite Hc. destruct c; simpl in Hr; split; intros; try lra; try reflexivity; try discriminate.
Qed.

Lemma SFltb_spec x y :
  valid_binary x = true -> valid_binary y = true ->
  SFfin x = true -> SFfin y = true ->
  (SFltb x y = true <-> (SF2R x < SF2R y)%R).
Proof.
  intros Vx Vy Fx Fy.
  destruct (SFcompare_spec x y Vx Vy Fx Fy) as (c & Hc & Hr).
  unfold SFltb. rewrite Hc. destruct c; simpl in Hr; split; intros; try lra; try reflexivity; try discriminate.
Qed.

(** Two finite numbers with the same value, not zero, are the same float. *)
Lemma SF2R_inj x y :
  valid_binary x = true -> valid_binary y = true ->
  SFfin x = true -> SFfin y = true ->
  SF2R x = SF2R y -> SF2R x <> 0%R -> x = y.
Proof.
  intros Vx Vy Fx Fy E Hx.
  destruct x as [sx | sx | | sx mx ex]; try discriminate; simpl in Hx; try lra.
  destruct y as [sy | sy | | sy my ey]; try discriminate.
  - simpl in E. rewrite E in Hx. lra.
  - apply valid_finite_bounds in Vx, Vy.
    destruct Vx as (Ex & Mx & Nx), Vy as (Ey & My & Ny).
    pose proof (dyad_pos mx ex). pose proof (dyad_pos my ey).
    pose proof (dyad_compare mx ex my ey Mx Nx ltac:(lia) My Ny ltac:(lia)) as Hc.
    assert (Ed : dyad (Z.pos mx) ex = dyad (Z.pos my) ey /\ sx = sy).
    { simpl in E. destruct sx, sy; split; try reflexivity; lra. }
    destruct Ed as [Ed ->]. rewrite Ed in Hc.
    destruct (Z.compare_spec ex ey) as [-> | |]; simpl in Hc; try lra.
    change (Pos.compare_cont Eq mx my) with (Pos.compare mx my) in Hc.
    destruct (Pos.compare_spec mx my) as [-> | |]; simpl in Hc; try lra.
    reflexivity.
Qed.

(** No binary64 number lies strictly between two neighbours of a binade. *)
Lemma no_float_between g m1 e1 :
  valid_binary g = true ->
  0 <= m1 < 2 ^ 53 -> (e1 = -1074 \/ 2 ^ 52 <= m1) -> -1074 <= e1 ->
  (SF2R g <= dyad m1 e1)%R \/ (dyad (m1 + 1) e1 <= SF2R g)%R.
Proof.
  intros Vg Hm1 Hn He1.
  assert (H0 : (0 <= dyad m1 e1)%R).
  { unfold dyad. pose proof (bpow_gt_0 e1). assert (0 <= IZR m1)%R by (apply IZR_le; lia). nra. }
  destruct g as [s | s | | s m e]; simpl; try (left; lra).
  pose proof (dyad_pos m e).
  destruct s; [left; lra |].
  apply valid_finite_bounds in Vg. destruct Vg as (Ee & Mm & Nm).
  destruct (Z_lt_le_dec e e1) as [Hlt | Hge].
  - left. destruct Hn as [-> | Hn]; [lia |].
    apply Rlt_le. apply Rlt_le_trans with (dyad (2 ^ 53) e); [apply dyad_lt; assumption |].
    apply Rle_trans with (dyad (2 ^ 52) e1); [| apply dyad_le; assumption].
    rewrite !dyad_pow by lia. apply bpow_le. lia.
  - replace e with (e1 + (e - e1)) by ring.
    rewrite <- dyad_shift by lia.
    assert (0 < 2 ^ (e - e1)) by (apply Z.pow_pos_nonneg; lia).
    destruct (Z_le_gt_dec (Z.pos m * 2 ^ (e - e1)) m1).
    + left. apply dyad_le. assumption.
    + right. apply dyad_le. lia.
Qed.


(** ** Faithful rounding *)

(** The value [rv] that [binary_round_aux] returns for a magnitude [v] located
    by [(m, e, l)] is one of the two binary64 neighbours of [v], and it is
    [v] itself when [v] is a binary64 number. *)
Lemma round_aux_value s m e l v :
  0 <= m -> e <= fexp64 (Zdigits2 m + e) ->
  (dyad m e <= v < dyad (m + 1) e)%R -> (v = dyad m e -> l = loc_Exact) ->
  let r := binary_round_aux prec emax s m e l in
  exists rv : R,
    ((SFfin r = true /\ SF2R r = (if s then - rv else rv)%R) \/
     (r = S754_infinity s /\ (bpow 1024 <= rv)%R)) /\
    (0 <= rv)%R /\
    (forall g, valid_binary g = true ->
      ((SF2R g <= v)%R -> (SF2R g <= rv)%R) /\
      ((v <= SF2R g)%R -> (rv <= SF2R g)%R)) /\
    (l = loc_Exact -> v = dyad m e ->
     (forall g, valid_binary g = true -> (Rabs (rv - v) <= Rabs (SF2R g - v))%R) /\
     (SFfin r = true -> (Rabs (rv - v) <= bpow 1024 - v)%R)).
Proof.
  intros Hm He Hv Hl r.
  destruct (round_aux_spec s m e l Hm He) as (m2 & Hm2 & Hex & Hm1 & Hn & He1 & Hr & Hnear).
  fold r in Hr.
  set (e1 := fexp64 (Zdigits2 m + e)) in *.
  set (m1 := m / 2 ^ (e1 - e)) in *.
  assert (Hpow : 0 < 2 ^ (e1 - e)) by (apply Z.pow_pos_nonneg; lia).
  assert (Hdiv : m1 * 2 ^ (e1 - e) <= m < (m1 + 1) * 2 ^ (e1 - e)).
  { unfold m1. pose proof (Z.mul_div_le m _ Hpow). pose proof (Z.mul_succ_div_gt m _ Hpow). lia. }
  assert (Edown : dyad m1 e1 = dyad (m1 * 2 ^ (e1 - e)) e).
  { rewrite dyad_shift by lia. f_equal. ring. }
  assert (Eup : dyad (m1 + 1) e1 = dyad ((m1 + 1) * 2 ^ (e1 - e)) e).
  { rewrite dyad_shift by lia. f_equal. ring. }
  assert (Hdown : (dyad m1 e1 <= v)%R).
  { rewrite Edown. apply Rle_trans with (dyad m e); [apply dyad_le; lia | lra]. }
  assert (Hup : (v < dyad (m1 + 1) e1)%R).
  { rewrite Eup. apply Rlt_le_trans with (dyad (m + 1) e); [lra | apply dyad_le; lia]. }
  assert (Hexact : v = dyad m1 e1 -> m2 = m1).
  { intros Ev. assert (Em : m = m1 * 2 ^ (e1 - e)).
    { destruct (Z.eq_dec m (m1 * 2 ^ (e1 - e))) as [| Hne]; [assumption | exfalso].
      assert (dyad (m1 * 2 ^ (e1 - e)) e < dyad m e)%R by (apply dyad_lt; lia). lra. }
    apply Hex.
    - apply Hl. rewrite Ev, Edown, <- Em. reflexivity.
    - rewrite Em. apply Z.mod_mul. lia. }
  assert (Hrv : (dyad m1 e1 <= dyad m2 e1 <= dyad (m1 + 1) e1)%R).
  { split; apply dyad_le; lia. }
  assert (H0 : (0 <= dyad m1 e1)%R).
  { unfold dyad. pose proof (bpow_gt_0 e1). assert (0 <= IZR m1)%R by (apply IZR_le; lia). nra. }
  exists (dyad m2 e1). split; [| split; [lra | split]].
  - destruct Hr as [[-> ->] | [(m3 & e3 & -> & E & _) | [-> Hbig]]].
    + left. split; [reflexivity |]. unfold dyad. simpl. destruct s; lra.
    + left. split; [reflexivity |]. simpl. rewrite E. reflexivity.
    + right. split; [reflexivity | assumption].
  - intros g Vg.
    destruct (no_float_between g m1 e1 Vg Hm1 Hn He1) as [Hlo | Hhi]; split; intros Hg;
      try lra.
    assert (Ev : v = dyad m1 e1) by lra. rewrite (Hexact Ev). lra.
  - intros El Ev. destruct (Hnear El) as [Nup Ndown].
    set (rem := m mod 2 ^ (e1 - e)) in *.
    assert (Em : m = m1 * 2 ^ (e1 - e) + rem).
    { unfold m1, rem. rewrite Z.mul_comm. apply Z.div_mod. lia. }
    assert (Evd : v = (dyad m1 e1 + dyad rem e)%R).
    { rewrite Ev, Edown, <- dyad_add, <- Em. reflexivity. }
    assert (Ew : (dyad (m1 + 1) e1 - dyad m1 e1 = dyad (2 ^ (e1 - e)) e)%R).
    { rewrite Eup, Edown. unfold Rminus. rewrite <- dyad_opp, <- dyad_add. f_equal. ring. }
    assert (Hup' : m2 = m1 + 1 -> (dyad (2 ^ (e1 - e)) e <= 2 * dyad rem e)%R).
    { intros E2. specialize (Nup E2). apply IZR_le in Nup.
      rewrite mult_IZR in Nup. unfold dyad. pose proof (bpow_gt_0 e). nra. }
    assert (Hdown' : m2 = m1 -> (2 * dyad rem e <= dyad (2 ^ (e1 - e)) e)%R).
    { intros E2. specialize (Ndown E2). apply IZR_le in Ndown.
      rewrite mult_IZR in Ndown. unfold dyad. pose proof (bpow_gt_0 e). nra. }
    split.
    + intros g Vg.
      destruct (no_float_between g m1 e1 Vg Hm1 Hn He1) as [Hlo | Hhi];
        destruct Hm2 as [E2 | E2]; rewrite E2;
        try specialize (Hup' E2); try specialize (Hdown' E2);
        unfold Rabs; repeat destruct Rcase_abs; lra.
    + intros Fr.
      assert (Htop : (dyad (m1 + 1) e1 <= bpow 1024)%R).
      { destruct Hr as [[_ E0] | [(m3 & e3 & _ & _ & Hle) | [Einf _]]].
        - assert (Ez : m1 + 1 = 2 ^ 0) by (simpl; lia).
          destruct Hn as [En | En]; [| lia].
          rewrite Ez, dyad_pow by lia. apply bpow_le. lia.
        - apply Rle_trans with (dyad (2 ^ 53) e1); [apply dyad_le; lia |].
          rewrite dyad_pow by lia. apply bpow_le. lia.
        - rewrite Einf in Fr. discriminate. }
      destruct Hm2 as [E2 | E2]; rewrite E2;
        try specialize (Hup' E2); try specialize (Hdown' E2);
        unfold Rabs; repeat destruct Rcase_abs; lra.
Qed.

Lemma SFopp_valid g : valid_binary (SFopp g) = valid_binary g.
Proof. destruct g; reflexivity. Qed.

Lemma SFopp_value g : SF2R (SFopp g) = (- SF2R g)%R.
Proof. destruct g as [| | | [] m e]; simpl; lra. Qed.

(** The same, read on the order of binary64 numbers. *)
Lemma round_aux_bracket s m e l v g :
  0 <= m -> e <= fexp64 (Zdigits2 m + e) ->
  (dyad m e <= v < dyad (m + 1) e)%R -> (v = dyad m e -> l = loc_Exact) ->
  let r := binary_round_aux prec emax s m e l in
  let sv := (if s then - v else v)%R in
  valid_binary r = true -> valid_binary g = true -> SFfin g = true ->
  ((SF2R g <= sv)%R -> SFleb g r = true) /\
  ((sv <= SF2R g)%R -> SFleb r g = true).
Proof.
  intros Hm He Hv Hl r sv Vr Vg Fg.
  destruct (round_aux_value s m e l v Hm He Hv Hl) as (rv & Hr & Hrv & Hg & _).
  fold r in Hr.
  pose proof (Hg g Vg) as [Hlo Hhi].
  pose proof (Hg (SFopp g)) as [Hlo' Hhi']; [rewrite SFopp_valid; assumption |].
  rewrite SFopp_value in Hlo', Hhi'.
  pose proof (valid_lt_bpow g Vg) as Hbound.
  apply Rabs_def2 in Hbound.
  destruct Hr as [[Fr Er] | [Er Hbig]].
  - rewrite !SFleb_spec by assumption. rewrite Er. unfold sv.
    destruct s; split; intros; lra.
  - rewrite Er. unfold sv.
    destruct s; destruct g as [sg | sg | | sg mg eg]; try discriminate;
      (split; intros; [try reflexivity | try reflexivity]); exfalso; simpl in *; try lra.
    all: destruct sg; simpl in *; lra.
Qed.


(** ** The operations of the format *)

(** A result that is exact is bracketed by the order of its value. *)
Lemma exact_bracket r v g :
  valid_binary r = true -> SFfin r = true -> SF2R r = v ->
  valid_binary g = true -> SFfin g = true ->
  ((SF2R g <= v)%R -> SFleb g r = true) /\ ((v <= SF2R g)%R -> SFleb r g = true).
Proof.
  intros Vr Fr <- Vg Fg. rewrite !SFleb_spec by assumption. split; auto.
Qed.

Lemma SF2R_finite s m e :
  SF2R (S754_finite s m e) = dyad (cond_Zopp s (Z.pos m)) e.
Proof. destruct s; unfold cond_Zopp; [rewrite dyad_opp |]; reflexivity. Qed.

Lemma SFmul_bracket x y g :
  valid_binary x = true -> valid_binary y = true ->
  SFfin x = true -> SFfin y = true ->
  valid_binary (SF64mul x y) = true -> valid_binary g = true -> SFfin g = true ->
  ((SF2R g <= SF2R x * SF2R y)%R -> SFleb g (SF64mul x y) = true) /\
  ((SF2R x * SF2R y <= SF2R g)%R -> SFleb (SF64mul x y) g = true).
Proof.
  intros Vx Vy Fx Fy Vr Vg Fg.
  destruct x as [sx | sx | | sx mx ex]; try discriminate;
  destruct y as [sy | sy | | sy my ey]; try discriminate;
    try (apply exact_bracket; try assumption; try reflexivity; simpl; ring).
  unfold SF64mul, SFmul in *.
  set (v := dyad (Z.pos (mx * my)) (ex + ey)).
  replace (SF2R (S754_finite sx mx ex) * SF2R (S754_finite sy my ey))%R
    with (if xorb sx sy then (- v)%R else v).
  2:{ unfold v, dyad. rewrite Pos2Z.inj_mul, mult_IZR, bpow_add.
      destruct sx, sy; simpl; unfold dyad; ring. }
  apply round_aux_bracket; try assumption; try lia.
  - apply valid_finite_bounds in Vx, Vy.
    destruct Vx as (Ex & Mx & Nx), Vy as (Ey & My & Ny).
    rewrite fexp64_eq. simpl Zdigits2.
    destruct Nx as [-> | Nx]; [destruct Ny as [-> | Ny]; [lia |] |].
    + assert (2 ^ 52 <= Z.pos (mx * my)) by (rewrite Pos2Z.inj_mul; nia).
      pose proof (digits2_pos_ge (mx * my) 52). lia.
    + assert (2 ^ 52 <= Z.pos (mx * my)) by (rewrite Pos2Z.inj_mul; nia).
      pose proof (digits2_pos_ge (mx * my) 52). lia.
  - fold v. split; [lra | apply dyad_lt; lia].
  - reflexivity.
Qed.

(** Rounding to nearest is monotone. *)
Lemma round_aux_mono m e m' e' :
  0 <= m -> e <= fexp64 (Zdigits2 m + e) ->
  0 <= m' -> e' <= fexp64 (Zdigits2 m' + e') ->
  (dyad m e < dyad m' e')%R ->
  let r := binary_round_aux prec emax false m e loc_Exact in
  let r' := binary_round_aux prec emax false m' e' loc_Exact in
  valid_binary r = true -> valid_binary r' = true ->
  SFleb r r' = true.
Proof.
  intros Hm He Hm' He' Hlt r r' Vr Vr'.
  destruct (round_aux_value false m e loc_Exact (dyad m e) Hm He)
    as (rv & Hr & Hrv & Hg & Hn);
    [split; [lra | apply dyad_lt; lia] | reflexivity |].
  destruct (round_aux_value false m' e' loc_Exact (dyad m' e') Hm' He')
    as (rv' & Hr' & Hrv' & Hg' & Hn');
    [split; [lra | apply dyad_lt; lia] | reflexivity |].
  fold r in Hr, Hn. fold r' in Hr', Hn'. clearbody r r'.
  destruct (Hn eq_refl eq_refl) as [Hnear Htop].
  destruct (Hn' eq_refl eq_refl) as [Hnear' Htop'].
  set (v := dyad m e) in *. set (v' := dyad m' e') in *.
  destruct Hr as [[Fr Er] | [Er Hbig]]; destruct Hr' as [[Fr' Er'] | [Er' Hbig']].
  - apply SFleb_spec; auto. rewrite Er, Er'.
    destruct (Rle_or_lt rv rv') as [| Hc]; [assumption | exfalso].
    pose proof (Hg' r Vr) as [A _]. pose proof (Hg r' Vr') as [_ B].
    pose proof (Hnear r' Vr') as N1. pose proof (Hnear' r Vr) as N2.
    rewrite Er in A, N2. rewrite Er' in B, N1.
    assert (v' < rv)%R by (destruct (Rle_or_lt rv v'); [lra | assumption]).
    assert (rv' < v)%R by (destruct (Rle_or_lt v rv'); [lra | assumption]).
    unfold Rabs in N1, N2. repeat destruct Rcase_abs; lra.
  - rewrite Er'. destruct r as [s | s | | s mr er]; try discriminate; reflexivity.
  - exfalso.
    pose proof (valid_lt_bpow r' Vr') as Hb. rewrite Er' in Hb.
    rewrite Rabs_pos_eq in Hb by assumption.
    pose proof (Hg r' Vr') as [_ B]. rewrite Er' in B.
    pose proof (Hnear r' Vr') as N1. rewrite Er' in N1.
    specialize (Htop' Fr').
    assert (rv' < v)%R by (destruct (Rle_or_lt v rv'); [lra | assumption]).
    unfold Rabs in N1, Htop'. repeat destruct Rcase_abs; lra.
  - rewrite Er, Er'. reflexivity.
Qed.

Lemma SFleb_refl r : r <> S754_nan -> SFleb r r = true.
Proof.
  unfold SFleb. destruct r as [s | s | | s m e]; simpl; try congruence.
  - destruct s; reflexivity.
  - intros _. rewrite Z.compare_refl.
    change (Pos.compare_cont Eq m m) with (Pos.compare m m).
    rewrite Pos.compare_refl. destruct s; reflexivity.
Qed.

Lemma round_aux_not_nan s m e l :
  0 <= m -> e <= fexp64 (Zdigits2 m + e) ->
  binary_round_aux prec emax s m e l <> S754_nan.
Proof.
  intros Hm He.
  destruct (round_aux_spec s m e l Hm He) as (m2 & _ & _ & _ & _ & _ & Hr & _).
  destruct Hr as [[-> _] | [(m3 & e3 & -> & _) | [-> _]]]; discriminate.
Qed.

Lemma SFmul_exponent_ok mx ex my ey :
  valid_binary (S754_finite false mx ex) = true ->
  valid_binary (S754_finite false my ey) = true ->
  ex + ey <= fexp64 (Zdigits2 (Z.pos (mx * my)) + (ex + ey)).
Proof.
  intros Vx Vy. apply valid_finite_bounds in Vx, Vy.
  destruct Vx as (Ex & Mx & Nx), Vy as (Ey & My & Ny).
  rewrite fexp64_eq. simpl Zdigits2.
  destruct Nx as [-> | Nx]; [destruct Ny as [-> | Ny]; [lia |] |].
  - assert (2 ^ 52 <= Z.pos (mx * my)) by (rewrite Pos2Z.inj_mul; nia).
    pose proof (digits2_pos_ge (mx * my) 52). lia.
  - assert (2 ^ 52 <= Z.pos (mx * my)) by (rewrite Pos2Z.inj_mul; nia).
    pose proof (digits2_pos_ge (mx * my) 52). lia.
Qed.

(** Multiplication by a positive number keeps the order of positive
    numbers. *)
Lemma SFmul_mono mx ex my ey mt et :
  let x := S754_finite false mx ex in
  let y := S754_finite false my ey in
  let t := S754_finite false mt et in
  valid_binary x = true -> valid_binary y = true -> valid_binary t = true ->
  valid_binary (SF64mul x t) = true -> valid_binary (SF64mul y t) = true ->
  (SF2R x <= SF2R y)%R -> SFleb (SF64mul x t) (SF64mul y t) = true.
Proof.
  intros x y t Vx Vy Vt Vxt Vyt Hxy.
  pose proof (SFmul_exponent_ok mx ex mt et Vx Vt) as Hex.
  pose proof (SFmul_exponent_ok my ey mt et Vy Vt) as Hey.
  pose proof (dyad_pos mx ex) as Px. pose proof (dyad_pos mt et) as Pt.
  destruct (Req_dec (SF2R x) (SF2R y)) as [Heq | Hne].
  - assert (E : x = y) by (apply SF2R_inj; auto; simpl; lra).
    rewrite <- E. apply SFleb_refl.
    unfold SF64mul, SFmul, x, t. cbn [xorb]. apply round_aux_not_nan; [lia | assumption].
  - unfold SF64mul, SFmul, x, y, t in *. cbn [xorb] in *.
    apply round_aux_mono; try assumption; try lia.
    simpl SF2R in Hxy, Hne. unfold dyad in *.
    rewrite !Pos2Z.inj_mul, !mult_IZR, !bpow_add.
    pose proof (bpow_gt_0 et). assert (0 < IZR (Z.pos mt))%R by (apply IZR_lt; lia).
    assert (IZR (Z.pos mx) * bpow ex < IZR (Z.pos my) * bpow ey)%R by lra.
    nra.
Qed.

(** Alignment of a mantissa on a lower exponent. *)
Lemma iter_xO_value p d : Z.pos (Pos.iter xO p d) = Z.pos p * 2 ^ Z.pos d.
Proof.
  induction d as [| d IH] using Pos.peano_ind.
  - simpl Pos.iter. lia.
  - rewrite Pos.iter_succ, Pos2Z.inj_xO, IH, Pos2Z.inj_succ, Z.pow_succ_r by lia. ring.
Qed.

Lemma iter_xO_digits p d : digits2_pos (Pos.iter xO p d) = (digits2_pos p + d)%positive.
Proof.
  induction d as [| d IH] using Pos.peano_ind.
  - simpl. lia.
  - rewrite Pos.iter_succ. simpl. rewrite IH. lia.
Qed.

Lemma shl_align_spec p e e' :
  let pe := shl_align p e e' in
  dyad (Z.pos (fst pe)) (snd pe) = dyad (Z.pos p) e /\
  snd pe = Z.min e e' /\
  Z.pos (digits2_pos (fst pe)) + snd pe = Z.pos (digits2_pos p) + e.
Proof.
  unfold shl_align. destruct (e' - e) as [| d | d] eqn:E; cbn [fst snd];
    try (repeat split; lia).
  rewrite iter_xO_value, iter_xO_digits, dyad_shift by lia.
  repeat split; try lia. f_equal. lia.
Qed.

Lemma binary_round_bracket s p e g :
  let r := binary_round prec emax s p e in
  let sv := dyad (cond_Zopp s (Z.pos p)) e in
  valid_binary r = true -> valid_binary g = true -> SFfin g = true ->
  ((SF2R g <= sv)%R -> SFleb g r = true) /\ ((sv <= SF2R g)%R -> SFleb r g = true).
Proof.
  intros r sv. unfold r, sv, binary_round.
  destruct (shl_align_spec p e (fexp64 (Z.pos (digits2_pos p) + e))) as (Ev & Ee & Ed).
  destruct (shl_align p e (fexp64 (Z.pos (digits2_pos p) + e))) as [pz ez].
  simpl fst in *; simpl snd in *.
  intros Vr Vg Fg.
  replace (dyad (cond_Zopp s (Z.pos p)) e)
    with (if s then (- dyad (Z.pos pz) ez)%R else dyad (Z.pos pz) ez).
  2:{ rewrite Ev. destruct s; unfold cond_Zopp; [rewrite dyad_opp |]; reflexivity. }
  apply round_aux_bracket; try assumption; try lia.
  - simpl Zdigits2. rewrite Ed. lia.
  - split; [lra | apply dyad_lt; lia].
  - reflexivity.
Qed.

Lemma binary_normalize_bracket m e g :
  let r := binary_normalize prec emax m e false in
  valid_binary r = true -> valid_binary g = true -> SFfin g = true ->
  ((SF2R g <= dyad m e)%R -> SFleb g r = true) /\
  ((dyad m e <= SF2R g)%R -> SFleb r g = true).
Proof.
  destruct m as [| p | p]; simpl; intros Vr Vg Fg.
  - apply exact_bracket; try assumption; try reflexivity. simpl. rewrite dyad_0. reflexivity.
  - apply (binary_round_bracket false p e g); assumption.
  - apply (binary_round_bracket true p e g); assumption.
Qed.

Lemma shl_align_min p e e' :
  dyad (Z.pos (fst (shl_align p e (Z.min e e')))) (Z.min e e') = dyad (Z.pos p) e.
Proof.
  destruct (shl_align_spec p e (Z.min e e')) as (Ev & Ee & _).
  rewrite <- Ev. f_equal. lia.
Qed.

Lemma aligned_value s p e e' :
  dyad (cond_Zopp s (Z.pos (fst (shl_align p e (Z.min e e'))))) (Z.min e e')
  = dyad (cond_Zopp s (Z.pos p)) e.
Proof.
  destruct s; unfold cond_Zopp; rewrite ?dyad_opp, shl_align_min; reflexivity.
Qed.

Lemma SFadd_bracket x y g :
  valid_binary x = true -> valid_binary y = true ->
  SFfin x = true -> SFfin y = true ->
  valid_binary (SF64add x y) = true -> valid_binary g = true -> SFfin g = true ->
  ((SF2R g <= SF2R x + SF2R y)%R -> SFleb g (SF64add x y) = true) /\
  ((SF2R x + SF2R y <= SF2R g)%R -> SFleb (SF64add x y) g = true).
Proof.
  intros Vx Vy Fx Fy Vr Vg Fg.
  destruct x as [sx | sx | | sx mx ex]; try discriminate;
  destruct y as [sy | sy | | sy my ey]; try discriminate.
  - apply exact_bracket; try assumption; destruct sx, sy; try reflexivity; simpl; ring.
  - apply exact_bracket; try assumption; try reflexivity. simpl. ring.
  - apply exact_bracket; try assumption; try reflexivity. simpl. ring.
  - unfold SF64add, SFadd in *.
    match goal with |- context [binary_normalize _ _ ?M ?E false] =>
      replace (SF2R (S754_finite sx mx ex) + SF2R (S754_finite sy my ey))%R
        with (dyad M E) end.
    + apply binary_normalize_bracket; assumption.
    + rewrite dyad_add, !SF2R_finite, aligned_value.
      rewrite (Z.min_comm ex ey), aligned_value. reflexivity.
Qed.

Lemma SFsub_bracket x y g :
  valid_binary x = true -> valid_binary y = true ->
  SFfin x = true -> SFfin y = true ->
  valid_binary (SF64sub x y) = true -> valid_binary g = true -> SFfin g = true ->
  ((SF2R g <= SF2R x - SF2R y)%R -> SFleb g (SF64sub x y) = true) /\
  ((SF2R x - SF2R y <= SF2R g)%R -> SFleb (SF64sub x y) g = true).
Proof.
  intros Vx Vy Fx Fy Vr Vg Fg.
  destruct x as [sx | sx | | sx mx ex]; try discriminate;
  destruct y as [sy | sy | | sy my ey]; try discriminate.
  - apply exact_bracket; try assumption; destruct sx, sy; try reflexivity; simpl; ring.
  - apply exact_bracket; try assumption; try reflexivity.
    destruct sy; simpl; ring.
  - apply exact_bracket; try assumption; try reflexivity. simpl. ring.
  - unfold SF64sub, SFsub in *.
    match goal with |- context [binary_normalize _ _ ?M ?E false] =>
      replace (SF2R (S754_finite sx mx ex) - SF2R (S754_finite sy my ey))%R
        with (dyad M E) end.
    + apply binary_normalize_bracket; assumption.
    + unfold Z.sub at 1. rewrite dyad_add, dyad_opp, !SF2R_finite, aligned_value.
      rewrite (Z.min_comm ex ey), aligned_value. reflexivity.
Qed.


Lemma new_location_exact n : new_location n 0 = loc_Exact.
Proof.
  unfold new_location, new_location_even, new_location_odd.
  destruct (Z.even n); reflexivity.
Qed.

(** The quotient and the location that the division hands to the rounding. *)
Lemma SFdiv_core_spec mx ex my ey :
  let v := (dyad (Z.pos mx) ex / dyad (Z.pos my) ey)%R in
  exists q e l,
    SFdiv_core_binary prec emax (Z.pos mx) ex (Z.pos my) ey = (q, e, l) /\
    0 <= q /\ e <= fexp64 (Zdigits2 q + e) /\
    (dyad q e <= v < dyad (q + 1) e)%R /\ (v = dyad q e -> l = loc_Exact).
Proof.
  intros v. unfold SFdiv_core_binary.
  set (d1 := Zdigits2 (Z.pos mx)). set (d2 := Zdigits2 (Z.pos my)).
  set (e := Z.min (fexp64 (d1 + ex - (d2 + ey))) (ex - ey)).
  set (sh := ex - ey - e).
  assert (Hsh : 0 <= sh) by (unfold sh, e; lia).
  set (m' := match sh with Z.pos _ => Z.shiftl (Z.pos mx) sh | 0 => Z.pos mx | Z.neg _ => 0 end).
  assert (Em' : m' = Z.pos mx * 2 ^ sh).
  { unfold m'. destruct sh as [| p | p] eqn:E; try lia.
    apply Z.shiftl_mul_pow2. lia. }
  pose proof (Z.div_eucl_eq m' (Z.pos my) ltac:(lia)) as Heq.
  pose proof (Z.mod_pos_bound m' (Z.pos my) ltac:(lia)) as Hrem.
  unfold Z.modulo in Hrem.
  destruct (Z.div_eucl m' (Z.pos my)) as [q r] eqn:Ediv.
  assert (Hpow : 0 < 2 ^ sh) by (apply Z.pow_pos_nonneg; lia).
  assert (Hq : 0 <= q) by nia.
  exists q, e, (new_location (Z.pos my) r). split; [reflexivity |].
  pose proof (digits2_pos_bounds mx) as [Hx1 Hx2].
  pose proof (digits2_pos_bounds my) as [Hy1 Hy2].
  fold (Zdigits2 (Z.pos mx)) in Hx1, Hx2. fold (Zdigits2 (Z.pos my)) in Hy1, Hy2.
  fold d1 in Hx1, Hx2. fold d2 in Hy1, Hy2.
  assert (Hd1 : 0 < d1) by (unfold d1; simpl; lia).
  assert (Hd2 : 0 < d2) by (unfold d2; simpl; lia).
  assert (Ev : v = (IZR m' / IZR (Z.pos my) * bpow e)%R).
  { unfold v, dyad. rewrite Em', mult_IZR, <- bpow_nonneg_exp by assumption.
    replace ex with (e + sh + ey) by (unfold sh; ring).
    rewrite !bpow_add.
    pose proof (bpow_gt_0 ey). assert (0 < IZR (Z.pos my))%R by (apply IZR_lt; lia).
    field. lra. }
  assert (Hmy : (0 < IZR (Z.pos my))%R) by (apply IZR_lt; lia).
  pose proof (bpow_gt_0 e) as Hbe.
  assert (Hquot : (IZR q <= IZR m' / IZR (Z.pos my) < IZR (q + 1))%R).
  { split.
    - apply Rmult_le_reg_r with (IZR (Z.pos my)); [assumption |].
      unfold Rdiv. rewrite Rmult_assoc, Rinv_l, Rmult_1_r by lra.
      rewrite <- mult_IZR. apply IZR_le. nia.
    - apply Rmult_lt_reg_r with (IZR (Z.pos my)); [assumption |].
      unfold Rdiv. rewrite Rmult_assoc, Rinv_l, Rmult_1_r by lra.
      rewrite <- mult_IZR. apply IZR_lt. nia. }
  repeat split; try assumption.
  - (* the quotient has enough digits for the target exponent *)
    rewrite fexp64_eq.
    destruct (Z_le_gt_dec e (-1074)) as [| Hgt]; [lia |].
    assert (Hbig : 2 ^ 52 * Z.pos my <= m').
    { rewrite Em'.
      assert (d2 + 53 <= d1 + sh).
      { unfold sh, e in *. rewrite fexp64_eq in *. lia. }
      assert (2 ^ (d2 + 52) <= 2 ^ (d1 - 1 + sh)).
      { apply Z.pow_le_mono_r; lia. }
      rewrite !Z.pow_add_r in * by lia. nia. }
    assert (2 ^ 52 <= q) by nia.
    destruct q as [| pq | pq]; try lia.
    pose proof (digits2_pos_ge pq 52). simpl Zdigits2. lia.
  - rewrite Ev. unfold dyad. nra.
  - rewrite Ev. unfold dyad. nra.
  - intros Eq. rewrite Ev in Eq. unfold dyad in Eq.
    assert (Er : r = 0).
    { assert (E1 : (IZR m' / IZR (Z.pos my))%R = IZR q) by nra.
      assert (E2 : IZR m' = IZR (q * Z.pos my)).
      { rewrite mult_IZR, <- E1. field. lra. }
      apply eq_IZR in E2. lia. }
    rewrite Er. apply new_location_exact.
Qed.

Lemma SFdiv_bracket x sy my ey g :
  let y := S754_finite sy my ey in
  valid_binary x = true -> SFfin x = true ->
  valid_binary (SF64div x y) = true -> valid_binary g = true -> SFfin g = true ->
  ((SF2R g <= SF2R x / SF2R y)%R -> SFleb g (SF64div x y) = true) /\
  ((SF2R x / SF2R y <= SF2R g)%R -> SFleb (SF64div x y) g = true).
Proof.
  intros y Vx Fx Vr Vg Fg. unfold y in *.
  destruct x as [sx | sx | | sx mx ex]; try discriminate.
  - apply exact_bracket; try assumption; try reflexivity. simpl. unfold Rdiv. ring.
  - unfold SF64div, SFdiv in *.
    destruct (SFdiv_core_spec mx ex my ey) as (q & e & l & Ecore & Hq & He & Hv & Hl).
    rewrite Ecore in *.
    set (v := (dyad (Z.pos mx) ex / dyad (Z.pos my) ey)%R) in *.
    replace (SF2R (S754_finite sx mx ex) / SF2R (S754_finite sy my ey))%R
      with (if xorb sx sy then (- v)%R else v).
    + apply round_aux_bracket; assumption.
    + pose proof (dyad_pos my ey).
      unfold v. destruct sx, sy; simpl; field; lra.
Qed.


(** Comparison is antisymmetric on all values. *)
Lemma SFcompare_antisym x y :
  SFcompare y x = option_map CompOpp (SFcompare x y).
Proof.
  destruct x as [sx | sx | | sx mx ex], y as [sy | sy | | sy my ey]; simpl;
    try reflexivity; try (destruct sx; reflexivity); try (destruct sy; reflexivity);
    try (destruct sx, sy; reflexivity).
  destruct sx, sy; try reflexivity; f_equal;
    rewrite (Z.compare_antisym ex ey);
    change (Pos.compare_cont Eq my mx) with (Pos.compare my mx);
    change (Pos.compare_cont Eq mx my) with (Pos.compare mx my);
    rewrite (Pos.compare_antisym mx my);
    destruct (ex ?= ey); simpl; try reflexivity;
    destruct (mx ?= my)%positive; reflexivity.
Qed.

(** ** Primitive floats *)

Local Open Scope float_scope.

Definition F2R (x : float) : R := SF2R (Prim2SF x).
Definition finite (x : float) : bool := SFfin (Prim2SF x).

Lemma leb_finite x y :
  finite x = true -> finite y = true ->
  ((x <=? y) = true <-> (F2R x <= F2R y)%R).
Proof.
  intros Fx Fy. rewrite leb_spec. apply SFleb_spec; auto using Prim2SF_valid.
Qed.

Lemma ltb_finite x y :
  finite x = true -> finite y = true ->
  ((x <? y) = true <-> (F2R x < F2R y)%R).
Proof.
  intros Fx Fy. rewrite ltb_spec. apply SFltb_spec; auto using Prim2SF_valid.
Qed.

Lemma ltb_leb x y : (x <? y) = true -> (x <=? y) = true.
Proof.
  rewrite ltb_spec, leb_spec. unfold SFltb, SFleb.
  destruct (SFcompare (Prim2SF x) (Prim2SF y)) as [[] |]; auto.
Qed.

Lemma leb_not_ltb x y : (x <=? y) = true -> (y <? x) = false.
Proof.
  rewrite ltb_spec, leb_spec. unfold SFltb, SFleb.
  rewrite (SFcompare_antisym (Prim2SF x) (Prim2SF y)).
  destruct (SFcompare (Prim2SF x) (Prim2SF y)) as [[] |]; simpl; auto; discriminate.
Qed.

(** On two numbers that are not NaN, the order is total. *)
Lemma not_leb_ltb x y :
  (x <=? y) = false -> (x <=? x) = true -> (y <=? y) = true -> (y <? x) = true.
Proof.
  rewrite ltb_spec, !leb_spec. unfold SFltb, SFleb.
  rewrite (SFcompare_antisym (Prim2SF x) (Prim2SF y)).
  destruct (Prim2SF x) as [sx | sx | | sx mx ex], (Prim2SF y) as [sy | sy | | sy my ey];
    simpl; try discriminate; auto.
  all: try (destruct sx; simpl; auto; discriminate).
  all: try (destruct sy; simpl; auto; discriminate).
  all: try (destruct sx, sy; simpl; auto; discriminate).
  destruct sx, sy; simpl; auto; try discriminate;
    destruct (ex ?= ey)%Z; simpl; auto; try discriminate;
    destruct (Pos.compare_cont Eq mx my); simpl; auto; discriminate.
Qed.

Lemma leb_refl_l x y : (x <=? y) = true -> (x <=? x) = true.
Proof.
  rewrite !leb_spec. unfold SFleb.
  destruct (Prim2SF x) as [sx | sx | | sx mx ex], (Prim2SF y) as [sy | sy | | sy my ey];
    simpl; try discriminate; auto.
  all: try (destruct sx; reflexivity).
  all: destruct sx; rewrite Z.compare_refl;
    change (Pos.compare_cont Eq mx mx) with (Pos.compare mx mx);
    rewrite Pos.compare_refl; reflexivity.
Qed.

Lemma leb_refl_r x y : (x <=? y) = true -> (y <=? y) = true.
Proof.
  rewrite !leb_spec. unfold SFleb.
  destruct (Prim2SF x) as [sx | sx | | sx mx ex], (Prim2SF y) as [sy | sy | | sy my ey];
    simpl; try discriminate; auto.
  all: try (destruct sy; reflexivity).
  all: destruct sy; rewrite Z.compare_refl;
    change (Pos.compare_cont Eq my my) with (Pos.compare my my);
    rewrite Pos.compare_refl; reflexivity.
Qed.

(** A number between two finite numbers is finite. *)
Lemma between_finite a x b :
  finite a = true -> finite b = true ->
  (a <=? x) = true -> (x <=? b) = true ->
  finite x = true /\ (F2R a <= F2R x <= F2R b)%R.
Proof.
  intros Fa Fb Hax Hxb.
  assert (Fx : finite x = true).
  { revert Hax Hxb. rewrite !leb_spec. unfold finite, SFleb in *.
    destruct (Prim2SF a) as [sa | sa | | sa ma ea]; try discriminate;
    destruct (Prim2SF b) as [sb | sb | | sb mb eb]; try discriminate;
    destruct (Prim2SF x) as [sx | [] | | sx mx ex]; simpl; auto; try discriminate;
    try (destruct sa; discriminate); try (destruct sb; discriminate). }
  split; [assumption |].
  apply leb_finite in Hax, Hxb; auto.
Qed.

(** The bracket of each operation on finite arguments. *)
Lemma mul_bracket x y g :
  finite x = true -> finite y = true -> finite g = true ->
  ((F2R g <= F2R x * F2R y)%R -> (g <=? x * y) = true) /\
  ((F2R x * F2R y <= F2R g)%R -> (x * y <=? g) = true).
Proof.
  intros Fx Fy Fg. rewrite !leb_spec, mul_spec.
  apply SFmul_bracket; auto using Prim2SF_valid.
  rewrite <- mul_spec. apply Prim2SF_valid.
Qed.

Lemma add_bracket x y g :
  finite x = true -> finite y = true -> finite g = true ->
  ((F2R g <= F2R x + F2R y)%R -> (g <=? x + y) = true) /\
  ((F2R x + F2R y <= F2R g)%R -> (x + y <=? g) = true).
Proof.
  intros Fx Fy Fg. rewrite !leb_spec, add_spec.
  apply SFadd_bracket; auto using Prim2SF_valid.
  rewrite <- add_spec. apply Prim2SF_valid.
Qed.

Lemma sub_bracket x y g :
  finite x = true -> finite y = true -> finite g = true ->
  ((F2R g <= F2R x - F2R y)%R -> (g <=? x - y) = true) /\
  ((F2R x - F2R y <= F2R g)%R -> (x - y <=? g) = true).
Proof.
  intros Fx Fy Fg. rewrite !leb_spec, sub_spec.
  apply SFsub_bracket; auto using Prim2SF_valid.
  rewrite <- sub_spec. apply Prim2SF_valid.
Qed.

Lemma div_bracket x y g :
  finite x = true -> finite y = true -> F2R y <> 0%R -> finite g = true ->
  ((F2R g <= F2R x / F2R y)%R -> (g <=? x / y) = true) /\
  ((F2R x / F2R y <= F2R g)%R -> (x / y <=? g) = true).
Proof.
  intros Fx Fy Hy Fg. rewrite !leb_spec, div_spec.
  pose proof (Prim2SF_valid (x / y)) as Vr. rewrite div_spec in Vr.
  unfold F2R, finite in *.
  destruct (Prim2SF y) as [sy | sy | | sy my ey]; try discriminate.
  - exfalso. apply Hy. reflexivity.
  - apply SFdiv_bracket; auto using Prim2SF_valid.
Qed.


(** The cases of a number compared with a finite one. *)
Lemma le_finite_cases x c :
  finite c = true -> (x <=? c) = true ->
  (finite x = true /\ (F2R x <= F2R c)%R) \/ Prim2SF x = S754_infinity true.
Proof.
  intros Fc H. destruct (finite x) eqn:Fx.
  - left. split; [reflexivity |]. apply leb_finite in H; auto.
  - right. revert H. rewrite leb_spec. unfold finite, SFleb in *.
    destruct (Prim2SF c) as [sc | sc | | sc mc ec]; try discriminate;
    destruct (Prim2SF x) as [sx | [] | | sx mx ex]; simpl; auto; discriminate.
Qed.

Lemma ge_finite_cases x c :
  finite c = true -> (c <=? x) = true ->
  (finite x = true /\ (F2R c <= F2R x)%R) \/ Prim2SF x = S754_infinity false.
Proof.
  intros Fc H. destruct (finite x) eqn:Fx.
  - left. split; [reflexivity |]. apply leb_finite in H; auto.
  - right. revert H. rewrite leb_spec. unfold finite, SFleb in *.
    destruct (Prim2SF c) as [sc | sc | | sc mc ec]; try discriminate;
    destruct (Prim2SF x) as [sx | [] | | sx mx ex]; simpl; auto; try discriminate;
    destruct sc; discriminate.
Qed.

Lemma finite_0 : finite 0 = true.
Proof. reflexivity. Qed.

Lemma F2R_0 : F2R 0 = 0%R.
Proof. reflexivity. Qed.

Lemma leb_pinf c x :
  finite c = true -> Prim2SF x = S754_infinity false -> (c <=? x) = true.
Proof.
  intros Fc Hx. rewrite leb_spec, Hx. unfold finite in Fc.
  destruct (Prim2SF c) as [sc | sc | | sc mc ec]; try discriminate; reflexivity.
Qed.

Lemma leb_ninf x c :
  finite c = true -> Prim2SF x = S754_infinity true -> (x <=? c) = true.
Proof.
  intros Fc Hx. rewrite leb_spec, Hx. unfold finite in Fc.
  destruct (Prim2SF c) as [sc | sc | | sc mc ec]; try discriminate; reflexivity.
Qed.

Lemma ltb_ninf x c :
  finite c = true -> Prim2SF x = S754_infinity true -> (x <? c) = true.
Proof.
  intros Fc Hx. rewrite ltb_spec, Hx. unfold finite in Fc.
  destruct (Prim2SF c) as [sc | sc | | sc mc ec]; try discriminate; reflexivity.
Qed.

(** A positive finite number has a positive finite representation. *)
Lemma finite_pos_repr x :
  finite x = true -> (0 < F2R x)%R -> exists m e, Prim2SF x = S754_finite false m e.
Proof.
  unfold finite, F2R. destruct (Prim2SF x) as [s | s | | s m e]; simpl; try discriminate; try lra.
  intros _ H. pose proof (dyad_pos m e). destruct s; [lra |]. eauto.
Qed.

(** A product of a positive number and a number that is not negative. *)
Lemma mul_pos_nonneg x y :
  finite x = true -> (0 < F2R x)%R -> (0 <=? y) = true -> (0 <=? x * y) = true.
Proof.
  intros Fx Hx Hy.
  destruct (ge_finite_cases y 0 finite_0 Hy) as [[Fy Hy0] | Hinf].
  - apply (mul_bracket x y 0); auto. rewrite F2R_0 in *. nra.
  - apply leb_pinf; [reflexivity |].
    destruct (finite_pos_repr x Fx Hx) as (m & e & Ex).
    rewrite mul_spec, Ex, Hinf. reflexivity.
Qed.

(** A sum of two numbers that are not negative. *)
Lemma add_nonneg x y :
  (0 <=? x) = true -> (0 <=? y) = true -> (0 <=? x + y) = true.
Proof.
  intros Hx Hy.
  destruct (ge_finite_cases x 0 finite_0 Hx) as [[Fx Hx0] | Xinf];
  destruct (ge_finite_cases y 0 finite_0 Hy) as [[Fy Hy0] | Yinf].
  - apply (add_bracket x y 0); auto. rewrite F2R_0 in *. lra.
  - apply leb_pinf; [reflexivity |]. rewrite add_spec, Yinf. unfold finite in Fx.
    destruct (Prim2SF x) as [s | s | | s m e]; try discriminate; reflexivity.
  - apply leb_pinf; [reflexivity |]. rewrite add_spec, Xinf. unfold finite in Fy.
    destruct (Prim2SF y) as [s | s | | s m e]; try discriminate; reflexivity.
  - apply leb_pinf; [reflexivity |]. rewrite add_spec, Xinf, Yinf. reflexivity.
Qed.

(** Taking away a number that is not negative keeps an upper bound. *)
Lemma sub_nonneg_le x y c :
  finite c = true -> (x <=? c) = true -> (0 <=? y) = true -> (x - y <=? c) = true.
Proof.
  intros Fc Hx Hy.
  destruct (le_finite_cases x c Fc Hx) as [[Fx Hxc] | Xinf];
  destruct (ge_finite_cases y 0 finite_0 Hy) as [[Fy Hy0] | Yinf].
  - apply (sub_bracket x y c); auto. rewrite F2R_0 in *. lra.
  - apply leb_ninf; [assumption |]. rewrite sub_spec, Yinf. unfold finite in Fx.
    destruct (Prim2SF x) as [s | s | | s m e]; try discriminate; reflexivity.
  - apply leb_ninf; [assumption |]. rewrite sub_spec, Xinf. unfold finite in Fy.
    destruct (Prim2SF y) as [s | s | | s m e]; try discriminate; reflexivity.
  - apply leb_ninf; [assumption |]. rewrite sub_spec, Xinf, Yinf. reflexivity.
Qed.

(** The value of a float literal, as a quotient of integers. *)
Lemma bpow_neg k : (0 < k)%Z -> bpow (- k) = (/ IZR (2 ^ k))%R.
Proof.
  intros Hk. unfold bpow. rewrite powerRZ_neg'. f_equal.
  apply (bpow_nonneg_exp k). lia.
Qed.

Lemma F2R_eval x s m e :
  Prim2SF x = S754_finite s m e ->
  F2R x = (IZR (cond_Zopp s (Z.pos m)) *
           (if (e <? 0)%Z then / IZR (2 ^ (- e)) else IZR (2 ^ e)))%R.
Proof.
  intros E. unfold F2R. rewrite E, SF2R_finite. unfold dyad. f_equal.
  destruct (e <? 0)%Z eqn:He.
  - apply Z.ltb_lt in He. rewrite <- bpow_neg by lia. f_equal. lia.
  - apply Z.ltb_ge in He. apply bpow_nonneg_exp. assumption.
Qed.

Ltac float_value_as c H :=
  let v := eval vm_compute in (Prim2SF c) in
  lazymatch v with
  | S754_finite ?s ?m ?e =>
    pose proof (F2R_eval c s m e ltac:(vm_compute; reflexivity)) as H;
    let z := eval vm_compute in (cond_Zopp s (Z.pos m)) in
    let b := eval vm_compute in (e <? 0)%Z in
    let p := eval vm_compute in (2 ^ (Z.abs e))%Z in
    lazymatch b with
    | true => change (F2R c = (IZR z * / IZR p)%R) in H
    | false => change (F2R c = (IZR z * IZR p)%R) in H
    end
  | S754_zero _ =>
    assert (H : F2R c = 0%R) by (vm_compute; reflexivity)
  end.

Tactic Notation "float_value" constr(c) "as" ident(H) := float_value_as c H.

Lemma F2R_inj x y :
  finite x = true -> finite y = true -> F2R x = F2R y -> F2R x <> 0%R -> x = y.
Proof.
  intros Fx Fy E Hx. apply Prim2SF_inj.
  apply SF2R_inj; auto using Prim2SF_valid.
Qed.

(** A finite number is not above the positive float [c], or it is at least
    the next multiple of the unit in the last place of [c]. *)
Lemma float_gap x c m e :
  Prim2SF c = S754_finite false m e ->
  (F2R x <= F2R c)%R \/ (dyad (Z.pos m + 1) e <= F2R x)%R.
Proof.
  intros Ec. pose proof (Prim2SF_valid c) as Vc. rewrite Ec in Vc.
  apply valid_finite_bounds in Vc. destruct Vc as (He & Hm & Hn).
  unfold F2R. rewrite Ec. simpl SF2R.
  apply no_float_between; auto using Prim2SF_valid; lia.
Qed.


Lemma valid_of_bounds s m e :
  (Z.pos m < 2 ^ 53)%Z -> (e = -1074 \/ 2 ^ 52 <= Z.pos m)%Z ->
  (-1074 <= e <= 971)%Z -> valid_binary (S754_finite s m e) = true.
Proof.
  intros Hm Hn He.
  unfold SpecFloat.valid_binary, SpecFloat.bounded, SpecFloat.canonical_mantissa.
  rewrite andb_true_iff, Z.eqb_eq, Z.leb_le, fexp64_eq.
  change (emax - prec)%Z with 971%Z. split; [| lia].
  pose proof (digits2_pos_le m 53 Hm ltac:(lia)).
  destruct Hn as [-> | Hn]; [lia |].
  pose proof (digits2_pos_ge m 52 Hn ltac:(lia)). lia.
Qed.

Lemma ltb_pinf x r :
  finite x = true -> Prim2SF r = S754_infinity false -> (x <? r) = true.
Proof.
  intros Fx Hr. rewrite ltb_spec, Hr. unfold finite in Fx.
  destruct (Prim2SF x) as [sx | sx | | sx mx ex]; try discriminate; reflexivity.
Qed.

Lemma ltb_leb_trans x g r :
  finite x = true -> finite g = true -> (F2R x < F2R g)%R ->
  (g <=? r) = true -> (x <? r) = true.
Proof.
  intros Fx Fg Hxg Hgr.
  destruct (ge_finite_cases r g Fg Hgr) as [[Fr Hr] | Hinf].
  - apply ltb_finite; auto. lra.
  - apply ltb_pinf; assumption.
Qed.

(** Adding a number that is not negative does not go down. *)
Lemma add_nonneg_ge x y :
  finite x = true -> (0 <=? y) = true -> (x <=? x + y) = true.
Proof.
  intros Fx Hy.
  destruct (ge_finite_cases y 0 finite_0 Hy) as [[Fy Hy0] | Yinf].
  - apply (add_bracket x y x); auto. rewrite F2R_0 in Hy0. lra.
  - apply leb_pinf; [assumption |]. rewrite add_spec, Yinf. unfold finite in Fx.
    destruct (Prim2SF x) as [s | s | | s m e]; try discriminate; reflexivity.
Qed.

(** The float that follows a positive float below 1024 is at most 2^-43
    above it. *)
Lemma next_float_below_1024 x :
  finite x = true -> (0 <= F2R x < 1024)%R ->
  exists g, finite g = true /\ (F2R x < F2R g <= F2R x + bpow (-43))%R.
Proof.
  intros Fx Hx. pose proof (Prim2SF_valid x) as Vx.
  pose proof (bpow_gt_0 (-43)) as Hu.
  unfold finite, F2R in *.
  destruct (Prim2SF x) as [s | s | | s m e] eqn:Ex; try discriminate.
  - exists 0x1p-43. split; [reflexivity |].
    replace (SF2R (Prim2SF 0x1p-43)) with (bpow (-43)).
    + simpl SF2R. lra.
    + change (Prim2SF 0x1p-43) with (S754_finite false 4503599627370496 (-95)).
      simpl SF2R. change 4503599627370496%Z with (2 ^ 52)%Z.
      rewrite dyad_pow by lia. reflexivity.
  - pose proof (dyad_pos m e) as Hpos. simpl SF2R in Hx.
    destruct s; [lra |].
    apply valid_finite_bounds in Vx. destruct Vx as (He & Hm & Hn).
    assert (He43 : (e <= -43)%Z).
    { destruct Hn as [-> | Hn]; [lia |].
      destruct (Z_le_gt_dec e (-43)) as [| Hgt]; [assumption | exfalso].
      assert (bpow 10 <= dyad (Z.pos m) e)%R.
      { apply Rle_trans with (dyad (2 ^ 52) e); [| apply dyad_le; assumption].
        rewrite dyad_pow by lia. apply bpow_le. lia. }
      rewrite (bpow_nonneg_exp 10) in H by lia.
      change (IZR (2 ^ 10)) with 1024%R in H. lra. }
    assert (Hnext : exists m' e', valid_binary (S754_finite false m' e') = true /\
                      dyad (Z.pos m') e' = dyad (Z.pos m + 1) e).
    { destruct (Z.eq_dec (Z.pos m + 1) (2 ^ 53)) as [Hc | Hc].
      - exists (2 ^ 52)%positive, (e + 1)%Z. split.
        + apply valid_of_bounds; [reflexivity | right; reflexivity | lia].
        + rewrite Hc. change (Z.pos (2 ^ 52)) with (2 ^ 52)%Z.
          rewrite !dyad_pow by lia. f_equal. lia.
      - exists (m + 1)%positive, e. split.
        + apply valid_of_bounds; rewrite ?Pos2Z.inj_add; lia.
        + rewrite Pos2Z.inj_add. reflexivity. }
    destruct Hnext as (m' & e' & Vg & Eg).
    exists (SF2Prim (S754_finite false m' e')).
    rewrite (Prim2SF_SF2Prim _ Vg). split; [reflexivity |].
    simpl SF2R. rewrite Eg, dyad_add.
    assert (dyad 1 e <= bpow (-43))%R.
    { unfold dyad. rewrite Rmult_1_l. apply bpow_le. assumption. }
    assert (0 < dyad 1 e)%R by (unfold dyad; pose proof (bpow_gt_0 e); lra).
    lra.
Qed.

(** Adding at least 2^-43 to a float of [0, 1024) goes strictly up. *)
Lemma add_increases x y :
  finite x = true -> (0 <= F2R x < 1024)%R -> (0x1p-43 <=? y) = true ->
  (x <? x + y) = true.
Proof.
  intros Fx Hx Hy.
  assert (Vu : F2R 0x1p-43 = bpow (-43)).
  { unfold F2R. change (Prim2SF 0x1p-43) with (S754_finite false 4503599627370496 (-95)).
    simpl SF2R. change 4503599627370496%Z with (2 ^ 52)%Z.
    rewrite dyad_pow by lia. reflexivity. }
  destruct (ge_finite_cases y 0x1p-43 eq_refl Hy) as [[Fy Hy0] | Yinf].
  - destruct (next_float_below_1024 x Fx Hx) as (g & Fg & Hg).
    apply (ltb_leb_trans x g); auto; [lra |].
    apply (add_bracket x y g); auto. lra.
  - apply ltb_pinf; [assumption |]. rewrite add_spec, Yinf. unfold finite in Fx.
    destruct (Prim2SF x) as [s | s | | s m e]; try discriminate; reflexivity.
Qed.


(** Multiplying two positive numbers by a number that is not negative keeps
    their order. *)
Lemma mul_le_compat x y t :
  finite x = true -> finite y = true -> (0 < F2R x <= F2R y)%R ->
  (0 <=? t) = true -> (x * t <=? y * t) = true.
Proof.
  intros Fx Fy Hxy Ht.
  destruct (finite_pos_repr x Fx ltac:(lra)) as (mx & ex & Ex).
  destruct (finite_pos_repr y Fy ltac:(lra)) as (my & ey & Ey).
  pose proof (Prim2SF_valid x) as Vx. pose proof (Prim2SF_valid y) as Vy.
  pose proof (Prim2SF_valid t) as Vt.
  pose proof (Prim2SF_valid (x * t)) as Vxt. pose proof (Prim2SF_valid (y * t)) as Vyt.
  rewrite leb_spec, !mul_spec. rewrite mul_spec in Vxt, Vyt. unfold F2R in Hxy.
  rewrite Ex, Ey in *.
  destruct (ge_finite_cases t 0 finite_0 Ht) as [[Ft Ht0] | Tinf].
  - unfold finite, F2R in Ft, Ht0.
    destruct (Prim2SF t) as [st | st | | st mt et]; try discriminate.
    + reflexivity.
    + destruct st.
      * exfalso. simpl in Ht0. pose proof (dyad_pos mt et).
        change (SF2R (Prim2SF 0)) with 0%R in Ht0. lra.
      * apply SFmul_mono; auto. lra.
  - rewrite Tinf. reflexivity.
Qed.


End B64.

(** * The claims *)

Import B64.

(** ** The tick is total *)

Ltac pick_cases k n :=
  let H := fresh "H" in
  pose proof (Nat.mod_upper_bound k n ltac:(discriminate)) as H;
  destruct (k mod n)%nat as [| [| [| ?]]]; try lia; clear H.

Lemma choice_yard_block k :
  choice YARD_BLOCKS k = Ok "YB10" \/ choice YARD_BLOCKS k = Ok "YB11" \/
  choice YARD_BLOCKS k = Ok "YB12".
Proof.
  unfold choice, YARD_BLOCKS. cbn [List.length]. pick_cases k 3%nat; simpl; auto.
Qed.

(** Picking a block and then a lane of that block never raises, and yields a
    lane of the block. *)
Lemma pick_block_and_lane kb kl :
  exists yb lanes lane,
    choice YARD_BLOCKS kb = Ok yb /\ dict_get LANES_BY_BLOCK yb = Ok lanes /\
    choice lanes kl = Ok lane /\ existsb (String.eqb lane) lanes = true.
Proof.
  destruct (choice_yard_block kb) as [E | [E | E]]; rewrite E;
    [exists "YB10", ["L41"; "L42"] | exists "YB11", ["L43"; "L44"]
     | exists "YB12", ["L45"; "L46"]];
    unfold choice; cbn [List.length]; pick_cases kl 2%nat;
    eexists; repeat split; reflexivity.
Qed.

Lemma lane_ok_reassigned yb lanes lane c :
  dict_get LANES_BY_BLOCK yb = Ok lanes ->
  existsb (String.eqb lane) lanes = true ->
  lane_ok (AGVState.set_lane_id lane (AGVState.set_yard_block yb c)) = true.
Proof.
  intros El Hin. unfold lane_ok.
  cbn [AGVState.yard_block AGVState.lane_id AGVState.set_lane_id
       AGVState.set_yard_block].
  rewrite El. exact Hin.
Qed.

Lemma finish_job_total rnd a :
  exists a',
    AGVState.finish_job rnd a = Ok a' /\
    AGVState.position_m a' = 0.0 /\
    AGVState.job_id a' = AGVState._new_job_id (AGVState.job_number rnd) /\
    AGVState.speed_kph a' = AGVState.speed_kph a /\
    AGVState.soc_pct a' = AGVState.soc_pct a /\
    AGVState.agv_id a' = AGVState.agv_id a /\
    (lane_ok a = true -> lane_ok a' = true).
Proof.
  unfold AGVState.finish_job.
  destruct (pick_block_and_lane (AGVState.block_pick rnd) (AGVState.lane_pick rnd))
    as (yb & lanes & lane & Eb & El & Ec & Hin).
  destruct (AGVState.reassign_roll rnd <? 0.3).
  - rewrite Eb. cbn [bind AGVState.set_yard_block AGVState.yard_block].
    rewrite El. cbn [bind]. rewrite Ec. cbn [bind].
    eexists. split; [reflexivity |].
    split; [| split; [| split; [| split; [| split]]]];
      try (destruct (AGVState.flip_roll rnd <? 0.5); reflexivity).
    intros _. eapply lane_ok_reassigned; eassumption.
  - eexists. split; [reflexivity |].
    destruct (AGVState.flip_roll rnd <? 0.5); cbn; repeat split; try reflexivity;
      intros H; exact H.
Qed.

(** What a tick returns: it never raises, and its result is described by
    the movement, the lane completion and the battery steps. *)
Lemma tick_total a dt rnd :
  exists a', AGVState.tick a dt rnd = Ok a' /\
    AGVState.agv_id a' = AGVState.agv_id a /\
    (lane_ok a = true -> lane_ok a' = true) /\
    AGVState.speed_kph a' = AGVState.speed_kph (AGVState.move dt rnd a) /\
    AGVState.position_m a' =
      (if py_ge (AGVState.position_m (AGVState.move dt rnd a)) 1000.0 then 0.0
       else AGVState.position_m (AGVState.move dt rnd a)) /\
    AGVState.job_id a' =
      (if py_ge (AGVState.position_m (AGVState.move dt rnd a)) 1000.0
       then AGVState._new_job_id (AGVState.job_number rnd)
       else AGVState.job_id a) /\
    AGVState.soc_pct a' =
      AGVState.soc_pct (AGVState.battery dt rnd a).
Proof.
  unfold AGVState.tick.
  set (b := AGVState.move dt rnd a).
  assert (Hb : AGVState.agv_id b = AGVState.agv_id a /\
               (lane_ok a = true -> lane_ok b = true) /\
               AGVState.job_id b = AGVState.job_id a /\
               AGVState.soc_pct b = AGVState.soc_pct a).
  { unfold b, AGVState.move, lane_ok. cbn. repeat split; auto. }
  destruct Hb as (Hid & Hlane & Hjob & Hsoc).
  assert (Hbat : forall c, AGVState.soc_pct c = AGVState.soc_pct a ->
            AGVState.agv_id (AGVState.battery dt rnd c) = AGVState.agv_id c /\
            (lane_ok c = true -> lane_ok (AGVState.battery dt rnd c) = true) /\
            AGVState.speed_kph (AGVState.battery dt rnd c) = AGVState.speed_kph c /\
            AGVState.position_m (AGVState.battery dt rnd c) = AGVState.position_m c /\
            AGVState.job_id (AGVState.battery dt rnd c) = AGVState.job_id c /\
            AGVState.soc_pct (AGVState.battery dt rnd c)
              = AGVState.soc_pct (AGVState.battery dt rnd a)).
  { intros c Hc. unfold AGVState.battery, lane_ok. cbn. rewrite Hc.
    destruct (AGVState.soc_pct a - AGVState.drain rnd * dt <? 30);
      [destruct (AGVState.recharge_roll rnd <? 0.01) |]; cbn; repeat split; auto. }
  destruct (py_ge (AGVState.position_m b) 1000.0).
  - destruct (finish_job_total rnd b) as (c & Ec & Hp & Hj & Hs & Hq & Hi & Hl).
    rewrite Ec. cbn [bind]. eexists. split; [reflexivity |].
    destruct (Hbat c) as (B1 & B2 & B3 & B4 & B5 & B6); [congruence |].
    repeat split; try congruence. auto.
  - cbn [bind]. eexists. split; [reflexivity |].
    destruct (Hbat b) as (B1 & B2 & B3 & B4 & B5 & B6); [congruence |].
    repeat split; try congruence. auto.
Qed.

Lemma init_total agv_id init :
  exists a,
    AGVState.__init__ agv_id init = Ok a /\
    AGVState.agv_id a = agv_id /\
    AGVState.position_m a = AGVState.init_position init /\
    AGVState.speed_kph a = AGVState.init_speed init /\
    AGVState.soc_pct a = AGVState.init_soc init /\
    AGVState.job_id a = AGVState._new_job_id (AGVState.init_job init) /\
    lane_ok a = true.
Proof.
  unfold AGVState.__init__.
  destruct (pick_block_and_lane (AGVState.init_block init) (AGVState.init_lane init))
    as (yb & lanes & lane & Eb & El & Ec & Hin).
  rewrite Eb. cbn [bind]. rewrite El. cbn [bind]. rewrite Ec. cbn [bind].
  assert (Hload : exists l, choice ["EMPTY"; "LOADED"] (AGVState.init_load init) = Ok l).
  { unfold choice. cbn [List.length]. pick_cases (AGVState.init_load init) 2%nat;
      eexists; reflexivity. }
  destruct Hload as (l & Hl). rewrite Hl. cbn [bind].
  eexists. split; [reflexivity |]. repeat split.
  unfold lane_ok. cbn [AGVState.yard_block AGVState.lane_id]. rewrite El. exact Hin.
Qed.

(** ** Speed bounds (C4) *)

(** The clamp [max(4.0, min(s, 18.0))] lands in the range on every float,
    NaN and the infinities included. *)
Lemma clamp_range s :
  (4.0 <=? py_max 4.0 (py_min s 18.0)) = true /\
  (py_max 4.0 (py_min s 18.0) <=? 18.0) = true.
Proof.
  unfold py_min. destruct (18.0 <? s) eqn:Hhi.
  - split; reflexivity.
  - unfold py_max. destruct (4.0 <? s) eqn:Hlo.
    + split; [apply ltb_leb; assumption |].
      destruct (s <=? 18.0) eqn:Hle; [reflexivity | exfalso].
      apply ltb_leb in Hlo.
      rewrite (not_leb_ltb s 18.0 Hle (leb_refl_r _ _ Hlo) eq_refl) in Hhi.
      discriminate.
    + split; reflexivity.
Qed.

Lemma move_speed_ok dt rnd a : speed_ok (AGVState.move dt rnd a) = true.
Proof.
  unfold speed_ok, AGVState.move. cbn [AGVState.speed_kph AGVState.set_speed_kph
    AGVState.set_position_m].
  destruct (clamp_range (AGVState.speed_kph a + AGVState.speed_delta rnd)) as [H1 H2].
  rewrite H1, H2. reflexivity.
Qed.

Lemma tick_speed_ok a dt rnd a' :
  AGVState.tick a dt rnd = Ok a' -> speed_ok a' = true.
Proof.
  intros E. destruct (tick_total a dt rnd) as (b & Eb & _ & _ & Hs & _).
  assert (b = a') by congruence. subst b.
  unfold speed_ok. rewrite Hs. apply move_speed_ok.
Qed.

Lemma run_ticks_total steps : forall a,
  exists a', run_ticks steps a = Ok a' /\
    AGVState.agv_id a' = AGVState.agv_id a /\
    (lane_ok a = true -> lane_ok a' = true) /\
    (steps <> [] \/ speed_ok a = true -> speed_ok a' = true).
Proof.
  induction steps as [| [dt rnd] steps IH]; intros a.
  - exists a. repeat split; auto. intros [H | H]; [congruence | assumption].
  - destruct (tick_total a dt rnd) as (b & Eb & Hid & Hlane & _).
    destruct (IH b) as (c & Ec & Hid' & Hlane' & Hspeed).
    exists c. cbn [run_ticks]. rewrite Eb. cbn [bind]. repeat split; auto.
    + congruence.
    + intros _. apply Hspeed. right. eapply tick_speed_ok; eassumption.
Qed.

Lemma initial_speed_ok s : uniform_ok 8.0 14.0 s = true ->
  (4.0 <=? s) = true /\ (s <=? 18.0) = true.
Proof.
  unfold uniform_ok. rewrite andb_true_iff. intros [Hlo Hhi].
  destruct (between_finite 8.0 s 14.0 eq_refl eq_refl Hlo Hhi) as (Fs & H8 & H14).
  float_value 8.0 as V8. float_value 14.0 as V14.
  float_value 4.0 as V4. float_value 18.0 as V18.
  split; apply leb_finite; auto; lra.
Qed.

(** C4: a vehicle that was just created, with its speed drawn in the
    documented range of [uniform(8, 14)], and a vehicle after any run of
    ticks, for any intervals and any draws, has its speed in [4.0, 18.0]. *)
Theorem speed_within_bounds agv_id init steps :
  (steps = [] -> uniform_ok 8.0 14.0 (AGVState.init_speed init) = true) ->
  exists a,
    (a0 <- AGVState.__init__ agv_id init ;; run_ticks steps a0) = Ok a /\
    speed_ok a = true.
Proof.
  intros Hinit.
  destruct (init_total agv_id init) as (a0 & E0 & _ & _ & Hs & _).
  destruct (run_ticks_total steps a0) as (a & Ea & _ & _ & Hspeed).
  exists a. rewrite E0. cbn [bind]. split; [assumption |].
  apply Hspeed. destruct steps as [| st steps]; [right | left; discriminate].
  unfold speed_ok. rewrite Hs.
  destruct (initial_speed_ok _ (Hinit eq_refl)) as [H1 H2]. rewrite H1, H2. reflexivity.
Qed.

Lemma speed_within_bounds_witness :
  exists a,
    (a0 <- AGVState.__init__ "AGV-01" sample_init ;; run_ticks [] a0) = Ok a /\
    speed_ok a = true.
Proof.
  apply (speed_within_bounds "AGV-01" sample_init []). intros _. reflexivity.
Defined.

(** ** Lane membership (C6) *)

(** C6: at creation and after any run of ticks, whether or not the
    reassignment fires, the lane is one of the lanes of the yard block. *)
Theorem lane_belongs_to_block agv_id init steps :
  exists a,
    (a0 <- AGVState.__init__ agv_id init ;; run_ticks steps a0) = Ok a /\
    lane_ok a = true.
Proof.
  destruct (init_total agv_id init) as (a0 & E0 & _ & _ & _ & _ & _ & Hl).
  destruct (run_ticks_total steps a0) as (a & Ea & _ & Hlane & _).
  exists a. rewrite E0. cbn [bind]. auto.
Qed.

(** ** Position bounds (C5) *)

(** The rate [m_per_sec] of a speed in [4.0, 18.0] lies between the rates
    of the two bounds. *)
Lemma m_per_sec_range s :
  (4.0 <=? s) = true -> (s <=? 18.0) = true ->
  (4.0 * 1000.0 / 3600.0 <=? s * 1000.0 / 3600.0) = true /\
  (s * 1000.0 / 3600.0 <=? 18.0 * 1000.0 / 3600.0) = true.
Proof.
  intros Hlo Hhi.
  destruct (between_finite 4.0 s 18.0 eq_refl eq_refl Hlo Hhi) as (Fs & H4 & H18).
  float_value 4.0 as V4. float_value 18.0 as V18.
  float_value 1000.0 as V1000. float_value 3600.0 as V3600.
  float_value 4000.0 as V4000. float_value 18000.0 as V18000.
  assert (F1000 : finite 1000.0 = true) by reflexivity.
  assert (F3600 : finite 3600.0 = true) by reflexivity.
  destruct (mul_bracket s 1000.0 4000.0 Fs F1000 eq_refl) as [Tlo _].
  destruct (mul_bracket s 1000.0 18000.0 Fs F1000 eq_refl) as [_ Thi].
  assert (Hlo' : (4000.0 <=? s * 1000.0) = true) by (apply Tlo; nra).
  assert (Hhi' : (s * 1000.0 <=? 18000.0) = true) by (apply Thi; nra).
  destruct (between_finite 4000.0 (s * 1000.0) 18000.0 eq_refl eq_refl Hlo' Hhi')
    as (Ft & T1 & T2).
  set (t := s * 1000.0) in *.
  assert (N3600 : F2R 3600.0 <> 0%R) by lra.
  split.
  - destruct (float_gap t 4000.0 8796093022208000 (-41) eq_refl) as [Hle | Hgap].
    + assert (Et : t = 4000.0) by (apply F2R_inj; auto; lra).
      rewrite Et. reflexivity.
    + remember (4.0 * 1000.0 / 3600.0) as c eqn:Ec. vm_compute in Ec. subst c.
      apply (div_bracket t 3600.0 1.1111111111111112 Ft F3600 N3600 eq_refl).
      float_value 1.1111111111111112 as Vc.
      unfold dyad in Hgap.
      pose proof (bpow_neg 41 ltac:(lia)) as B41.
      change (Z.opp 41) with (-41)%Z in B41. rewrite B41 in Hgap.
      change (IZR (2 ^ 41)) with 2199023255552%R in Hgap.
      change (IZR (8796093022208000 + 1)) with 8796093022208001%R in Hgap.
      assert (E3600 : F2R 3600.0 = 3600%R) by lra.
      rewrite E3600, Vc. lra.
  - remember (18.0 * 1000.0 / 3600.0) as c eqn:Ec. vm_compute in Ec. subst c.
    apply (div_bracket t 3600.0 5.0 Ft F3600 N3600 eq_refl).
    float_value 5.0 as V5.
    assert (E3600 : F2R 3600.0 = 3600%R) by lra.
    rewrite E3600, V5. lra.
Qed.

(** The rate of the clamped speed is finite and positive. *)
Lemma move_rate_positive s :
  (4.0 <=? s) = true -> (s <=? 18.0) = true ->
  finite (s * 1000.0 / 3600.0) = true /\ (1 <= F2R (s * 1000.0 / 3600.0) <= 5)%R.
Proof.
  intros Hlo Hhi. destruct (m_per_sec_range s Hlo Hhi) as [H1 H2].
  destruct (between_finite (4.0 * 1000.0 / 3600.0) (s * 1000.0 / 3600.0)
              (18.0 * 1000.0 / 3600.0) eq_refl eq_refl H1 H2) as (F & B1 & B2).
  split; [assumption |].
  assert (E1 : 4.0 * 1000.0 / 3600.0 = 1.1111111111111112) by reflexivity.
  assert (E2 : 18.0 * 1000.0 / 3600.0 = 5.0) by reflexivity.
  rewrite E1 in B1. rewrite E2 in B2.
  float_value 1.1111111111111112 as Vlo. float_value 5.0 as Vhi. lra.
Qed.

Lemma move_position_nonneg a dt rnd :
  (0.0 <=? AGVState.position_m a) = true -> (0.0 <=? dt) = true ->
  (0.0 <=? AGVState.position_m (AGVState.move dt rnd a)) = true.
Proof.
  intros Hpos Hdt. unfold AGVState.move.
  cbn [AGVState.position_m AGVState.speed_kph AGVState.set_speed_kph
       AGVState.set_position_m].
  destruct (clamp_range (AGVState.speed_kph a + AGVState.speed_delta rnd)) as [C1 C2].
  destruct (move_rate_positive _ C1 C2) as (Fr & Hr).
  apply add_nonneg; [assumption |].
  apply mul_pos_nonneg; [assumption | lra | assumption].
Qed.

(** C5: a tick with an interval that is not negative takes a position in
    [0, 1000) to a position in [0, 1000), for any speed and any draws. *)
Theorem position_stays_in_lane a dt rnd :
  position_ok a = true -> (0.0 <=? dt) = true ->
  exists a', AGVState.tick a dt rnd = Ok a' /\ position_ok a' = true.
Proof.
  unfold position_ok at 1. rewrite andb_true_iff. intros [Hpos _] Hdt.
  destruct (tick_total a dt rnd) as (a' & E & _ & _ & _ & Hp & _).
  exists a'. split; [assumption |].
  unfold position_ok. rewrite Hp.
  pose proof (move_position_nonneg a dt rnd Hpos Hdt) as Hnn.
  unfold py_ge.
  destruct (1000.0 <=? AGVState.position_m (AGVState.move dt rnd a)) eqn:Hend.
  - reflexivity.
  - rewrite Hnn. cbn [andb].
    apply (not_leb_ltb 1000.0 _ Hend eq_refl). eapply leb_refl_r. eassumption.
Qed.

Lemma position_stays_in_lane_witness :
  position_ok sample_vehicle = true /\ (0.0 <=? 1.0) = true /\
  exists a', AGVState.tick sample_vehicle 1.0 sample_draws = Ok a' /\
             position_ok a' = true.
Proof.
  split; [reflexivity |]. split; [reflexivity |].
  apply (position_stays_in_lane sample_vehicle 1.0 sample_draws); reflexivity.
Defined.

(** ** Charge bounds (C7) *)

Lemma drain_nonneg dt rnd :
  (0.0 <=? dt) = true -> uniform_ok 0.01 0.05 (AGVState.drain rnd) = true ->
  (0.0 <=? AGVState.drain rnd * dt) = true.
Proof.
  unfold uniform_ok. rewrite andb_true_iff. intros Hdt [Hlo Hhi].
  destruct (between_finite 0.01 _ 0.05 eq_refl eq_refl Hlo Hhi) as (Fd & D1 & _).
  float_value 0.01 as V. apply mul_pos_nonneg; [assumption | lra | assumption].
Qed.



(** A vehicle created with a charge of 99.984375 and a tick with an
    interval of -1 second, as [SIM_TICK_SEC=-1] gives before the sleep
    raises: the drain adds to the charge, which ends above 100. *)
Lemma charge_above_100_after_negative_interval :
  uniform_ok 60.0 100.0 (AGVState.init_soc high_init) = true /\
  battery_draws_ok draining = true /\
  exists a,
    (a0 <- AGVState.__init__ "AGV-01" high_init ;;
     run_ticks [(-1.0, draining)] a0) = Ok a /\
    AGVState.soc_pct a = 100.03125 /\ charge_ok a = false.
Proof.
  repeat (split; [vm_compute; reflexivity |]).
  eexists. repeat split; vm_compute; reflexivity.
Qed.



(** ** Recharge threshold (C3) *)

Lemma battery_soc dt rnd a :
  AGVState.soc_pct (AGVState.battery dt rnd a) =
  if recharges dt rnd a then AGVState.recharge_level rnd
  else AGVState.soc_pct a - AGVState.drain rnd * dt.
Proof.
  unfold AGVState.battery, recharges.
  cbn [AGVState.soc_pct AGVState.set_soc_pct].
  destruct (AGVState.soc_pct a - AGVState.drain rnd * dt <? 30);
    [destruct (AGVState.recharge_roll rnd <? 0.01) |]; reflexivity.
Qed.

Lemma leb_ltb_trans x a b :
  (x <=? a) = true -> finite a = true -> finite b = true ->
  (F2R a < F2R b)%R -> (x <? b) = true.
Proof.
  intros Hx Fa Fb Hab.
  destruct (le_finite_cases x a Fa Hx) as [[Fx Hxa] | Hinf].
  - apply ltb_finite; auto. lra.
  - apply ltb_ninf; assumption.
Qed.

(** A vehicle enters a tick of 1000 seconds with charge 50 and recharges
    in it. *)
Lemma recharge_at_charge_50 :
  AGVState.soc_pct half_charged = 50.0 /\
  step_ok (1000.0, recharging) = true /\
  recharges 1000.0 recharging half_charged = true /\
  exists a', AGVState.tick half_charged 1000.0 recharging = Ok a' /\
             AGVState.soc_pct a' = 85.0.
Proof.
  repeat (split; [vm_compute; reflexivity |]).
  eexists. split; vm_compute; reflexivity.
Qed.

(** C3, amended: with an interval that is not negative and draws in their
    ranges, a vehicle that enters a tick with charge 25 and whose recharge
    roll fires ends the tick with a charge in [70, 100]; the threshold is
    tested on the charge after the drain, so a vehicle that enters with
    charge 50 recharges only if the drain takes it below 30, which no
    draws do when the interval is at most 399 seconds. *)
Theorem recharge_threshold a dt rnd :
  step_ok (dt, rnd) = true ->
  exists a', AGVState.tick a dt rnd = Ok a' /\
    (AGVState.soc_pct a = 25.0 -> (AGVState.recharge_roll rnd <? 0.01) = true ->
     recharges dt rnd a = true /\ uniform_ok 70.0 100.0 (AGVState.soc_pct a') = true) /\
    (AGVState.soc_pct a = 50.0 -> (dt <=? 399.0) = true ->
     recharges dt rnd a = false /\
     AGVState.soc_pct a' = 50.0 - AGVState.drain rnd * dt /\
     (30.0 <=? AGVState.soc_pct a') = true).
Proof.
  intros Hstep.
  destruct (tick_total a dt rnd) as (a' & E & _ & _ & _ & _ & _ & Hsoc).
  exists a'. split; [assumption |].
  rewrite Hsoc, battery_soc.
  unfold step_ok, battery_draws_ok in Hstep. cbn [fst snd] in Hstep.
  rewrite !andb_true_iff in Hstep. destruct Hstep as (Hdt & Hdrain & Hlevel).
  pose proof (drain_nonneg dt rnd Hdt Hdrain) as Hd.
  split.
  - intros E25 Hroll.
    assert (Hfires : recharges dt rnd a = true).
    { unfold recharges. rewrite Hroll, E25, andb_true_r.
      apply (leb_ltb_trans _ 25.0 30.0); try reflexivity.
      - apply sub_nonneg_le; [reflexivity | reflexivity | assumption].
      - float_value 25.0 as V25. float_value 30.0 as V30. lra. }
    rewrite Hfires. auto.
  - intros E50 Hmax.
    unfold uniform_ok in Hdrain. rewrite andb_true_iff in Hdrain.
    destruct Hdrain as [D1 D2].
    destruct (between_finite 0.01 _ 0.05 eq_refl eq_refl D1 D2) as (Fd & R1 & R2).
    destruct (between_finite 0.0 dt 399.0 eq_refl eq_refl Hdt Hmax) as (Ft & T1 & T2).
    float_value 0.01 as V1. float_value 0.05 as V5. float_value 399.0 as V399.
    float_value 20.0 as V20. float_value 30.0 as V30. float_value 50.0 as V50.
    rewrite F2R_0 in T1.
    assert (Hy : (AGVState.drain rnd * dt <=? 20.0) = true).
    { apply (mul_bracket (AGVState.drain rnd) dt 20.0); auto. nra. }
    destruct (between_finite 0.0 _ 20.0 eq_refl eq_refl Hd Hy) as (Fy & Y1 & Y2).
    assert (Hkeep : (30.0 <=? 50.0 - AGVState.drain rnd * dt) = true).
    { apply (sub_bracket 50.0 (AGVState.drain rnd * dt) 30.0); auto. lra. }
    assert (Hno : recharges dt rnd a = false).
    { unfold recharges. rewrite E50, (leb_not_ltb _ _ Hkeep). reflexivity. }
    rewrite Hno, E50. auto.
Qed.

Lemma recharge_threshold_witness :
  step_ok (1.0, sample_draws) = true /\
  exists a', AGVState.tick half_charged 1.0 sample_draws = Ok a' /\
    (AGVState.soc_pct half_charged = 25.0 ->
     (AGVState.recharge_roll sample_draws <? 0.01) = true ->
     recharges 1.0 sample_draws half_charged = true /\
     uniform_ok 70.0 100.0 (AGVState.soc_pct a') = true) /\
    (AGVState.soc_pct half_charged = 50.0 -> (1.0 <=? 399.0) = true ->
     recharges 1.0 sample_draws half_charged = false /\
     AGVState.soc_pct a' = 50.0 - AGVState.drain sample_draws * 1.0 /\
     (30.0 <=? AGVState.soc_pct a') = true).
Proof.
  split; [reflexivity |].
  apply (recharge_threshold half_charged 1.0 sample_draws). reflexivity.
Defined.

(** ** Lane completion (C2) *)

Lemma str_int_inj n k : str_int n = str_int k -> n = k.
Proof.
  unfold str_int. intros E. apply DecimalZ.to_int_inj.
  assert (Hnn : forall z, Z.to_int z <> Pos Nil /\ Z.to_int z <> Neg Nil).
  { intros [| p | p]; split; simpl; try discriminate;
      intros H; injection H; apply Unsigned.to_uint_nonnil. }
  apply (f_equal NilZero.int_of_string) in E.
  rewrite !NilZero.isi in E by apply Hnn. congruence.
Qed.

Lemma new_job_id_inj n k :
  AGVState._new_job_id n = AGVState._new_job_id k -> n = k.
Proof.
  unfold AGVState._new_job_id. cbn [String.append]. intros E.
  apply str_int_inj. congruence.
Qed.

(** A vehicle about to finish its lane whose next job number is the one it
    already carries. *)
Lemma same_job_after_completion :
  (AGVState.position_m sample_vehicle <? 1000.0) = true /\
  reaches_end 1.0 sample_draws sample_vehicle = true /\
  exists a', AGVState.tick sample_vehicle 1.0 sample_draws = Ok a' /\
             AGVState.position_m a' = 0.0 /\
             AGVState.job_id a' = AGVState.job_id sample_vehicle.
Proof.
  repeat (split; [vm_compute; reflexivity |]).
  eexists. repeat split; vm_compute; reflexivity.
Qed.

(** C2, amended: when the movement of a tick takes a vehicle to the end of
    its lane, the tick leaves it at position 0 with the job id made from
    the drawn number; the id differs from the one before exactly when the
    draw does not repeat the number of that job. *)
Theorem lane_completion_resets a dt rnd :
  reaches_end dt rnd a = true ->
  exists a', AGVState.tick a dt rnd = Ok a' /\
    AGVState.position_m a' = 0.0 /\
    AGVState.job_id a' = AGVState._new_job_id (AGVState.job_number rnd) /\
    forall k, AGVState.job_id a = AGVState._new_job_id k ->
      (AGVState.job_id a' <> AGVState.job_id a <-> AGVState.job_number rnd <> k).
Proof.
  unfold reaches_end. intros Hend.
  destruct (tick_total a dt rnd) as (a' & E & _ & _ & _ & Hp & Hj & _).
  rewrite Hend in Hp, Hj.
  exists a'. repeat split; try assumption.
  - intros Hne Heq. apply Hne. rewrite Hj, H, Heq. reflexivity.
  - intros Hne Heq. apply Hne. rewrite Hj, H in Heq.
    apply new_job_id_inj. assumption.
Qed.

Lemma lane_completion_resets_witness :
  reaches_end 1.0 sample_draws sample_vehicle = true /\
  exists a', AGVState.tick sample_vehicle 1.0 sample_draws = Ok a' /\
    AGVState.position_m a' = 0.0 /\
    AGVState.job_id a' = AGVState._new_job_id (AGVState.job_number sample_draws) /\
    forall k, AGVState.job_id sample_vehicle = AGVState._new_job_id k ->
      (AGVState.job_id a' <> AGVState.job_id sample_vehicle <->
       AGVState.job_number sample_draws <> k).
Proof.
  split; [reflexivity |].
  apply (lane_completion_resets sample_vehicle 1.0 sample_draws). reflexivity.
Defined.

(** ** Batches (C9) *)

Lemma create_fleet_ids rnd ids : forall i,
  exists agvs, create_fleet rnd i ids = Ok agvs /\ map AGVState.agv_id agvs = ids.
Proof.
  induction ids as [| agv_id ids IH]; intros i.
  - exists []. split; reflexivity.
  - destruct (init_total agv_id (rnd i)) as (a & Ea & Hid & _).
    destruct (IH (S i)) as (agvs & Eagvs & Hids).
    exists (a :: agvs). cbn [create_fleet]. rewrite Ea. cbn [bind].
    rewrite Eagvs. cbn [bind map]. split; [reflexivity | congruence].
Qed.

Lemma tick_fleet_ids py dt rnd now agvs : forall i,
  exists agvs' docs,
    tick_fleet py dt rnd now i agvs = Ok (agvs', docs) /\
    map AGVState.agv_id agvs' = map AGVState.agv_id agvs /\
    map Doc.agv_id docs = map AGVState.agv_id agvs /\
    List.length docs = List.length agvs.
Proof.
  induction agvs as [| a agvs IH]; intros i.
  - exists [], []. repeat split; reflexivity.
  - destruct (tick_total a dt (rnd i)) as (a' & Ea & Hid & _).
    destruct (IH (S i)) as (agvs' & docs & E & H1 & H2 & H3).
    exists (a' :: agvs'), (AGVState.to_doc (round py) a' (now i) :: docs).
    cbn [tick_fleet]. rewrite Ea. cbn [bind]. rewrite E. cbn [bind fst snd map List.length].
    repeat split; try congruence. unfold AGVState.to_doc. cbn [Doc.agv_id]. congruence.
Qed.

Lemma loop_batches py cfg start its : forall agvs tick sent,
  Forall (fun docs => map Doc.agv_id docs = map AGVState.agv_id agvs) sent ->
  Forall (fun docs => map Doc.agv_id docs = map AGVState.agv_id agvs)
         (batches (loop py cfg start its agvs tick sent)).
Proof.
  induction its as [| it its IH]; intros agvs tick sent Hsent.
  - exact Hsent.
  - cbn [loop].
    destruct (clock it - start <? float_of_int (DURATION_SEC cfg)); [| exact Hsent].
    destruct (tick_fleet_ids py (TICK_INTERVAL_SEC cfg) (draws it) (stamps it) agvs 0%nat)
      as (agvs' & docs & E & H1 & H2 & _).
    rewrite E.
    assert (Hsent' : Forall (fun docs0 => map Doc.agv_id docs0 = map AGVState.agv_id agvs)
                            (sent ++ [docs])).
    { apply Forall_app. split; [assumption | constructor; [assumption | constructor]]. }
    destruct (bulk_index py cfg (INDEX_NAME cfg) docs (response it)); [| exact Hsent'].
    destruct (slept it); [| exact Hsent'].
    rewrite <- H1 in *. apply IH. exact Hsent'.
Qed.

(** C9: on any fleet, a tick of the fleet returns one record per vehicle, in
    the order of the fleet; and every batch that [main] hands to the
    publisher holds the ten records of the vehicles in creation order. *)
Theorem batch_follows_fleet_order :
  (forall py dt rnd now agvs,
     exists agvs' docs,
       tick_fleet py dt rnd now 0 agvs = Ok (agvs', docs) /\
       List.length docs = List.length agvs /\
       map Doc.agv_id docs = map AGVState.agv_id agvs /\
       map AGVState.agv_id agvs' = map AGVState.agv_id agvs) /\
  (forall py cfg w,
     Forall (fun docs => map Doc.agv_id docs = AGV_IDS /\ List.length docs = 10%nat)
            (batches (main py cfg w))).
Proof.
  split.
  - intros py dt rnd now agvs.
    destruct (tick_fleet_ids py dt rnd now agvs 0%nat) as (agvs' & docs & E & H1 & H2 & H3).
    exists agvs', docs. auto.
  - intros py cfg w. unfold main.
    destruct (negb (truthy (ES_URL cfg)) || negb (truthy (ES_API_KEY cfg)));
      [constructor |].
    destruct (create_fleet_ids (init_draws w) AGV_IDS 0%nat) as (agvs & E & Hids).
    rewrite E.
    pose proof (loop_batches py cfg (start_time w) (iterations w) agvs 0%Z []
                             (Forall_nil _)) as H.
    rewrite Hids in H. eapply Forall_impl; [| exact H].
    intros docs Hd. split; [assumption |].
    rewrite <- (length_map Doc.agv_id), Hd. reflexivity.
Qed.

(** ** Determinism up to the capture timestamp (C8) *)

(** The transcription on the generator is the program on the answers that
    the generator gives: a tick is [AGVState.tick] on the record of these
    answers, a creation is [AGVState.__init__] on theirs. *)
Lemma seeded_finish_job_refines rng b g :
  exists n f r kb kl g', forall delta d ro le,
    Seeded.finish_job rng b g
    = (AGVState.finish_job (AGVState.Build_TickDraws delta n f r kb kl d ro le) b, g').
Proof.
  cbv [Seeded.finish_job Seeded.bindM Seeded.draw Seeded.ret Seeded._new_job_id
       Seeded.random_choice Seeded.lift].
  unfold AGVState.finish_job.
  cbn [AGVState.job_number AGVState.flip_roll AGVState.reassign_roll
       AGVState.block_pick AGVState.lane_pick].
  destruct (random.randint rng 100000 999999 g) as [n g2].
  destruct (random.random rng g2) as [f g3].
  destruct (random.random rng g3) as [r g4].
  destruct (r <? 0.3) eqn:Er.
  - destruct (random.randbelow rng (List.length YARD_BLOCKS) g4) as [kb g5].
    destruct (choice YARD_BLOCKS kb) as [yb | e] eqn:Eyb.
    + cbn [AGVState.yard_block AGVState.set_yard_block].
      destruct (dict_get LANES_BY_BLOCK yb) as [lanes | e] eqn:El.
      * destruct (random.randbelow rng (List.length lanes) g5) as [kl g6].
        exists n, f, r, kb, kl, g6. intros.
        rewrite Er, Eyb. cbn [bind AGVState.yard_block AGVState.set_yard_block].
        rewrite El. cbn [bind]. destruct (choice lanes kl); reflexivity.
      * exists n, f, r, kb, 0%nat, g5. intros.
        rewrite Er, Eyb. cbn [bind AGVState.yard_block AGVState.set_yard_block].
        rewrite El. reflexivity.
    + exists n, f, r, kb, 0%nat, g5. intros. rewrite Er, Eyb. reflexivity.
  - exists n, f, r, 0%nat, 0%nat, g4. intros. rewrite Er. reflexivity.
Qed.

Lemma seeded_battery_refines rng dt c g :
  exists d ro le g', forall delta n f r kb kl,
    Seeded.battery rng dt c g
    = (Ok (AGVState.battery dt (AGVState.Build_TickDraws delta n f r kb kl d ro le) c),
       g').
Proof.
  cbv [Seeded.battery Seeded.bindM Seeded.draw Seeded.ret].
  unfold AGVState.battery.
  cbn [AGVState.drain AGVState.recharge_roll AGVState.recharge_level
       AGVState.soc_pct AGVState.set_soc_pct].
  destruct (random.uniform rng 0.01 0.05 g) as [d g3].
  destruct (AGVState.soc_pct c - d * dt <? 30) eqn:E30.
  - destruct (random.random rng g3) as [ro g4].
    destruct (ro <? 0.01) eqn:Ero.
    + destruct (random.uniform rng 70.0 100.0 g4) as [le g5].
      exists d, ro, le, g5. intros. rewrite E30, Ero. reflexivity.
    + exists d, ro, 0, g4. intros. rewrite E30, Ero. reflexivity.
  - exists d, 0, 0, g3. intros. rewrite E30. reflexivity.
Qed.

Lemma seeded_tick_refines rng self dt g :
  exists rnd g', Seeded.tick rng self dt g = (AGVState.tick self dt rnd, g').
Proof.
  unfold Seeded.tick. unfold Seeded.bindM at 1. unfold Seeded.draw at 1.
  destruct (random.uniform rng (-1.0) 1.0 g) as [delta g1].
  set (b := AGVState.set_position_m _ _).
  assert (Hmove : forall n f r kb kl d ro le,
            AGVState.move dt (AGVState.Build_TickDraws delta n f r kb kl d ro le) self = b)
    by (intros; reflexivity).
  clearbody b. unfold AGVState.tick, Seeded.bindM.
  destruct (py_ge (AGVState.position_m b) 1000.0) eqn:Eend.
  - destruct (seeded_finish_job_refines rng b g1) as (n & f & r & kb & kl & g2 & Hfin).
    destruct (AGVState.finish_job (AGVState.Build_TickDraws delta n f r kb kl 0 0 0) b)
      as [c | e] eqn:Ec.
    + destruct (seeded_battery_refines rng dt c g2) as (d & ro & le & g' & Hbat).
      exists (AGVState.Build_TickDraws delta n f r kb kl d ro le), g'.
      assert (Ec' : AGVState.finish_job
                      (AGVState.Build_TickDraws delta n f r kb kl d ro le) b = Ok c).
      { rewrite <- Ec. reflexivity. }
      rewrite Hmove, Eend, (Hfin delta d ro le), Ec'. cbn [bind]. apply Hbat.
    + exists (AGVState.Build_TickDraws delta n f r kb kl 0 0 0), g2.
      rewrite Hmove, Eend, (Hfin delta 0 0 0), Ec. reflexivity.
  - destruct (seeded_battery_refines rng dt b g1) as (d & ro & le & g' & Hbat).
    exists (AGVState.Build_TickDraws delta 0 0 0 0 0 d ro le), g'.
    rewrite Hmove, Eend. cbn [bind]. unfold Seeded.ret. apply Hbat.
Qed.

(** A tick on the generator never raises. *)
Lemma seeded_tick_total rng self dt g :
  exists self' g', Seeded.tick rng self dt g = (Ok self', g').
Proof.
  destruct (seeded_tick_refines rng self dt g) as (rnd & g' & E).
  destruct (tick_total self dt rnd) as (a' & Ea & _).
  exists a', g'. rewrite E, Ea. reflexivity.
Qed.

(** The capture timestamps of a tick of the fleet reach the timestamp
    field of its records, and nothing else: not the vehicles, not the
    generator. *)
Lemma seeded_tick_fleet_stamps rng py dt now1 now2 agvs : forall i1 i2 g,
  exists agvs' docs1 docs2 g',
    Seeded.tick_fleet rng py dt now1 i1 agvs g = (Ok (agvs', docs1), g') /\
    Seeded.tick_fleet rng py dt now2 i2 agvs g = (Ok (agvs', docs2), g') /\
    map Doc.untimed docs1 = map Doc.untimed docs2.
Proof.
  induction agvs as [| a agvs IH]; intros i1 i2 g.
  - exists [], [], [], g. repeat split; reflexivity.
  - destruct (seeded_tick_total rng a dt g) as (a' & g1 & Ea).
    destruct (IH (S i1) (S i2) g1) as (agvs' & d1 & d2 & g' & E1 & E2 & Hd).
    exists (a' :: agvs'), (AGVState.to_doc (round py) a' (now1 i1) :: d1),
      (AGVState.to_doc (round py) a' (now2 i2) :: d2), g'.
    cbn [Seeded.tick_fleet]. unfold Seeded.bindM at 1 3. rewrite Ea.
    unfold Seeded.bindM, Seeded.ret. rewrite E1, E2. cbn [fst snd map].
    rewrite Hd. repeat split; reflexivity.
Qed.

(** More ticks from a seed extend the batches of fewer ticks. *)
Lemma ticks_from_extends rng py dt : forall n m agvs g,
  (n <= m)%nat ->
  exists later,
    fst (Seeded.ticks_from rng py dt agvs g m)
    = (fst (Seeded.ticks_from rng py dt agvs g n) ++ later)%list.
Proof.
  induction n as [| n IH]; intros m agvs g Hnm.
  - eexists. reflexivity.
  - destruct m as [| m]; [lia |]. cbn [Seeded.ticks_from].
    destruct (Seeded.tick_fleet rng py dt (fun _ => EmptyString) 0 agvs g)
      as [[[agvs' docs] | e] g']; [| exists []; reflexivity].
    destruct (IH m agvs' g' ltac:(lia)) as (later & E).
    destruct (Seeded.ticks_from rng py dt agvs' g' m) as [bm fm].
    destruct (Seeded.ticks_from rng py dt agvs' g' n) as [bn fn].
    cbn [fst] in *. exists later. rewrite E. reflexivity.
Qed.

(** The batches and the fleet of a run of the loop are those of the ticks
    it executed from the state of the generator. *)
Lemma seeded_loop_of_seed rng py cfg start its : forall agvs tick sent g,
  let r := Seeded.loop rng py cfg start its agvs tick sent g in
  let n := (List.length (batches r) - List.length sent)%nat in
  (List.length sent <= List.length (batches r))%nat /\
  untimed_batches r
  = (map (map Doc.untimed) sent
     ++ fst (Seeded.ticks_from rng py (TICK_INTERVAL_SEC cfg) agvs g n))%list /\
  fleet r = snd (Seeded.ticks_from rng py (TICK_INTERVAL_SEC cfg) agvs g n).
Proof.
  unfold untimed_batches.
  assert (Hstop : forall e t agvs sent g,
            let r := Build_Run e t agvs sent in
            let n := (List.length (batches r) - List.length sent)%nat in
            (List.length sent <= List.length (batches r))%nat /\
            map (map Doc.untimed) (batches r)
            = (map (map Doc.untimed) sent
               ++ fst (Seeded.ticks_from rng py (TICK_INTERVAL_SEC cfg) agvs g n))%list /\
            fleet r = snd (Seeded.ticks_from rng py (TICK_INTERVAL_SEC cfg) agvs g n)).
  { intros e t agvs sent g. cbn. rewrite Nat.sub_diag. cbn.
    rewrite app_nil_r. auto. }
  induction its as [| it its IH]; intros agvs tick sent g; [apply Hstop |].
  cbn [Seeded.loop].
  destruct (Seeded.clock it - start <? float_of_int (DURATION_SEC cfg));
    [| apply Hstop].
  destruct (seeded_tick_fleet_stamps rng py (TICK_INTERVAL_SEC cfg) (Seeded.stamps it)
              (fun _ => EmptyString) agvs 0%nat 0%nat g)
    as (agvs' & docs & docs0 & g' & E & E0 & Hd).
  rewrite E.
  assert (Hone : forall e t,
            let r := Build_Run e t agvs' (sent ++ [docs]) in
            let n := (List.length (batches r) - List.length sent)%nat in
            (List.length sent <= List.length (batches r))%nat /\
            map (map Doc.untimed) (batches r)
            = (map (map Doc.untimed) sent
               ++ fst (Seeded.ticks_from rng py (TICK_INTERVAL_SEC cfg) agvs g n))%list /\
            fleet r = snd (Seeded.ticks_from rng py (TICK_INTERVAL_SEC cfg) agvs g n)).
  { intros e t. cbn [batches fleet]. rewrite length_app. cbn [List.length].
    replace (List.length sent + 1 - List.length sent)%nat with 1%nat by lia.
    cbn [Seeded.ticks_from]. rewrite E0. cbn [fst snd].
    rewrite map_app. cbn [map]. rewrite Hd. split; [lia | auto]. }
  destruct (bulk_index py cfg (INDEX_NAME cfg) docs (Seeded.response it));
    [| apply Hone].
  destruct (Seeded.slept it); [| apply Hone].
  destruct (IH agvs' (tick + 1)%Z (sent ++ [docs])%list g') as (H1 & H2 & H3).
  rewrite length_app in H1, H2, H3. cbn [List.length] in H1, H2, H3.
  set (r := Seeded.loop rng py cfg start its agvs' (tick + 1) (sent ++ [docs]) g') in *.
  replace (List.length (batches r) - List.length sent)%nat
    with (S (List.length (batches r) - (List.length sent + 1)))%nat by lia.
  cbn [Seeded.ticks_from]. rewrite E0.
  destruct (Seeded.ticks_from rng py (TICK_INTERVAL_SEC cfg) agvs' g'
              (List.length (batches r) - (List.length sent + 1))) as [later final].
  cbn [fst snd] in *. split; [lia |]. split; [| exact H3].
  rewrite H2, map_app, <- app_assoc. cbn [map app]. rewrite Hd. reflexivity.
Qed.

Lemma seeded_main_of_seed rng py cfg seed start its :
  let r := Seeded.main rng py cfg seed start its in
  untimed_batches r = fst (Seeded.of_seed rng py cfg seed (List.length (batches r))) /\
  fleet r = snd (Seeded.of_seed rng py cfg seed (List.length (batches r))).
Proof.
  unfold Seeded.main, Seeded.of_seed.
  destruct (negb (truthy (ES_URL cfg)) || negb (truthy (ES_API_KEY cfg)));
    [split; reflexivity |].
  destruct (Seeded.create_fleet rng AGV_IDS seed) as [[agvs | e] g];
    [| split; reflexivity].
  destruct (seeded_loop_of_seed rng py cfg start its agvs 0%Z [] g) as (_ & H2 & H3).
  cbn [List.length map app] in H2, H3. rewrite Nat.sub_0_r in H2, H3. auto.
Qed.

Lemma of_seed_extends rng py cfg seed n m :
  (n <= m)%nat ->
  exists later,
    fst (Seeded.of_seed rng py cfg seed m)
    = (fst (Seeded.of_seed rng py cfg seed n) ++ later)%list.
Proof.
  intros Hnm. unfold Seeded.of_seed.
  destruct (negb (truthy (ES_URL cfg)) || negb (truthy (ES_API_KEY cfg)));
    [exists []; reflexivity |].
  destruct (Seeded.create_fleet rng AGV_IDS seed) as [[agvs | e] g];
    [| exists []; reflexivity].
  apply ticks_from_extends. exact Hnm.
Qed.

(** C8: on the generator that all vehicles share, the batches of a run are
    a function of the seed and of the number of ticks.  A run of [main]
    from a seed hands the publisher, timestamps apart, the batches that
    [Seeded.of_seed] computes from the seed without reading any clock,
    timestamp or answer of the store.  So two runs from the same seed, at
    different times, with different timestamps and different answers of the
    store, agree on every batch that both build, field by field apart from
    the timestamp; and when they run the same number of ticks, they build
    the same batches and end with the same fleet. *)
Theorem runs_agree_up_to_timestamps rng py cfg seed start1 its1 start2 its2 :
  let r1 := Seeded.main rng py cfg seed start1 its1 in
  let r2 := Seeded.main rng py cfg seed start2 its2 in
  untimed_batches r1
  = fst (Seeded.of_seed rng py cfg seed (List.length (batches r1))) /\
  (forall k docs1 docs2,
     nth_error (batches r1) k = Some docs1 ->
     nth_error (batches r2) k = Some docs2 ->
     map Doc.untimed docs1 = map Doc.untimed docs2) /\
  (List.length (batches r1) = List.length (batches r2) ->
   untimed_batches r1 = untimed_batches r2 /\ fleet r1 = fleet r2).
Proof.
  intros r1 r2.
  destruct (seeded_main_of_seed rng py cfg seed start1 its1) as [B1 F1].
  destruct (seeded_main_of_seed rng py cfg seed start2 its2) as [B2 F2].
  fold r1 in B1, F1. fold r2 in B2, F2.
  split; [exact B1 |]. split.
  - assert (Hpre : forall ra rb,
              untimed_batches ra
              = fst (Seeded.of_seed rng py cfg seed (List.length (batches ra))) ->
              untimed_batches rb
              = fst (Seeded.of_seed rng py cfg seed (List.length (batches rb))) ->
              (List.length (batches ra) <= List.length (batches rb))%nat ->
              forall k da db,
                nth_error (batches ra) k = Some da ->
                nth_error (batches rb) k = Some db ->
                map Doc.untimed da = map Doc.untimed db).
    { intros ra rb Ba Bb Hle k da db Ha Hb.
      destruct (of_seed_extends rng py cfg seed _ _ Hle) as (later & E).
      rewrite <- Ba, <- Bb in E. unfold untimed_batches in E.
      apply (map_nth_error (map Doc.untimed)) in Ha, Hb.
      rewrite E, nth_error_app1 in Hb.
      - congruence.
      - rewrite length_map. apply nth_error_Some. rewrite nth_error_map in Ha.
        destruct (nth_error (batches ra) k); [discriminate | discriminate Ha]. }
    intros k d1 d2 H1 H2.
    destruct (Nat.le_ge_cases (List.length (batches r1)) (List.length (batches r2))).
    + apply (Hpre r1 r2 B1 B2 H k); assumption.
    + symmetry. apply (Hpre r2 r1 B2 B1 H k); assumption.
  - intros Hlen. rewrite B1, B2, F1, F2, Hlen. auto.
Qed.

Lemma runs_agree_up_to_timestamps_witness :
  List.length (batches (Seeded.main counting_rng sample_py sample_cfg 0%nat
                                    100.0 morning_run)) = 2%nat /\
  List.length (batches (Seeded.main counting_rng sample_py sample_cfg 0%nat
                                    5000.0 evening_run)) = 2%nat /\
  untimed_batches (Seeded.main counting_rng sample_py sample_cfg 0%nat 100.0 morning_run)
  = untimed_batches (Seeded.main counting_rng sample_py sample_cfg 0%nat 5000.0 evening_run) /\
  fleet (Seeded.main counting_rng sample_py sample_cfg 0%nat 100.0 morning_run)
  = fleet (Seeded.main counting_rng sample_py sample_cfg 0%nat 5000.0 evening_run).
Proof.
  split; [vm_compute; reflexivity |]. split; [vm_compute; reflexivity |].
  apply (proj2 (proj2 (runs_agree_up_to_timestamps counting_rng sample_py sample_cfg
                         0%nat 100.0 morning_run 5000.0 evening_run))).
  vm_compute. reflexivity.
Defined.

(** ** Publish failures (C1) *)

(** A run whose second post is answered by a 503: the run ends there, before
    the third iteration that the world still offers. *)
Lemma run_ends_at_failed_post :
  List.length (iterations failing_world) = 3%nat /\
  forallb (fun it => clock it - start_time failing_world
                     <? float_of_int (DURATION_SEC sample_cfg))
          (iterations failing_world) = true /\
  ended (main sample_py sample_cfg failing_world) = Aborted (HTTPError 503) /\
  ticks (main sample_py sample_cfg failing_world) = 1%Z /\
  List.length (batches (main sample_py sample_cfg failing_world)) = 2%nat.
Proof.
  repeat split; vm_compute; reflexivity.
Qed.

Lemma bulk_index_fails py cfg index doc docs response e :
  publish_fails response e ->
  bulk_index py cfg index (doc :: docs) response = Raise e.
Proof.
  unfold bulk_index. intros [-> | (status & -> & Hs & ->)]; cbn [bind]; [reflexivity |].
  unfold raise_for_status.
  replace ((400 <=? status) && (status <? 600))%Z with true; [reflexivity |].
  symmetry. apply andb_true_iff. split; [apply Z.leb_le | apply Z.ltb_lt]; lia.
Qed.

(** C1, amended: in an iteration of the driver loop on a fleet that is not
    empty, a transport failure of the publish step leaves [main] as an
    exception and ends the run: the tick counter is not incremented and no
    later iteration is executed; the publish step modifies no vehicle: the
    fleet of the run is the fleet as the advance of that iteration left it. *)
Theorem publish_failure_ends_run py cfg start it its agvs tick sent e :
  agvs <> [] ->
  (clock it - start <? float_of_int (DURATION_SEC cfg)) = true ->
  publish_fails (response it) e ->
  exists agvs' docs,
    tick_fleet py (TICK_INTERVAL_SEC cfg) (draws it) (stamps it) 0 agvs
      = Ok (agvs', docs) /\
    loop py cfg start (it :: its) agvs tick sent
      = Build_Run (Aborted e) tick agvs' (sent ++ [docs]).
Proof.
  intros Hne Hclock Hfail.
  destruct (tick_fleet_ids py (TICK_INTERVAL_SEC cfg) (draws it) (stamps it) agvs 0%nat)
    as (agvs' & docs & E & _ & _ & Hlen).
  exists agvs', docs. split; [assumption |].
  cbn [loop]. rewrite Hclock, E.
  destruct docs as [| doc docs].
  - destruct agvs; [congruence | discriminate].
  - rewrite (bulk_index_fails py cfg _ doc docs _ e Hfail). reflexivity.
Qed.

Lemma publish_failure_ends_run_witness :
  exists agvs' docs,
    tick_fleet sample_py (TICK_INTERVAL_SEC sample_cfg)
               (draws (sample_iteration 101.0 "t1" (Ok 503%Z)))
               (stamps (sample_iteration 101.0 "t1" (Ok 503%Z))) 0 [sample_vehicle]
      = Ok (agvs', docs) /\
    loop sample_py sample_cfg 100.0
         [sample_iteration 101.0 "t1" (Ok 503%Z); sample_iteration 102.0 "t2" (Ok 200%Z)]
         [sample_vehicle] 1 []
      = Build_Run (Aborted (HTTPError 503)) 1 agvs' ([] ++ [docs]).
Proof.
  apply (publish_failure_ends_run sample_py sample_cfg 100.0
           (sample_iteration 101.0 "t1" (Ok 503%Z))
           [sample_iteration 102.0 "t2" (Ok 200%Z)] [sample_vehicle] 1 []
           (HTTPError 503)).
  - discriminate.
  - reflexivity.
  - right. exists 503%Z. repeat split; lia.
Defined.

(** ** Movement within a lane (C10) *)

(** In the middle of a lane, the displacement of a tick of 2^-60 seconds is
    absorbed by the rounding of the sum. *)
Lemma displacement_absorbed :
  position_ok midlane_vehicle = true /\ (0.0 <? 0x1p-60) = true /\
  reaches_end 0x1p-60 sample_draws midlane_vehicle = false /\
  exists a', AGVState.tick midlane_vehicle 0x1p-60 sample_draws = Ok a' /\
             AGVState.position_m a' = AGVState.position_m midlane_vehicle /\
             (AGVState.position_m midlane_vehicle <? AGVState.position_m a') = false.
Proof.
  repeat (split; [vm_compute; reflexivity |]).
  eexists. repeat split; vm_compute; reflexivity.
Qed.

(** C10, amended: in a tick with a positive interval that does not reach the
    end of the lane, the new position is the rounded sum of the position and
    of the displacement [rate * dt], for a rate between [4.0 * 1000 / 3600]
    and [18.0 * 1000 / 3600]; the displacement lies between
    [(4.0 * 1000 / 3600) * dt] and [(18.0 * 1000 / 3600) * dt]; the position
    does not decrease, and it strictly increases when the interval is at
    least 2^-43 seconds. *)
Theorem position_advances a dt rnd :
  position_ok a = true -> (0.0 <? dt) = true -> reaches_end dt rnd a = false ->
  exists a' rate,
    AGVState.tick a dt rnd = Ok a' /\
    (4.0 * 1000.0 / 3600.0 <=? rate) = true /\
    (rate <=? 18.0 * 1000.0 / 3600.0) = true /\
    (4.0 * 1000.0 / 3600.0 * dt <=? rate * dt) = true /\
    (rate * dt <=? 18.0 * 1000.0 / 3600.0 * dt) = true /\
    AGVState.position_m a' = AGVState.position_m a + rate * dt /\
    (AGVState.position_m a <=? AGVState.position_m a') = true /\
    ((0x1p-43 <=? dt) = true ->
     (AGVState.position_m a <? AGVState.position_m a') = true).
Proof.
  unfold position_ok, reaches_end. rewrite andb_true_iff.
  intros [Hp0 Hp1] Hdt Hend.
  destruct (tick_total a dt rnd) as (a' & E & _ & _ & _ & Hp & _).
  rewrite Hend in Hp.
  set (s := py_max 4.0 (py_min (AGVState.speed_kph a + AGVState.speed_delta rnd) 18.0)).
  assert (Hmove : AGVState.position_m (AGVState.move dt rnd a)
                  = AGVState.position_m a + s * 1000.0 / 3600.0 * dt) by reflexivity.
  rewrite Hmove in Hp.
  destruct (clamp_range (AGVState.speed_kph a + AGVState.speed_delta rnd)) as [C1 C2].
  fold s in C1, C2.
  destruct (m_per_sec_range s C1 C2) as [R1 R2].
  destruct (move_rate_positive s C1 C2) as (Fr & Hr).
  set (rate := s * 1000.0 / 3600.0) in *.
  apply ltb_leb in Hdt. apply ltb_leb in Hp1.
  destruct (between_finite 0.0 _ 1000.0 eq_refl eq_refl Hp0 Hp1) as (Fp & P0 & P1).
  float_value 1000.0 as V1000. rewrite F2R_0 in P0.
  assert (Flo : finite (4.0 * 1000.0 / 3600.0) = true) by reflexivity.
  assert (Fhi : finite (18.0 * 1000.0 / 3600.0) = true) by reflexivity.
  pose proof (proj1 (leb_finite _ _ Flo Fr) R1) as Q1.
  pose proof (proj1 (leb_finite _ _ Fr Fhi) R2) as Q2.
  assert (Vlo : (1 <= F2R (4.0 * 1000.0 / 3600.0))%R).
  { change (4.0 * 1000.0 / 3600.0) with 1.1111111111111112.
    float_value 1.1111111111111112 as V. lra. }
  exists a', rate.
  split; [assumption |]. split; [assumption |]. split; [assumption |].
  split; [apply mul_le_compat; auto; lra |].
  split; [apply mul_le_compat; auto; lra |].
  split; [assumption |]. rewrite Hp. split.
  - apply add_nonneg_ge; [assumption |].
    apply mul_pos_nonneg; [assumption | lra | assumption].
  - intros Hmin. apply add_increases; [assumption | lra |].
    assert (Vu : F2R 0x1p-43 = bpow (-43)).
    { unfold F2R. change (Prim2SF 0x1p-43) with (S754_finite false 4503599627370496 (-95)).
      simpl SF2R. change 4503599627370496%Z with (2 ^ 52)%Z.
      rewrite dyad_pow by lia. reflexivity. }
    pose proof (bpow_gt_0 (-43)) as Hu.
    destruct (ge_finite_cases dt 0x1p-43 eq_refl Hmin) as [[Ft Ht] | Tinf].
    + apply (mul_bracket rate dt 0x1p-43); auto. nra.
    + apply leb_pinf; [reflexivity |].
      destruct (finite_pos_repr rate Fr ltac:(lra)) as (m & e & Er).
      rewrite mul_spec, Er, Tinf. reflexivity.
Qed.

Lemma position_advances_witness :
  position_ok midlane_vehicle = true /\ (0.0 <? 1.0) = true /\
  reaches_end 1.0 sample_draws midlane_vehicle = false /\
  exists a' rate,
    AGVState.tick midlane_vehicle 1.0 sample_draws = Ok a' /\
    (4.0 * 1000.0 / 3600.0 <=? rate) = true /\
    (rate <=? 18.0 * 1000.0 / 3600.0) = true /\
    (4.0 * 1000.0 / 3600.0 * 1.0 <=? rate * 1.0) = true /\
    (rate * 1.0 <=? 18.0 * 1000.0 / 3600.0 * 1.0) = true /\
    AGVState.position_m a' = AGVState.position_m midlane_vehicle + rate * 1.0 /\
    (AGVState.position_m midlane_vehicle <=? AGVState.position_m a') = true /\
    ((0x1p-43 <=? 1.0) = true ->
     (AGVState.position_m midlane_vehicle <? AGVState.position_m a') = true).
Proof.
  repeat (split; [reflexivity |]).
  apply (position_advances midlane_vehicle 1.0 sample_draws); reflexivity.
Defined.

(** * Further properties of the code *)

(** ** What a tick changes *)

Lemma move_frame dt rnd a :
  AGVState.agv_id (AGVState.move dt rnd a) = AGVState.agv_id a /\
  AGVState.yard_block (AGVState.move dt rnd a) = AGVState.yard_block a /\
  AGVState.lane_id (AGVState.move dt rnd a) = AGVState.lane_id a /\
  AGVState.soc_pct (AGVState.move dt rnd a) = AGVState.soc_pct a /\
  AGVState.job_id (AGVState.move dt rnd a) = AGVState.job_id a /\
  AGVState.load_status (AGVState.move dt rnd a) = AGVState.load_status a.
Proof. repeat split; reflexivity. Qed.

Lemma battery_frame dt rnd c :
  AGVState.agv_id (AGVState.battery dt rnd c) = AGVState.agv_id c /\
  AGVState.yard_block (AGVState.battery dt rnd c) = AGVState.yard_block c /\
  AGVState.lane_id (AGVState.battery dt rnd c) = AGVState.lane_id c /\
  AGVState.position_m (AGVState.battery dt rnd c) = AGVState.position_m c /\
  AGVState.speed_kph (AGVState.battery dt rnd c) = AGVState.speed_kph c /\
  AGVState.job_id (AGVState.battery dt rnd c) = AGVState.job_id c /\
  AGVState.load_status (AGVState.battery dt rnd c) = AGVState.load_status c.
Proof.
  unfold AGVState.battery. cbn [AGVState.soc_pct AGVState.set_soc_pct].
  destruct (AGVState.soc_pct c - AGVState.drain rnd * dt <? 30);
    [destruct (AGVState.recharge_roll rnd <? 0.01) |]; repeat split; reflexivity.
Qed.

(** The lane completion: what it does to the load status, the yard block
    and the lane. *)
Lemma finish_job_fields rnd b :
  exists c,
    AGVState.finish_job rnd b = Ok c /\
    AGVState.agv_id c = AGVState.agv_id b /\
    AGVState.load_status c =
      (if AGVState.flip_roll rnd <? 0.5 then flipped (AGVState.load_status b)
       else AGVState.load_status b) /\
    (if AGVState.reassign_roll rnd <? 0.3 then
       choice YARD_BLOCKS (AGVState.block_pick rnd) = Ok (AGVState.yard_block c) /\
       exists lanes,
         dict_get LANES_BY_BLOCK (AGVState.yard_block c) = Ok lanes /\
         choice lanes (AGVState.lane_pick rnd) = Ok (AGVState.lane_id c)
     else
       AGVState.yard_block c = AGVState.yard_block b /\
       AGVState.lane_id c = AGVState.lane_id b).
Proof.
  unfold AGVState.finish_job, flipped.
  destruct (pick_block_and_lane (AGVState.block_pick rnd) (AGVState.lane_pick rnd))
    as (yb & lanes & lane & Eb & El & Ec & _).
  destruct (AGVState.reassign_roll rnd <? 0.3).
  - rewrite Eb. cbn [bind AGVState.set_yard_block AGVState.yard_block].
    rewrite El. cbn [bind]. rewrite Ec. cbn [bind].
    eexists. split; [reflexivity |].
    destruct (AGVState.flip_roll rnd <? 0.5); cbn; repeat split; eauto.
  - eexists. split; [reflexivity |].
    destruct (AGVState.flip_roll rnd <? 0.5); cbn; repeat split; reflexivity.
Qed.

(** A tick is the movement, then the lane completion when the end of the
    lane is reached, then the battery step. *)
Lemma tick_cases a dt rnd :
  exists a', AGVState.tick a dt rnd = Ok a' /\
    if reaches_end dt rnd a then
      exists c, AGVState.finish_job rnd (AGVState.move dt rnd a) = Ok c /\
                a' = AGVState.battery dt rnd c
    else a' = AGVState.battery dt rnd (AGVState.move dt rnd a).
Proof.
  unfold AGVState.tick, reaches_end.
  destruct (py_ge (AGVState.position_m (AGVState.move dt rnd a)) 1000.0).
  - destruct (finish_job_fields rnd (AGVState.move dt rnd a)) as (c & Ec & _).
    rewrite Ec. cbn [bind]. eexists. split; [reflexivity |]. exists c. auto.
  - cbn [bind]. eexists. split; reflexivity.
Qed.

(** X1: a tick that does not reach the end of the lane leaves the identity,
    the job, the load status, the yard block and the lane of the vehicle as
    they were. *)
Theorem tick_keeps_assignment a dt rnd :
  reaches_end dt rnd a = false ->
  exists a', AGVState.tick a dt rnd = Ok a' /\
    AGVState.agv_id a' = AGVState.agv_id a /\
    AGVState.job_id a' = AGVState.job_id a /\
    AGVState.load_status a' = AGVState.load_status a /\
    AGVState.yard_block a' = AGVState.yard_block a /\
    AGVState.lane_id a' = AGVState.lane_id a.
Proof.
  intros Hend. destruct (tick_cases a dt rnd) as (a' & E & H).
  rewrite Hend in H. subst a'. eexists. split; [exact E |].
  destruct (battery_frame dt rnd (AGVState.move dt rnd a))
    as (B1 & B2 & B3 & _ & _ & B6 & B7).
  destruct (move_frame dt rnd a) as (M1 & M2 & M3 & _ & M5 & M6).
  repeat split; congruence.
Qed.

Lemma tick_keeps_assignment_witness :
  reaches_end 1.0 sample_draws midlane_vehicle = false /\
  exists a', AGVState.tick midlane_vehicle 1.0 sample_draws = Ok a' /\
    AGVState.agv_id a' = AGVState.agv_id midlane_vehicle /\
    AGVState.job_id a' = AGVState.job_id midlane_vehicle /\
    AGVState.load_status a' = AGVState.load_status midlane_vehicle /\
    AGVState.yard_block a' = AGVState.yard_block midlane_vehicle /\
    AGVState.lane_id a' = AGVState.lane_id midlane_vehicle.
Proof.
  split; [reflexivity |].
  apply (tick_keeps_assignment midlane_vehicle 1.0 sample_draws). reflexivity.
Defined.

Lemma flipped_differs s : flipped s <> s.
Proof.
  unfold flipped. destruct (String.eqb s "EMPTY") eqn:E.
  - apply String.eqb_eq in E. subst s. discriminate.
  - apply String.eqb_neq in E. congruence.
Qed.

(** X2: in a tick that reaches the end of the lane, the load status changes
    exactly when the flip roll is below 0.5, to [LOADED] from [EMPTY] and to
    [EMPTY] from anything else; the yard block and the lane are drawn again
    exactly when the reassignment roll is below 0.3, whatever the flip roll
    was, and are kept otherwise. *)
Theorem completion_rolls_independent a dt rnd :
  reaches_end dt rnd a = true ->
  exists a', AGVState.tick a dt rnd = Ok a' /\
    AGVState.load_status a' =
      (if AGVState.flip_roll rnd <? 0.5 then flipped (AGVState.load_status a)
       else AGVState.load_status a) /\
    (AGVState.load_status a' <> AGVState.load_status a <->
     (AGVState.flip_roll rnd <? 0.5) = true) /\
    (if AGVState.reassign_roll rnd <? 0.3 then
       choice YARD_BLOCKS (AGVState.block_pick rnd) = Ok (AGVState.yard_block a') /\
       exists lanes,
         dict_get LANES_BY_BLOCK (AGVState.yard_block a') = Ok lanes /\
         choice lanes (AGVState.lane_pick rnd) = Ok (AGVState.lane_id a')
     else
       AGVState.yard_block a' = AGVState.yard_block a /\
       AGVState.lane_id a' = AGVState.lane_id a).
Proof.
  intros Hend. destruct (tick_cases a dt rnd) as (a' & E & H).
  rewrite Hend in H. destruct H as (c & Ec & ->).
  destruct (finish_job_fields rnd (AGVState.move dt rnd a)) as (c' & Ec' & _ & Hl & Hr).
  assert (c' = c) by congruence. subst c'.
  destruct (battery_frame dt rnd c) as (_ & B2 & B3 & _ & _ & _ & B7).
  destruct (move_frame dt rnd a) as (_ & M2 & M3 & _ & _ & M6).
  rewrite M6 in Hl. rewrite M2, M3 in Hr.
  eexists. split; [exact E |]. rewrite B2, B3, B7, Hl.
  split; [reflexivity |]. split; [| exact Hr].
  destruct (AGVState.flip_roll rnd <? 0.5).
  - split; [reflexivity | intros _; apply flipped_differs].
  - split; [intros H; contradiction H; reflexivity | discriminate].
Qed.

Lemma completion_rolls_independent_witness :
  reaches_end 1.0 sample_draws sample_vehicle = true /\
  exists a', AGVState.tick sample_vehicle 1.0 sample_draws = Ok a' /\
    AGVState.load_status a' =
      (if AGVState.flip_roll sample_draws <? 0.5
       then flipped (AGVState.load_status sample_vehicle)
       else AGVState.load_status sample_vehicle) /\
    (AGVState.load_status a' <> AGVState.load_status sample_vehicle <->
     (AGVState.flip_roll sample_draws <? 0.5) = true) /\
    (if AGVState.reassign_roll sample_draws <? 0.3 then
       choice YARD_BLOCKS (AGVState.block_pick sample_draws)
         = Ok (AGVState.yard_block a') /\
       exists lanes,
         dict_get LANES_BY_BLOCK (AGVState.yard_block a') = Ok lanes /\
         choice lanes (AGVState.lane_pick sample_draws) = Ok (AGVState.lane_id a')
     else
       AGVState.yard_block a' = AGVState.yard_block sample_vehicle /\
       AGVState.lane_id a' = AGVState.lane_id sample_vehicle).
Proof.
  split; [reflexivity |].
  apply (completion_rolls_independent sample_vehicle 1.0 sample_draws). reflexivity.
Defined.

(** ** The load status *)

Lemma flipped_ok s : flipped s = "EMPTY" \/ flipped s = "LOADED".
Proof. unfold flipped. destruct (String.eqb s "EMPTY"); auto. Qed.

Lemma init_vehicle_ok agv_id init :
  exists a, AGVState.__init__ agv_id init = Ok a /\ vehicle_ok a = true.
Proof.
  unfold AGVState.__init__.
  destruct (pick_block_and_lane (AGVState.init_block init) (AGVState.init_lane init))
    as (yb & lanes & lane & Eb & El & Ec & Hin).
  rewrite Eb. cbn [bind]. rewrite El. cbn [bind]. rewrite Ec. cbn [bind].
  assert (Hload : choice ["EMPTY"; "LOADED"] (AGVState.init_load init) = Ok "EMPTY" \/
                  choice ["EMPTY"; "LOADED"] (AGVState.init_load init) = Ok "LOADED").
  { unfold choice. cbn [List.length]. pick_cases (AGVState.init_load init) 2%nat; auto. }
  destruct Hload as [Hl | Hl]; rewrite Hl; cbn [bind];
    (eexists; split; [reflexivity |]);
    unfold vehicle_ok, lane_ok, load_ok;
    cbn [AGVState.yard_block AGVState.lane_id AGVState.load_status];
    rewrite El, Hin; reflexivity.
Qed.

Lemma tick_vehicle_ok a dt rnd :
  vehicle_ok a = true ->
  exists a', AGVState.tick a dt rnd = Ok a' /\ vehicle_ok a' = true /\
             speed_ok a' = true.
Proof.
  unfold vehicle_ok. rewrite andb_true_iff. intros [Hlane Hload].
  destruct (tick_total a dt rnd) as (a' & E & _ & Hl & _).
  exists a'. split; [exact E |]. split; [| eapply tick_speed_ok; exact E].
  rewrite (Hl Hlane). cbn [andb].
  destruct (tick_cases a dt rnd) as (a2 & E2 & H).
  assert (a2 = a') by congruence. subst a2.
  destruct (move_frame dt rnd a) as (_ & _ & _ & _ & _ & M6).
  destruct (reaches_end dt rnd a).
  - destruct H as (c & Ec & ->).
    destruct (finish_job_fields rnd (AGVState.move dt rnd a)) as (c' & Ec' & _ & Hs & _).
    assert (c' = c) by congruence. subst c'.
    destruct (battery_frame dt rnd c) as (_ & _ & _ & _ & _ & _ & B7).
    unfold load_ok. rewrite B7, Hs, M6.
    destruct (AGVState.flip_roll rnd <? 0.5); [| exact Hload].
    destruct (flipped_ok (AGVState.load_status a)) as [-> | ->]; reflexivity.
  - subst a'.
    destruct (battery_frame dt rnd (AGVState.move dt rnd a)) as (_ & _ & _ & _ & _ & _ & B7).
    unfold load_ok. rewrite B7, M6. exact Hload.
Qed.

Lemma run_ticks_vehicle_ok steps : forall a,
  vehicle_ok a = true ->
  exists a', run_ticks steps a = Ok a' /\ vehicle_ok a' = true.
Proof.
  induction steps as [| [dt rnd] steps IH]; intros a Ha.
  - exists a. split; [reflexivity | assumption].
  - destruct (tick_vehicle_ok a dt rnd Ha) as (b & Eb & Hb & _).
    destruct (IH b Hb) as (c & Ec & Hc).
    exists c. cbn [run_ticks]. rewrite Eb. cbn [bind]. auto.
Qed.

(** X3: at creation and after any run of ticks, the load status of a
    vehicle is [EMPTY] or [LOADED]. *)
Theorem load_status_is_known agv_id init steps :
  exists a,
    (a0 <- AGVState.__init__ agv_id init ;; run_ticks steps a0) = Ok a /\
    (AGVState.load_status a = "EMPTY" \/ AGVState.load_status a = "LOADED").
Proof.
  destruct (init_vehicle_ok agv_id init) as (a0 & E0 & H0).
  destruct (run_ticks_vehicle_ok steps a0 H0) as (a & Ea & Ha).
  exists a. rewrite E0. cbn [bind]. split; [exact Ea |].
  unfold vehicle_ok, load_ok in Ha. rewrite !andb_true_iff, orb_true_iff in Ha.
  destruct Ha as [_ [H | H]]; apply String.eqb_eq in H; auto.
Qed.

(** ** The fleet and its batches *)

Lemma to_doc_ok py a now :
  vehicle_ok a = true -> doc_ok (AGVState.to_doc (round py) a now) = true.
Proof.
  unfold vehicle_ok, lane_ok, load_ok, doc_ok, AGVState.to_doc.
  cbn [Doc.mode Doc.load_status Doc.yard_block Doc.lane_id].
  rewrite andb_true_iff. intros [Hlane Hload]. rewrite Hload, Hlane. reflexivity.
Qed.

Lemma create_fleet_ok rnd ids : forall i,
  exists agvs, create_fleet rnd i ids = Ok agvs /\
               Forall (fun a => vehicle_ok a = true) agvs.
Proof.
  induction ids as [| agv_id ids IH]; intros i.
  - exists []. split; [reflexivity | constructor].
  - destruct (init_vehicle_ok agv_id (rnd i)) as (a & Ea & Ha).
    destruct (IH (S i)) as (agvs & Eagvs & Hagvs).
    exists (a :: agvs). cbn [create_fleet]. rewrite Ea. cbn [bind].
    rewrite Eagvs. cbn [bind]. split; [reflexivity | constructor; assumption].
Qed.

Lemma tick_fleet_ok py dt rnd now agvs : forall i,
  Forall (fun a => vehicle_ok a = true) agvs ->
  exists agvs' docs,
    tick_fleet py dt rnd now i agvs = Ok (agvs', docs) /\
    Forall (fun a => vehicle_ok a = true) agvs' /\
    Forall (fun a => speed_ok a = true) agvs' /\
    Forall (fun d => doc_ok d = true) docs.
Proof.
  induction agvs as [| a agvs IH]; intros i Hok.
  - exists [], []. repeat split; constructor.
  - inversion Hok as [| ? ? Ha Hrest]; subst.
    destruct (tick_vehicle_ok a dt (rnd i) Ha) as (a' & Ea & Hv & Hs).
    destruct (IH (S i) Hrest) as (agvs' & docs & E & H1 & H2 & H3).
    exists (a' :: agvs'), (AGVState.to_doc (round py) a' (now i) :: docs).
    cbn [tick_fleet]. rewrite Ea. cbn [bind]. rewrite E. cbn [bind fst snd].
    repeat split; try constructor; try assumption. apply to_doc_ok. assumption.
Qed.

Lemma loop_ok py cfg start its : forall agvs tick sent,
  Forall (fun a => vehicle_ok a = true) agvs ->
  Forall (Forall (fun d => doc_ok d = true)) sent ->
  let r := loop py cfg start its agvs tick sent in
  Forall (fun a => vehicle_ok a = true) (fleet r) /\
  Forall (Forall (fun d => doc_ok d = true)) (batches r) /\
  (Forall (fun a => speed_ok a = true) agvs \/ batches r <> sent ->
   Forall (fun a => speed_ok a = true) (fleet r)) /\
  (List.length sent <= List.length (batches r))%nat.
Proof.
  induction its as [| it its IH]; intros agvs tick sent Hv Hd.
  - cbn. repeat split; auto. intros [H | H]; [assumption | congruence].
  - cbn [loop].
    destruct (clock it - start <? float_of_int (DURATION_SEC cfg)).
    2:{ cbn. repeat split; auto. intros [H | H]; [assumption | congruence]. }
    destruct (tick_fleet_ok py (TICK_INTERVAL_SEC cfg) (draws it) (stamps it) agvs 0%nat Hv)
      as (agvs' & docs & E & H1 & H2 & H3).
    rewrite E.
    assert (Hd' : Forall (Forall (fun d => doc_ok d = true)) (sent ++ [docs])).
    { apply Forall_app. split; [assumption | constructor; [assumption | constructor]]. }
    assert (Hlen : (List.length sent <= List.length (sent ++ [docs]))%nat).
    { rewrite length_app. lia. }
    destruct (bulk_index py cfg (INDEX_NAME cfg) docs (response it));
      [| cbn; repeat split; auto].
    destruct (slept it); [| cbn; repeat split; auto].
    destruct (IH agvs' (tick + 1)%Z (sent ++ [docs])%list H1 Hd') as (I1 & I2 & I3 & I4).
    repeat split; auto. lia.
Qed.

(** X4: every record of every batch that [main] hands to the publisher
    carries the mode [BAU], a load status that is [EMPTY] or [LOADED], and a
    lane that belongs to the yard block of the record. *)
Theorem published_records_are_consistent py cfg w :
  Forall (Forall (fun d => doc_ok d = true)) (batches (main py cfg w)).
Proof.
  unfold main.
  destruct (negb (truthy (ES_URL cfg)) || negb (truthy (ES_API_KEY cfg)));
    [constructor |].
  destruct (create_fleet_ok (init_draws w) AGV_IDS 0%nat) as (agvs & E & Hok).
  rewrite E.
  apply (loop_ok py cfg (start_time w) (iterations w) agvs 0%Z [] Hok (Forall_nil _)).
Qed.

(** X5: however a run of [main] ends, every vehicle of its fleet has a lane
    of its yard block and a load status of the two; and once a batch has
    been built, every vehicle has its speed in [4.0, 18.0]. *)
Theorem fleet_is_consistent py cfg w :
  Forall (fun a => lane_ok a = true /\ load_ok a = true) (fleet (main py cfg w)) /\
  (batches (main py cfg w) = [] \/
   Forall (fun a => speed_ok a = true) (fleet (main py cfg w))).
Proof.
  unfold main.
  destruct (negb (truthy (ES_URL cfg)) || negb (truthy (ES_API_KEY cfg)));
    [split; [constructor | left; reflexivity] |].
  destruct (create_fleet_ok (init_draws w) AGV_IDS 0%nat) as (agvs & E & Hok).
  rewrite E.
  destruct (loop_ok py cfg (start_time w) (iterations w) agvs 0%Z [] Hok (Forall_nil _))
    as (H1 & _ & H3 & _).
  split.
  - eapply Forall_impl; [| exact H1]. intros a Ha.
    unfold vehicle_ok in Ha. apply andb_true_iff in Ha. exact Ha.
  - destruct (batches (loop py cfg (start_time w) (iterations w) agvs 0 [])) eqn:Eb;
      [left; reflexivity | right]. apply H3. right. discriminate.
Qed.

Lemma tick_fleet_nth py dt rnd now agvs : forall i,
  exists agvs' docs,
    tick_fleet py dt rnd now i agvs = Ok (agvs', docs) /\
    forall k a, nth_error agvs k = Some a ->
      exists a', AGVState.tick a dt (rnd (i + k)%nat) = Ok a' /\
                 nth_error agvs' k = Some a' /\
                 nth_error docs k
                   = Some (AGVState.to_doc (round py) a' (now (i + k)%nat)).
Proof.
  induction agvs as [| a agvs IH]; intros i.
  - exists [], []. split; [reflexivity |]. intros [| k] b Hb; discriminate.
  - destruct (tick_total a dt (rnd i)) as (a' & Ea & _).
    destruct (IH (S i)) as (agvs' & docs & E & Hk).
    exists (a' :: agvs'), (AGVState.to_doc (round py) a' (now i) :: docs).
    cbn [tick_fleet]. rewrite Ea. cbn [bind]. rewrite E. cbn [bind fst snd].
    split; [reflexivity |]. intros [| k] b Hb.
    + cbn in Hb. injection Hb as <-. exists a'. rewrite Nat.add_0_r. auto.
    + cbn [nth_error] in *. destruct (Hk k b Hb) as (b' & H1 & H2 & H3).
      exists b'. rewrite Nat.add_succ_r. auto.
Qed.

(** ** The publisher *)

Lemma bulk_index_raises py cfg index docs response e :
  bulk_index py cfg index docs response = Raise e ->
  docs <> [] /\ publish_fails response e.
Proof.
  unfold bulk_index, publish_fails. destruct docs as [| doc docs]; [discriminate |].
  intros H. split; [discriminate |].
  destruct response as [status | e']; cbn [bind] in H.
  - unfold raise_for_status in H.
    destruct ((400 <=? status) && (status <? 600))%Z eqn:Hs; cbn [bind] in H;
      [| discriminate].
    injection H as <-. right. exists status.
    apply andb_true_iff in Hs. destruct Hs as [H1 H2].
    apply Z.leb_le in H1. apply Z.ltb_lt in H2. repeat split; auto.
  - injection H as <-. left. reflexivity.
Qed.

Lemma string_app_assoc (a b c : string) : (a ++ b) ++ c = a ++ b ++ c.
Proof.
  induction a as [| x a IH]; [reflexivity |].
  cbn [String.append]. rewrite IH. reflexivity.
Qed.

Lemma string_app_nil_r (a : string) : a ++ EmptyString = a.
Proof.
  induction a as [| x a IH]; [reflexivity |].
  cbn [String.append]. rewrite IH. reflexivity.
Qed.

Lemma concat_cons2 sep (x y : string) l :
  String.concat sep (x :: y :: l) = x ++ sep ++ String.concat sep (y :: l).
Proof. reflexivity. Qed.

Lemma concat_chunks (x : string) l :
  String.concat EmptyString (x :: l) = x ++ String.concat EmptyString l.
Proof.
  destruct l as [| y l]; [| reflexivity].
  cbn [String.concat]. rewrite string_app_nil_r. reflexivity.
Qed.

Lemma ndjson_cons py doc docs :
  ndjson py (doc :: docs)
  = index_action ++ newline ++ json_dumps py doc ++ newline ++ ndjson py docs.
Proof.
  unfold ndjson. cbn [map]. rewrite concat_chunks, !string_app_assoc. reflexivity.
Qed.

Lemma ndjson_body py doc docs :
  String.concat newline
    (flat_map (fun d => [index_action; json_dumps py d]) (doc :: docs)) ++ newline
  = ndjson py (doc :: docs).
Proof.
  revert doc. induction docs as [| d docs IH]; intros doc.
  - rewrite ndjson_cons.
    change (flat_map (fun d => [index_action; json_dumps py d]) [doc])
      with [index_action; json_dumps py doc].
    rewrite concat_cons2. unfold ndjson. cbn [map String.concat].
    rewrite !string_app_assoc, string_app_nil_r. reflexivity.
  - rewrite ndjson_cons, <- (IH d).
    change (flat_map (fun d0 => [index_action; json_dumps py d0]) (doc :: d :: docs))
      with (index_action :: json_dumps py doc :: index_action :: json_dumps py d
            :: flat_map (fun d0 => [index_action; json_dumps py d0]) docs).
    change (flat_map (fun d0 => [index_action; json_dumps py d0]) (d :: docs))
      with (index_action :: json_dumps py d
            :: flat_map (fun d0 => [index_action; json_dumps py d0]) docs).
    rewrite (concat_cons2 newline index_action (json_dumps py doc)).
    rewrite (concat_cons2 newline (json_dumps py doc) index_action).
    rewrite !string_app_assoc. reflexivity.
Qed.

(** X7: [bulk_index] posts nothing for an empty batch, whatever the
    transport would answer; for a batch that is not empty it raises exactly
    the failure of the transport (the exception of the post, or the HTTP error
    of a status from 400 to 599), and otherwise it has posted, to the bulk
    endpoint of the index, a body of two lines per record, each closed by a
    newline. *)
Theorem bulk_index_outcome py cfg index docs response :
  match bulk_index py cfg index docs response with
  | Ok None => docs = []
  | Ok (Some req) =>
    docs <> [] /\
    (exists status, response = Ok status /\ ~ (400 <= status < 600)%Z) /\
    data req = ndjson py docs /\
    url req = str_opt (ES_URL cfg) ++ "/" ++ index ++ "/_bulk"
  | Raise e => docs <> [] /\ publish_fails response e
  end.
Proof.
  destruct (bulk_index py cfg index docs response) as [[req |] | e] eqn:E.
  - unfold bulk_index in E. destruct docs as [| doc docs]; [discriminate |].
    split; [discriminate |].
    destruct response as [status | e']; cbn [bind] in E; [| discriminate].
    unfold raise_for_status in E.
    destruct ((400 <=? status) && (status <? 600))%Z eqn:Hs; cbn [bind] in E;
      [discriminate |].
    injection E as <-. cbn [data url]. split; [| split; [apply ndjson_body | reflexivity]].
    exists status. split; [reflexivity |]. intros [H1 H2].
    apply Z.leb_le in H1. apply Z.ltb_lt in H2. rewrite H1, H2 in Hs. discriminate.
  - unfold bulk_index in E. destruct docs as [| doc docs]; [reflexivity |].
    destruct response as [status | e']; cbn [bind] in E; [| discriminate].
    destruct (raise_for_status status); cbn [bind] in E; discriminate.
  - eapply bulk_index_raises. exact E.
Qed.

Lemma split_lines_line s t :
  no_newline s = true -> split_lines (s ++ newline ++ t) = s :: split_lines t.
Proof.
  induction s as [| c s IH]; intros Hs.
  - reflexivity.
  - cbn [no_newline] in Hs. apply andb_true_iff in Hs. destruct Hs as [Hc Hs].
    apply negb_true_iff in Hc.
    cbn [String.append split_lines]. rewrite Hc.
    change (String.append s (String.append newline t)) with (s ++ newline ++ t).
    rewrite (IH Hs). reflexivity.
Qed.

(** X8: when [json.dumps] returns texts without a newline, the body built
    for a batch splits at its newlines into the lines it was built from, an
    index action before every record, followed by one empty text: the body
    ends with a newline. *)
Theorem body_splits_into_its_lines py docs :
  (forall d, no_newline (json_dumps py d) = true) ->
  split_lines (ndjson py docs)
  = (flat_map (fun d => [index_action; json_dumps py d]) docs ++ [EmptyString])%list.
Proof.
  intros Hjson. induction docs as [| d docs IH].
  - reflexivity.
  - rewrite ndjson_cons.
    rewrite split_lines_line by reflexivity.
    rewrite split_lines_line by apply Hjson.
    rewrite IH. reflexivity.
Qed.

Lemma body_splits_into_its_lines_witness :
  (forall d, no_newline (json_dumps plain_py d) = true) /\
  split_lines (ndjson plain_py [AGVState.to_doc (round plain_py) sample_vehicle "t0"])
  = [index_action; "{}"; EmptyString].
Proof.
  assert (H : forall d, no_newline (json_dumps plain_py d) = true)
    by (intros d; reflexivity).
  split; [exact H |].
  apply (body_splits_into_its_lines plain_py
           [AGVState.to_doc (round plain_py) sample_vehicle "t0"] H).
Defined.

(** ** The driver loop *)

Lemma main_configured py cfg w :
  main py cfg w =
  if configured cfg then
    match create_fleet (init_draws w) 0 AGV_IDS with
    | Raise e => Build_Run (Aborted e) 0 [] []
    | Ok agvs => loop py cfg (start_time w) (iterations w) agvs 0 []
    end
  else
    Build_Run
      (Aborted (SystemExit "ES_URL and ES_API_KEY must be set as environment variables"))
      0 [] [].
Proof.
  unfold main, configured.
  destruct (truthy (ES_URL cfg)), (truthy (ES_API_KEY cfg)); reflexivity.
Qed.

Lemma loop_fleet_ids py cfg start its : forall agvs tick sent,
  map AGVState.agv_id (fleet (loop py cfg start its agvs tick sent))
  = map AGVState.agv_id agvs.
Proof.
  induction its as [| it its IH]; intros agvs tick sent; [reflexivity |].
  cbn [loop].
  destruct (clock it - start <? float_of_int (DURATION_SEC cfg)); [| reflexivity].
  destruct (tick_fleet_ids py (TICK_INTERVAL_SEC cfg) (draws it) (stamps it) agvs 0%nat)
    as (agvs' & docs & E & H1 & _).
  rewrite E.
  destruct (bulk_index py cfg (INDEX_NAME cfg) docs (response it)); [| exact H1].
  destruct (slept it); [| exact H1].
  rewrite IH. exact H1.
Qed.

(** X9: [main] tests the configuration before anything else.  When the URL
    or the API key is missing or empty, it raises [SystemExit] with no
    vehicle created, no tick and no batch; otherwise the fleet of the run,
    however the run ends, is the ten vehicles AGV-01 to AGV-10, in this
    order. *)
Theorem main_checks_configuration py cfg w :
  if truthy (ES_URL cfg) && truthy (ES_API_KEY cfg) then
    map AGVState.agv_id (fleet (main py cfg w))
    = ["AGV-01"; "AGV-02"; "AGV-03"; "AGV-04"; "AGV-05";
       "AGV-06"; "AGV-07"; "AGV-08"; "AGV-09"; "AGV-10"]
  else
    main py cfg w =
    Build_Run
      (Aborted (SystemExit "ES_URL and ES_API_KEY must be set as environment variables"))
      0 [] [].
Proof.
  rewrite main_configured. unfold configured.
  destruct (truthy (ES_URL cfg) && truthy (ES_API_KEY cfg)); [| reflexivity].
  destruct (create_fleet_ids (init_draws w) AGV_IDS 0%nat) as (agvs & E & Hids).
  rewrite E, loop_fleet_ids, Hids. reflexivity.
Qed.

(** How a run of the loop ends, and what its tick counter is then. *)
Lemma loop_outcome py cfg start its : forall agvs tick sent,
  let r := loop py cfg start its agvs tick sent in
  let n := (Z.of_nat (List.length (batches r)) - Z.of_nat (List.length sent))%Z in
  match ended r with
  | Finished msg =>
    ticks r = (tick + n)%Z /\
    msg = "Simulation finished after " ++ str_int (ticks r) ++ " ticks"
  | Unfinished => ticks r = (tick + n)%Z
  | Aborted e =>
    exists it, In it its /\
      ((publish_fails (response it) e /\ (ticks r + 1 = tick + n)%Z) \/
       (slept it = Raise e /\ ticks r = (tick + n)%Z))
  end.
Proof.
  induction its as [| it its IH]; intros agvs tick sent.
  - cbn. lia.
  - cbn [loop].
    destruct (clock it - start <? float_of_int (DURATION_SEC cfg)).
    2:{ cbn. split; [lia | reflexivity]. }
    destruct (tick_fleet_ids py (TICK_INTERVAL_SEC cfg) (draws it) (stamps it) agvs 0%nat)
      as (agvs' & docs & E & _).
    rewrite E.
    destruct (bulk_index py cfg (INDEX_NAME cfg) docs (response it)) as [req | e] eqn:Eb.
    + destruct (slept it) as [[] | e] eqn:Es.
      * specialize (IH agvs' (tick + 1)%Z (sent ++ [docs])%list).
        cbv zeta in IH |- *. rewrite length_app in IH. cbn [List.length] in IH.
        destruct (ended (loop py cfg start its agvs' (tick + 1) (sent ++ [docs]))).
        -- destruct IH as [I1 I2]. split; [lia | exact I2].
        -- destruct IH as (it' & Hin & H). exists it'. split; [right; exact Hin |].
           destruct H as [[H1 H2] | [H1 H2]]; [left | right]; split; auto; lia.
        -- lia.
      * cbn. exists it. split; [left; reflexivity |]. right. split; [exact Es |].
        rewrite length_app. cbn [List.length]. lia.
    + cbn. exists it. split; [left; reflexivity |]. left.
      apply bulk_index_raises in Eb. split; [apply Eb |].
      rewrite length_app. cbn [List.length]. lia.
Qed.

(** X10: when [main] prints its message, the count in the message is the
    tick counter, and it is the number of batches that were handed to the
    publisher. *)
Theorem printed_count_is_batch_count py cfg w msg :
  ended (main py cfg w) = Finished msg ->
  ticks (main py cfg w) = Z.of_nat (List.length (batches (main py cfg w))) /\
  msg = "Simulation finished after " ++
        str_int (Z.of_nat (List.length (batches (main py cfg w)))) ++ " ticks".
Proof.
  rewrite main_configured.
  destruct (configured cfg); [| discriminate].
  destruct (create_fleet (init_draws w) 0 AGV_IDS) as [agvs | e]; [| discriminate].
  pose proof (loop_outcome py cfg (start_time w) (iterations w) agvs 0%Z []) as H.
  cbv zeta in H. intros E. rewrite E in H. cbn [List.length] in H.
  destruct H as [H1 H2].
  assert (Ht : ticks (loop py cfg (start_time w) (iterations w) agvs 0 [])
               = Z.of_nat (List.length (batches (loop py cfg (start_time w) (iterations w) agvs 0 []))))
    by lia.
  split; [exact Ht |]. rewrite <- Ht. exact H2.
Qed.

Lemma printed_count_is_batch_count_witness :
  ended (main sample_py sample_cfg finishing_world)
    = Finished "Simulation finished after 2 ticks" /\
  ticks (main sample_py sample_cfg finishing_world)
    = Z.of_nat (List.length (batches (main sample_py sample_cfg finishing_world))) /\
  "Simulation finished after 2 ticks"
    = "Simulation finished after " ++
      str_int (Z.of_nat (List.length (batches (main sample_py sample_cfg finishing_world))))
      ++ " ticks".
Proof.
  assert (E : ended (main sample_py sample_cfg finishing_world)
              = Finished "Simulation finished after 2 ticks") by (vm_compute; reflexivity).
  split; [exact E |].
  apply (printed_count_is_batch_count sample_py sample_cfg finishing_world _ E).
Defined.

(** X11: an exception leaves [main] in three cases only.  It is the
    [SystemExit] of a missing configuration; or it is the failure of the
    publish step of some iteration, and then the last batch built is not
    counted as a tick; or it is the exception of the sleep of some
    iteration, and then every batch built is counted.  No lookup or choice
    of the vehicle model raises. *)
Theorem abort_origin py cfg w e :
  ended (main py cfg w) = Aborted e ->
  (configured cfg = false /\
   e = SystemExit "ES_URL and ES_API_KEY must be set as environment variables" /\
   ticks (main py cfg w) = 0%Z /\ batches (main py cfg w) = []) \/
  (configured cfg = true /\
   exists it, In it (iterations w) /\
     ((publish_fails (response it) e /\
       (ticks (main py cfg w) + 1)%Z
       = Z.of_nat (List.length (batches (main py cfg w)))) \/
      (slept it = Raise e /\
       ticks (main py cfg w)
       = Z.of_nat (List.length (batches (main py cfg w)))))).
Proof.
  rewrite main_configured.
  destruct (configured cfg).
  - destruct (create_fleet_ids (init_draws w) AGV_IDS 0%nat) as (agvs & E & _).
    rewrite E. intros He. right. split; [reflexivity |].
    pose proof (loop_outcome py cfg (start_time w) (iterations w) agvs 0%Z []) as H.
    cbv zeta in H. rewrite He in H. cbn [List.length] in H.
    destruct H as (it & Hin & H). exists it. split; [exact Hin |].
    destruct H as [[H1 H2] | [H1 H2]]; [left | right]; split; auto; lia.
  - cbn. intros He. injection He as <-. left. auto.
Qed.

Lemma abort_origin_witness :
  ended (main sample_py sample_cfg failing_world) = Aborted (HTTPError 503) /\
  ((configured sample_cfg = false /\
    HTTPError 503
    = SystemExit "ES_URL and ES_API_KEY must be set as environment variables" /\
    ticks (main sample_py sample_cfg failing_world) = 0%Z /\
    batches (main sample_py sample_cfg failing_world) = []) \/
   (configured sample_cfg = true /\
    exists it, In it (iterations failing_world) /\
      ((publish_fails (response it) (HTTPError 503) /\
        (ticks (main sample_py sample_cfg failing_world) + 1)%Z
        = Z.of_nat (List.length (batches (main sample_py sample_cfg failing_world)))) \/
       (slept it = Raise (HTTPError 503) /\
        ticks (main sample_py sample_cfg failing_world)
        = Z.of_nat (List.length (batches (main sample_py sample_cfg failing_world))))))).
Proof.
  assert (E : ended (main sample_py sample_cfg failing_world) = Aborted (HTTPError 503))
    by (vm_compute; reflexivity).
  split; [exact E |].
  apply (abort_origin sample_py sample_cfg failing_world _ E).
Defined.

Lemma bulk_index_uneventful py cfg index docs it :
  uneventful it = true ->
  (exists o, bulk_index py cfg index docs (response it) = Ok o) /\ slept it = Ok tt.
Proof.
  unfold uneventful, bulk_index.
  destruct (response it) as [status | e]; [| discriminate].
  destruct (slept it) as [[] | e]; [| discriminate].
  intros Hs. apply negb_true_iff in Hs. split; [| reflexivity].
  destruct docs as [| doc docs]; [eexists; reflexivity |].
  cbn [bind]. unfold raise_for_status. rewrite Hs. cbn [bind]. eexists; reflexivity.
Qed.

Lemma loop_clean py cfg start last rest : forall its agvs tick sent,
  forallb (fun it => within_duration cfg start it && uneventful it) its = true ->
  within_duration cfg start last = false ->
  let r := loop py cfg start (its ++ last :: rest) agvs tick sent in
  ended r = Finished ("Simulation finished after " ++
                      str_int (tick + Z.of_nat (List.length its)) ++ " ticks") /\
  ticks r = (tick + Z.of_nat (List.length its))%Z /\
  List.length (batches r) = (List.length sent + List.length its)%nat.
Proof.
  unfold within_duration.
  induction its as [| it its IH]; intros agvs tick sent Hits Hlast.
  - change (([] ++ last :: rest)%list) with (last :: rest).
    cbn [loop List.length]. rewrite Hlast. cbn.
    rewrite Z.add_0_r, Nat.add_0_r. auto.
  - cbn [forallb] in Hits. rewrite !andb_true_iff in Hits.
    destruct Hits as [[Hin Hun] Hits].
    change (((it :: its) ++ last :: rest)%list) with (it :: (its ++ last :: rest))%list.
    cbn [loop]. rewrite Hin.
    destruct (tick_fleet_ids py (TICK_INTERVAL_SEC cfg) (draws it) (stamps it) agvs 0%nat)
      as (agvs' & docs & E & _).
    rewrite E.
    destruct (bulk_index_uneventful py cfg (INDEX_NAME cfg) docs it Hun) as [[o Eo] Es].
    rewrite Eo, Es.
    destruct (IH agvs' (tick + 1)%Z (sent ++ [docs])%list Hits Hlast) as (H1 & H2 & H3).
    rewrite length_app in H3. cbn [List.length] in *.
    replace (tick + Z.of_nat (S (List.length its)))%Z
      with (tick + 1 + Z.of_nat (List.length its))%Z by lia.
    repeat split; try assumption. lia.
Qed.

(** X12: when the configuration is set, the clock readings of the first [n]
    loop tests are within the duration, their posts and sleeps raise
    nothing, and the next reading is not within the duration, [main] prints
    that it finished after [n] ticks, with [n] batches handed to the
    publisher. *)
Theorem uneventful_run_counts py cfg w its last rest :
  configured cfg = true ->
  iterations w = (its ++ last :: rest)%list ->
  forallb (fun it => within_duration cfg (start_time w) it && uneventful it) its
    = true ->
  within_duration cfg (start_time w) last = false ->
  ended (main py cfg w)
    = Finished ("Simulation finished after " ++
                str_int (Z.of_nat (List.length its)) ++ " ticks") /\
  ticks (main py cfg w) = Z.of_nat (List.length its) /\
  List.length (batches (main py cfg w)) = List.length its.
Proof.
  intros Hc Hw Hits Hlast. rewrite main_configured, Hc, Hw.
  destruct (create_fleet_ids (init_draws w) AGV_IDS 0%nat) as (agvs & E & _).
  rewrite E.
  apply (loop_clean py cfg (start_time w) last rest its agvs 0%Z [] Hits Hlast).
Qed.

Lemma uneventful_run_counts_witness :
  ended (main sample_py sample_cfg finishing_world)
    = Finished ("Simulation finished after " ++ str_int 2 ++ " ticks") /\
  ticks (main sample_py sample_cfg finishing_world) = 2%Z /\
  List.length (batches (main sample_py sample_cfg finishing_world)) = 2%nat.
Proof.
  apply (uneventful_run_counts sample_py sample_cfg finishing_world
           [ sample_iteration 100.0 "t0" (Ok 200%Z);
             sample_iteration 101.0 "t1" (Ok 201%Z) ]
           (sample_iteration 800.0 "t2" (Ok 200%Z)) []); reflexivity.
Defined.

(** ** The duration of a run *)

Section IntegerToFloat.

Local Open Scope Z_scope.

(** The rounding returns a binary64 number. *)
Lemma round_aux_valid s m e l :
  0 <= m -> e <= fexp64 (Zdigits2 m + e) ->
  valid_binary (binary_round_aux prec emax s m e l) = true.
Proof.
  intros Hm0 He.
  destruct (round_aux_spec s m e l Hm0 He) as (m2' & _ & _ & Hm1 & Hnorm & He1 & _).
  destruct (shr_fexp_spec m e l Hm0 He) as (mrs & Hshr & Hmrs & _).
  set (e1 := fexp64 (Zdigits2 m + e)) in *.
  set (m1 := m / 2 ^ (e1 - e)) in *.
  set (m2 := round_nearest_even (shr_m mrs) (loc_of_shr_record mrs)).
  assert (Hm2 : m2 = m1 \/ m2 = m1 + 1).
  { unfold m2. rewrite Hmrs. apply round_nearest_even_cases. }
  unfold binary_round_aux. rewrite Hshr. fold m2.
  destruct (Z.eq_dec m2 (2 ^ 53)) as [Hcarry | Hnocarry].
  - rewrite Hcarry.
    assert (E : shr_fexp prec emax (2 ^ 53) e1 loc_Exact
                = (Build_shr_record (2 ^ 52) false false, e1 + 1)).
    { unfold shr_fexp. change (Zdigits2 (2 ^ 53)) with 54. rewrite fexp64_eq.
      replace (Z.max (54 + e1 - 53) (-1074) - e1) with 1 by lia. reflexivity. }
    rewrite E. cbn [shr_m]. change (2 ^ 52) with (Z.pos (2 ^ 52)).
    destruct (e1 + 1 <=? emax - prec) eqn:Hov; [| reflexivity].
    apply Z.leb_le in Hov. change (emax - prec) with 971 in Hov.
    apply valid_of_bounds; [reflexivity | right; reflexivity | lia].
  - assert (Hlt : m2 < 2 ^ 53) by lia.
    destruct m2 as [| q | q] eqn:Em2; try lia.
    + rewrite shr_fexp_noshift; [reflexivity |].
      simpl Zdigits2. rewrite fexp64_eq. lia.
    + rewrite shr_fexp_noshift.
      2:{ simpl Zdigits2. rewrite fexp64_eq.
          pose proof (digits2_pos_le q 53 Hlt). lia. }
      rewrite shr_record_of_loc_m.
      destruct (e1 <=? emax - prec) eqn:Hov; [| reflexivity].
      apply Z.leb_le in Hov. change (emax - prec) with 971 in Hov.
      apply valid_of_bounds; [assumption | lia | lia].
Qed.

Lemma binary_normalize_valid m :
  valid_binary (binary_normalize prec emax m 0 false) = true.
Proof.
  assert (H : forall s p, valid_binary (binary_round prec emax s p 0) = true).
  { intros s p. unfold binary_round.
    destruct (shl_align_spec p 0 (fexp64 (Z.pos (digits2_pos p) + 0))) as (_ & Ee & Ed).
    destruct (shl_align p 0 (fexp64 (Z.pos (digits2_pos p) + 0))) as [pz ez].
    cbn [fst snd] in *.
    apply round_aux_valid; [lia |]. simpl Zdigits2. rewrite Ed. lia. }
  destruct m as [| p | p]; [reflexivity | apply H | apply H].
Qed.

End IntegerToFloat.

(** An integer that is not positive converts to a float that is not
    positive. *)
Lemma float_of_int_nonpos n : (n <= 0)%Z -> (float_of_int n <=? 0) = true.
Proof.
  intros Hn. unfold float_of_int.
  pose proof (binary_normalize_valid n) as V.
  rewrite leb_spec, Prim2SF_SF2Prim by exact V.
  apply (binary_normalize_bracket n 0 (Prim2SF 0)); [exact V | reflexivity | reflexivity |].
  change (SF2R (Prim2SF 0)) with 0%R. unfold dyad.
  change (bpow 0) with 1%R. apply IZR_le in Hn. lra.
Qed.

Lemma leb_via_zero x z :
  (x <=? 0) = true -> (0 <=? z) = true -> (x <=? z) = true.
Proof.
  intros Hx Hz.
  destruct (le_finite_cases x 0 finite_0 Hx) as [[Fx Hx0] | Xinf];
    destruct (ge_finite_cases z 0 finite_0 Hz) as [[Fz Hz0] | Zinf].
  - apply leb_finite; auto. rewrite F2R_0 in *. lra.
  - apply leb_pinf; assumption.
  - apply leb_ninf; assumption.
  - rewrite leb_spec, Xinf, Zinf. reflexivity.
Qed.

(** The time elapsed since a start that is not after the clock is never
    below a bound that is not positive. *)
Lemma elapsed_not_below now start bound :
  (start <=? now) = true -> (bound <=? 0) = true -> (now - start <? bound) = false.
Proof.
  intros Hle Hb.
  destruct (finite now) eqn:Fn; [destruct (finite start) eqn:Fs |].
  - apply leb_not_ltb. apply leb_via_zero; [assumption |].
    apply (sub_bracket now start 0); auto using finite_0.
    rewrite F2R_0. apply (leb_finite start now) in Hle; auto. lra.
  - rewrite ltb_spec, sub_spec. rewrite leb_spec in Hle. unfold finite in Fn, Fs.
    destruct (Prim2SF now) as [sn | sn | | sn mn en];
      destruct (Prim2SF start) as [ss | ss | | ss ms es]; try discriminate;
      destruct ss; try discriminate; destruct (Prim2SF bound) as [[] | [] | | [] ? ?];
      reflexivity.
  - rewrite ltb_spec, sub_spec. rewrite leb_spec in Hle. unfold finite in Fn.
    destruct (Prim2SF now) as [sn | sn | | sn mn en]; try discriminate;
      destruct (Prim2SF start) as [ss | ss | | ss ms es]; try discriminate;
      destruct sn, ss; try discriminate;
      destruct (Prim2SF bound) as [[] | [] | | [] ? ?]; reflexivity.
Qed.

(** X13: with a duration of zero or less, and a clock that is not before
    the start of the run at the first loop test, [main] creates the fleet,
    runs no tick, hands no batch to the publisher, and prints that it
    finished after 0 ticks. *)
Theorem nonpositive_duration_runs_no_tick py cfg w it its :
  configured cfg = true -> (DURATION_SEC cfg <= 0)%Z ->
  iterations w = it :: its -> (start_time w <=? clock it) = true ->
  exists agvs,
    create_fleet (init_draws w) 0 AGV_IDS = Ok agvs /\
    main py cfg w
    = Build_Run (Finished "Simulation finished after 0 ticks") 0 agvs [].
Proof.
  intros Hc Hd Hw Hclock.
  destruct (create_fleet_ids (init_draws w) AGV_IDS 0%nat) as (agvs & E & _).
  exists agvs. split; [exact E |].
  rewrite main_configured, Hc, E, Hw. cbn [loop].
  rewrite (elapsed_not_below _ _ _ Hclock (float_of_int_nonpos _ Hd)).
  reflexivity.
Qed.

Lemma nonpositive_duration_runs_no_tick_witness :
  exists agvs,
    create_fleet (init_draws finishing_world) 0 AGV_IDS = Ok agvs /\
    main sample_py zero_duration_cfg finishing_world
    = Build_Run (Finished "Simulation finished after 0 ticks") 0 agvs [].
Proof.
  apply (nonpositive_duration_runs_no_tick sample_py zero_duration_cfg finishing_world
           (sample_iteration 100.0 "t0" (Ok 200%Z))
           [ sample_iteration 101.0 "t1" (Ok 201%Z);
             sample_iteration 800.0 "t2" (Ok 200%Z) ]);
    [reflexivity | cbn; lia | reflexivity | reflexivity].
Defined.

(** ** The clamp of the speed *)

Lemma clamp_value v :
  py_max 4.0 (py_min v 18.0)
  = if 4.0 <=? v then (if v <=? 18.0 then v else 18.0) else 4.0.
Proof.
  destruct (4.0 <=? v) eqn:H4.
  - destruct (v <=? 18.0) eqn:H18.
    + unfold py_min. rewrite (leb_not_ltb v 18.0 H18). unfold py_max.
      destruct (4.0 <? v) eqn:Hlt; [reflexivity |].
      destruct (between_finite 4.0 v 18.0 eq_refl eq_refl H4 H18) as (Fv & B1 & B2).
      float_value 4.0 as V4.
      apply F2R_inj; [reflexivity | assumption | | lra].
      destruct (Rle_lt_or_eq_dec _ _ B1) as [Hc | Hc]; [| exact Hc].
      apply (ltb_finite 4.0 v eq_refl Fv) in Hc. congruence.
    + unfold py_min.
      rewrite (not_leb_ltb v 18.0 H18 (leb_refl_r _ _ H4) eq_refl). reflexivity.
  - assert (Hlt : (4.0 <? v) = false).
    { destruct (4.0 <? v) eqn:E; [| reflexivity].
      apply ltb_leb in E. congruence. }
    unfold py_min. destruct (18.0 <? v) eqn:Hhi.
    + exfalso. apply ltb_leb in Hhi.
      assert (E : (4.0 <? v) = true).
      { apply (ltb_leb_trans 4.0 18.0 v eq_refl eq_refl); [| assumption].
        float_value 4.0 as V4. float_value 18.0 as V18. lra. }
      congruence.
    + unfold py_max. rewrite Hlt. reflexivity.
Qed.

Lemma speed_after_tick_value a dt rnd :
  exists a', AGVState.tick a dt rnd = Ok a' /\
    AGVState.speed_kph a' =
      if 4.0 <=? AGVState.speed_kph a + AGVState.speed_delta rnd
      then (if AGVState.speed_kph a + AGVState.speed_delta rnd <=? 18.0
            then AGVState.speed_kph a + AGVState.speed_delta rnd else 18.0)
      else 4.0.
Proof.
  destruct (tick_total a dt rnd) as (a' & E & _ & _ & Hs & _).
  exists a'. split; [exact E |]. rewrite Hs, <- clamp_value. reflexivity.
Qed.

(** X14: the speed after a tick is the speed before plus the drift when
    this sum is in [4.0, 18.0], 18.0 when the sum is above, and 4.0 when
    the sum is below or is not a number. *)
Theorem speed_after_tick a dt rnd :
  exists a', AGVState.tick a dt rnd = Ok a' /\
    AGVState.speed_kph a' =
      let v := AGVState.speed_kph a + AGVState.speed_delta rnd in
      if 4.0 <=? v then (if v <=? 18.0 then v else 18.0) else 4.0.
Proof.
  exact (speed_after_tick_value a dt rnd).
Qed.

(** ** The drain of the battery *)

Lemma sub_nonneg_below x y :
  (x <=? 100.0) = true -> (0 <=? y) = true -> (x - y <=? x) = true.
Proof.
  intros Hx Hy.
  destruct (le_finite_cases x 100.0 eq_refl Hx) as [[Fx _] | Xinf].
  - apply sub_nonneg_le; [assumption | | assumption].
    apply leb_finite; auto. lra.
  - rewrite leb_spec, sub_spec, Xinf.
    destruct (ge_finite_cases y 0 finite_0 Hy) as [[Fy _] | Yinf].
    + unfold finite in Fy. destruct (Prim2SF y) as [? | ? | | ? ? ?];
        try discriminate; reflexivity.
    + rewrite Yinf. reflexivity.
Qed.

(** X15: in a tick with an interval that is not negative and draws in their
    ranges, a vehicle with a charge of at most 100 that does not recharge
    ends with its charge less the drain, which is not above the charge it
    had; the drain is between 0.01 and 0.05 times the interval. *)
Theorem charge_drains a dt rnd :
  charge_ok a = true -> step_ok (dt, rnd) = true ->
  recharges dt rnd a = false ->
  exists a', AGVState.tick a dt rnd = Ok a' /\
    AGVState.soc_pct a' = AGVState.soc_pct a - AGVState.drain rnd * dt /\
    (AGVState.soc_pct a' <=? AGVState.soc_pct a) = true /\
    (0.01 * dt <=? AGVState.drain rnd * dt) = true /\
    (AGVState.drain rnd * dt <=? 0.05 * dt) = true.
Proof.
  unfold charge_ok, step_ok, battery_draws_ok. cbn [fst snd].
  rewrite !andb_true_iff. intros Hc (Hdt & Hdrain & _) Hre.
  destruct (tick_total a dt rnd) as (a' & E & _ & _ & _ & _ & _ & Hsoc).
  rewrite battery_soc, Hre in Hsoc.
  exists a'. split; [exact E |]. split; [exact Hsoc |].
  pose proof (drain_nonneg dt rnd Hdt Hdrain) as Hd.
  unfold uniform_ok in Hdrain. rewrite andb_true_iff in Hdrain.
  destruct Hdrain as [Hlo Hhi].
  destruct (between_finite 0.01 _ 0.05 eq_refl eq_refl Hlo Hhi) as (Fd & D1 & D2).
  float_value 0.01 as V1. float_value 0.05 as V5.
  split; [rewrite Hsoc; apply sub_nonneg_below; assumption |].
  split; apply mul_le_compat; auto; lra.
Qed.

Lemma charge_drains_witness :
  exists a', AGVState.tick sample_vehicle 1.0 sample_draws = Ok a' /\
    AGVState.soc_pct a'
    = AGVState.soc_pct sample_vehicle - AGVState.drain sample_draws * 1.0 /\
    (AGVState.soc_pct a' <=? AGVState.soc_pct sample_vehicle) = true /\
    (0.01 * 1.0 <=? AGVState.drain sample_draws * 1.0) = true /\
    (AGVState.drain sample_draws * 1.0 <=? 0.05 * 1.0) = true.
Proof.
  apply (charge_drains sample_vehicle 1.0 sample_draws); reflexivity.
Defined.

(** ** Intervals that cover a lane *)

Lemma add_reaches c p x :
  finite c = true -> (0 <=? p) = true -> (c <=? x) = true -> (c <=? p + x) = true.
Proof.
  intros Fc Hp Hx.
  destruct (ge_finite_cases p 0 finite_0 Hp) as [[Fp Hp0] | Pinf];
    destruct (ge_finite_cases x c Fc Hx) as [[Fx Hxc] | Xinf].
  - apply (add_bracket p x c); auto. rewrite F2R_0 in Hp0. lra.
  - apply leb_pinf; [assumption |]. rewrite add_spec, Xinf.
    unfold finite in Fp. destruct (Prim2SF p) as [? | ? | | ? ? ?];
      try discriminate; reflexivity.
  - apply leb_pinf; [assumption |]. rewrite add_spec, Pinf.
    unfold finite in Fx. destruct (Prim2SF x) as [? | ? | | ? ? ?];
      try discriminate; reflexivity.
  - apply leb_pinf; [assumption |]. rewrite add_spec, Pinf, Xinf. reflexivity.
Qed.

(** X16: at the lowest speed a lane of 1000 m takes 900 s, so a tick with
    an interval of 900 s or more takes any vehicle whose position is not
    negative to the end of its lane, whatever its speed and the draws: it
    ends the tick at position 0 with the job of the drawn number. *)
Theorem long_interval_completes_lane a dt rnd :
  (0.0 <=? AGVState.position_m a) = true -> (900.0 <=? dt) = true ->
  reaches_end dt rnd a = true /\
  exists a', AGVState.tick a dt rnd = Ok a' /\
    AGVState.position_m a' = 0.0 /\
    AGVState.job_id a' = AGVState._new_job_id (AGVState.job_number rnd).
Proof.
  intros Hp Hdt.
  assert (Hend : reaches_end dt rnd a = true).
  { unfold reaches_end, py_ge, AGVState.move.
    cbn [AGVState.position_m AGVState.speed_kph AGVState.set_speed_kph
         AGVState.set_position_m].
    destruct (clamp_range (AGVState.speed_kph a + AGVState.speed_delta rnd)) as [C1 C2].
    destruct (m_per_sec_range _ C1 C2) as [R1 _].
    destruct (move_rate_positive _ C1 C2) as (Fr & Hr).
    set (rate := py_max 4.0 (py_min (AGVState.speed_kph a + AGVState.speed_delta rnd) 18.0)
                 * 1000.0 / 3600.0) in *.
    apply add_reaches; [reflexivity | assumption |].
    assert (Flo : finite (4.0 * 1000.0 / 3600.0) = true) by reflexivity.
    pose proof (proj1 (leb_finite _ _ Flo Fr) R1) as Q1.
    change (4.0 * 1000.0 / 3600.0) with 1.1111111111111112 in Q1.
    float_value 1.1111111111111112 as Vlo. float_value 900.0 as V900.
    float_value 1000.0 as V1000.
    destruct (ge_finite_cases dt 900.0 eq_refl Hdt) as [[Ft Ht] | Tinf].
    - apply (mul_bracket rate dt 1000.0); auto. nra.
    - apply leb_pinf; [reflexivity |].
      destruct (finite_pos_repr rate Fr ltac:(lra)) as (m & e & Er).
      rewrite mul_spec, Er, Tinf. reflexivity. }
  split; [exact Hend |].
  destruct (tick_total a dt rnd) as (a' & E & _ & _ & _ & Hpos & Hjob & _).
  unfold reaches_end in Hend. rewrite Hend in Hpos, Hjob.
  exists a'. auto.
Qed.

Lemma long_interval_completes_lane_witness :
  reaches_end 900.0 sample_draws midlane_vehicle = true /\
  exists a', AGVState.tick midlane_vehicle 900.0 sample_draws = Ok a' /\
    AGVState.position_m a' = 0.0 /\
    AGVState.job_id a' = AGVState._new_job_id (AGVState.job_number sample_draws).
Proof.
  apply (long_interval_completes_lane midlane_vehicle 900.0 sample_draws); reflexivity.
Defined.

(** ** Addition keeps the order *)

Section AdditionIsMonotone.

Local Open Scope Z_scope.

(** The sign of a rounding is the sign it is given. *)
Lemma round_aux_opp m e l :
  binary_round_aux prec emax true m e l
  = SFopp (binary_round_aux prec emax false m e l).
Proof.
  unfold binary_round_aux.
  destruct (shr_fexp prec emax m e l) as [mrs e1].
  destruct (shr_fexp prec emax
              (round_nearest_even (shr_m mrs) (loc_of_shr_record mrs)) e1 loc_Exact)
    as [mrs2 e2].
  destruct (shr_m mrs2); [reflexivity | | reflexivity].
  destruct (e2 <=? emax - prec); reflexivity.
Qed.

Lemma binary_round_opp p e :
  binary_round prec emax true p e = SFopp (binary_round prec emax false p e).
Proof.
  unfold binary_round.
  destruct (shl_align p e (fexp prec emax (Z.pos (digits2_pos p) + e))) as [pz ez].
  apply round_aux_opp.
Qed.

Lemma SFfin_opp a : SFfin (SFopp a) = SFfin a.
Proof. destruct a; reflexivity. Qed.

Lemma SFleb_opp a b :
  valid_binary a = true -> valid_binary b = true ->
  SFleb (SFopp a) (SFopp b) = SFleb b a.
Proof.
  intros Va Vb.
  destruct (SFfin a) eqn:Fa; [destruct (SFfin b) eqn:Fb |].
  - pose proof (SFleb_spec (SFopp a) (SFopp b)) as H1.
    rewrite !SFopp_valid, !SFfin_opp, !SFopp_value in H1.
    specialize (H1 Va Vb Fa Fb).
    pose proof (SFleb_spec b a Vb Va Fb Fa) as H2.
    destruct (SFleb (SFopp a) (SFopp b)), (SFleb b a); try reflexivity.
    + assert (SF2R b <= SF2R a)%R by (apply Ropp_le_cancel; apply H1; reflexivity).
      symmetry. apply H2. assumption.
    + apply H1. apply Ropp_le_contravar. apply H2. reflexivity.
  - destruct a as [[] | [] | | [] ? ?], b as [[] | [] | | [] ? ?];
      try discriminate; reflexivity.
  - destruct a as [[] | [] | | [] ? ?], b as [[] | [] | | [] ? ?];
      try discriminate; reflexivity.
Qed.

Lemma binary_round_mono p e p' e' :
  (dyad (Z.pos p) e < dyad (Z.pos p') e')%R ->
  valid_binary (binary_round prec emax false p e) = true ->
  valid_binary (binary_round prec emax false p' e') = true ->
  SFleb (binary_round prec emax false p e) (binary_round prec emax false p' e') = true.
Proof.
  unfold binary_round.
  destruct (shl_align_spec p e (fexp64 (Z.pos (digits2_pos p) + e))) as (Ev & Ee & Ed).
  destruct (shl_align p e (fexp64 (Z.pos (digits2_pos p) + e))) as [pz ez].
  destruct (shl_align_spec p' e' (fexp64 (Z.pos (digits2_pos p') + e')))
    as (Ev' & Ee' & Ed').
  destruct (shl_align p' e' (fexp64 (Z.pos (digits2_pos p') + e'))) as [pz' ez'].
  cbn [fst snd] in *.
  intros Hlt V V'. apply round_aux_mono; try assumption; try lia.
  - simpl Zdigits2. rewrite Ed. lia.
  - simpl Zdigits2. rewrite Ed'. lia.
  - rewrite Ev, Ev'. assumption.
Qed.

Lemma SFleb_through_zero a b :
  SFleb a (S754_zero false) = true -> SFleb (S754_zero false) b = true ->
  SFleb a b = true.
Proof.
  destruct a as [[] | [] | | [] ? ?], b as [[] | [] | | [] ? ?];
    try discriminate; reflexivity.
Qed.

(** Rounding keeps the strict order of the numbers it is given. *)
Lemma binary_normalize_mono m e m' e' :
  (dyad m e < dyad m' e')%R ->
  valid_binary (binary_normalize prec emax m e false) = true ->
  valid_binary (binary_normalize prec emax m' e' false) = true ->
  SFleb (binary_normalize prec emax m e false)
        (binary_normalize prec emax m' e' false) = true.
Proof.
  intros Hlt V V'.
  assert (Hneg : forall p x, (dyad (Z.neg p) x < 0)%R).
  { intros p x. change (Z.neg p) with (- Z.pos p). rewrite dyad_opp.
    pose proof (dyad_pos p x). lra. }
  assert (Hlow : forall p x,
            valid_binary (binary_round prec emax true p x) = true ->
            SFleb (binary_round prec emax true p x) (S754_zero false) = true).
  { intros p x Vr. apply (binary_round_bracket true p x (S754_zero false));
      [assumption | reflexivity | reflexivity |].
    cbn [cond_Zopp SF2R]. specialize (Hneg p x). change (Z.neg p) with (- Z.pos p) in Hneg.
    simpl Z.opp in *. lra. }
  assert (Hhigh : forall p x,
            valid_binary (binary_round prec emax false p x) = true ->
            SFleb (S754_zero false) (binary_round prec emax false p x) = true).
  { intros p x Vr. apply (binary_round_bracket false p x (S754_zero false));
      [assumption | reflexivity | reflexivity |].
    cbn [cond_Zopp SF2R]. pose proof (dyad_pos p x). lra. }
  destruct m as [| p | p], m' as [| p' | p']; cbn [binary_normalize] in *.
  - rewrite !dyad_0 in Hlt. lra.
  - apply Hhigh. assumption.
  - rewrite dyad_0 in Hlt. specialize (Hneg p' e'). lra.
  - rewrite dyad_0 in Hlt. pose proof (dyad_pos p e). lra.
  - apply binary_round_mono; assumption.
  - specialize (Hneg p' e'). pose proof (dyad_pos p e). lra.
  - apply Hlow. assumption.
  - apply SFleb_through_zero; [apply Hlow | apply Hhigh]; assumption.
  - rewrite !binary_round_opp in *. rewrite SFopp_valid in V, V'.
    rewrite SFleb_opp by assumption.
    apply binary_round_mono; try assumption.
    change (Z.neg p) with (- Z.pos p) in Hlt. change (Z.neg p') with (- Z.pos p') in Hlt.
    rewrite !dyad_opp in Hlt. lra.
Qed.

Lemma SFadd_mono sx mx ex sy my ey sz mz ez :
  let x := S754_finite sx mx ex in
  let y := S754_finite sy my ey in
  let z := S754_finite sz mz ez in
  valid_binary (SF64add x y) = true -> valid_binary (SF64add x z) = true ->
  (SF2R y < SF2R z)%R -> SFleb (SF64add x y) (SF64add x z) = true.
Proof.
  intros x y z. unfold SF64add, SFadd, x, y, z. intros Vy Vz Hlt.
  apply binary_normalize_mono; try assumption.
  rewrite !dyad_add, !aligned_value.
  rewrite (Z.min_comm ex ey), (Z.min_comm ex ez), !aligned_value.
  rewrite !SF2R_finite in Hlt. lra.
Qed.

End AdditionIsMonotone.

Lemma leb_trans x y z :
  (x <=? y) = true -> (y <=? z) = true -> (x <=? z) = true.
Proof.
  intros Hxy Hyz.
  destruct (finite y) eqn:Fy.
  - destruct (le_finite_cases x y Fy Hxy) as [[Fx Hx] | Xinf];
      destruct (ge_finite_cases z y Fy Hyz) as [[Fz Hz] | Zinf].
    + apply leb_finite; auto. lra.
    + apply leb_pinf; assumption.
    + apply leb_ninf; assumption.
    + rewrite leb_spec, Xinf, Zinf. reflexivity.
  - rewrite leb_spec in *. unfold finite in Fy.
    destruct (Prim2SF y) as [? | [] | | ? ? ?]; try discriminate;
      destruct (Prim2SF x) as [[] | [] | | [] ? ?]; try discriminate;
      destruct (Prim2SF z) as [[] | [] | | [] ? ?]; try discriminate; reflexivity.
Qed.

Lemma add_defined x y :
  finite x = true -> finite y = true -> (x + y <=? x + y) = true.
Proof.
  intros Fx Fy. destruct (Rle_or_lt 0 (F2R x + F2R y)) as [H | H].
  - eapply leb_refl_r.
    apply (add_bracket x y 0); auto using finite_0; rewrite F2R_0; exact H.
  - eapply leb_refl_l.
    apply (add_bracket x y 0); auto using finite_0; rewrite F2R_0; lra.
Qed.

(** Adding to the same number keeps the order of two numbers. *)
Lemma add_le_compat x y z :
  finite x = true -> finite y = true -> finite z = true ->
  (F2R y <= F2R z)%R -> (x + y <=? x + z) = true.
Proof.
  intros Fx Fy Fz Hyz.
  destruct (Req_dec (F2R y) 0) as [Y0 | Y0].
  { apply (leb_trans _ x); [apply (add_bracket x y x) | apply (add_bracket x z x)];
      auto; lra. }
  destruct (Req_dec (F2R z) 0) as [Z0 | Z0].
  { apply (leb_trans _ x); [apply (add_bracket x y x) | apply (add_bracket x z x)];
      auto; lra. }
  destruct (Req_dec (F2R x) 0) as [X0 | X0].
  { apply (leb_trans _ y); [apply (add_bracket x y y); auto; lra |].
    apply (leb_trans _ z); [apply leb_finite; auto |].
    apply (add_bracket x z z); auto; lra. }
  destruct (Req_dec (F2R y) (F2R z)) as [E | Hne].
  { assert (y = z) by (apply F2R_inj; auto). subst z. apply add_defined; assumption. }
  pose proof (Prim2SF_valid (x + y)) as Vy. pose proof (Prim2SF_valid (x + z)) as Vz.
  rewrite add_spec in Vy, Vz. rewrite leb_spec, !add_spec.
  unfold finite, F2R in *.
  destruct (Prim2SF x) as [? | ? | | sx mx ex]; try discriminate;
    [exfalso; apply X0; reflexivity |].
  destruct (Prim2SF y) as [? | ? | | sy my ey]; try discriminate;
    [exfalso; apply Y0; reflexivity |].
  destruct (Prim2SF z) as [? | ? | | sz mz ez]; try discriminate;
    [exfalso; apply Z0; reflexivity |].
  apply SFadd_mono; auto. lra.
Qed.

(** Subtracting a number is adding its opposite. *)
Lemma sub_as_add x y :
  finite y = true -> F2R y <> 0%R -> x - y = x + (- y).
Proof.
  intros Fy Y0. apply Prim2SF_inj. rewrite sub_spec, add_spec, opp_spec.
  unfold finite, F2R in *.
  destruct (Prim2SF y) as [? | ? | | sy my ey]; try discriminate;
    [exfalso; apply Y0; reflexivity |].
  destruct (Prim2SF x) as [sx | sx | | sx mx ex]; try reflexivity.
  unfold SF64sub, SF64add, SFsub, SFadd, SFopp. destruct sy; reflexivity.
Qed.

(** ** The drift of the speed *)

(** X17: in a tick that starts with the speed in [4.0, 18.0] and draws a
    drift in [-1.0, 1.0], the speed moves by at most one unit: the new speed
    is between the speed less 1.0 and the speed plus 1.0. *)
Theorem speed_drift_is_bounded a dt rnd :
  speed_ok a = true -> uniform_ok (-1.0) 1.0 (AGVState.speed_delta rnd) = true ->
  exists a', AGVState.tick a dt rnd = Ok a' /\
    (AGVState.speed_kph a - 1.0 <=? AGVState.speed_kph a') = true /\
    (AGVState.speed_kph a' <=? AGVState.speed_kph a + 1.0) = true.
Proof.
  unfold speed_ok, uniform_ok. rewrite !andb_true_iff. intros [S4 S18] [D1 D2].
  destruct (speed_after_tick_value a dt rnd) as (a' & E & Hs).
  exists a'. split; [exact E |]. rewrite Hs. clear Hs E a'.
  set (s := AGVState.speed_kph a) in *. set (d := AGVState.speed_delta rnd) in *.
  destruct (between_finite 4.0 s 18.0 eq_refl eq_refl S4 S18) as (Fs & Hs4 & Hs18).
  destruct (between_finite (-1.0) d 1.0 eq_refl eq_refl D1 D2) as (Fd & Hd1 & Hd2).
  float_value 4.0 as V4. float_value 18.0 as V18.
  float_value 1.0 as V1. float_value (-1.0) as Vm1.
  assert (L : (s - 1.0 <=? s + d) = true).
  { rewrite (sub_as_add s 1.0) by (try reflexivity; lra).
    apply add_le_compat; auto. }
  assert (U : (s + d <=? s + 1.0) = true) by (apply add_le_compat; auto).
  assert (Hdown : (s - 1.0 <=? s) = true).
  { apply sub_nonneg_le; [assumption | | reflexivity]. apply leb_finite; auto. lra. }
  assert (Hup : (s <=? s + 1.0) = true) by (apply add_nonneg_ge; auto).
  destruct (4.0 <=? s + d) eqn:H4; [destruct (s + d <=? 18.0) eqn:H18 |].
  - split; assumption.
  - split; [apply (leb_trans _ s); assumption |].
    apply (leb_trans _ (s + d)); [| assumption].
    apply ltb_leb. apply (not_leb_ltb _ _ H18); [eapply leb_refl_r; exact H4 | reflexivity].
  - split; [| apply (leb_trans _ s); assumption].
    apply (leb_trans _ (s + d)); [assumption |].
    apply ltb_leb. apply (not_leb_ltb _ _ H4); [reflexivity | eapply leb_refl_r; exact L].
Qed.

Lemma speed_drift_is_bounded_witness :
  exists a', AGVState.tick sample_vehicle 1.0 sample_draws = Ok a' /\
    (AGVState.speed_kph sample_vehicle - 1.0 <=? AGVState.speed_kph a') = true /\
    (AGVState.speed_kph a' <=? AGVState.speed_kph sample_vehicle + 1.0) = true.
Proof.
  apply (speed_drift_is_bounded sample_vehicle 1.0 sample_draws); reflexivity.
Defined.

(** ** The advance of the position *)

(** The movement of a tick: the rate and the position it yields. *)
Lemma move_position a dt rnd :
  exists rate,
    AGVState.position_m (AGVState.move dt rnd a) = AGVState.position_m a + rate * dt /\
    finite rate = true /\ (1 <= F2R rate <= 5)%R /\
    (4.0 * 1000.0 / 3600.0 <=? rate) = true /\ (rate <=? 5.0) = true.
Proof.
  destruct (clamp_range (AGVState.speed_kph a + AGVState.speed_delta rnd)) as [C1 C2].
  destruct (m_per_sec_range _ C1 C2) as [R1 R2].
  destruct (move_rate_positive _ C1 C2) as (Fr & Hr).
  eexists. split; [reflexivity |]. auto.
Qed.

Lemma leb_pinf_any x z :
  (x <=? x) = true -> Prim2SF z = S754_infinity false -> (x <=? z) = true.
Proof.
  rewrite !leb_spec. intros Hx Hz. rewrite Hz.
  destruct (Prim2SF x) as [[] | [] | | [] ? ?]; try discriminate; reflexivity.
Qed.

(** With an interval that is not negative, the sum of a position and of the
    displacement at a rate is never above the sum at a higher rate. *)
Lemma advance_le_compat p dt r1 r2 :
  finite p = true -> (0 <=? dt) = true ->
  finite r1 = true -> finite r2 = true -> (0 < F2R r1 <= F2R r2)%R ->
  (p + r1 * dt <=? p + r2 * dt) = true.
Proof.
  intros Fp Hdt F1 F2 Hr.
  pose proof (mul_le_compat r1 r2 dt F1 F2 Hr Hdt) as Hm.
  assert (H1 : (0 <=? r1 * dt) = true) by (apply mul_pos_nonneg; auto; lra).
  assert (H2 : (0 <=? r2 * dt) = true) by (apply mul_pos_nonneg; auto; lra).
  destruct (ge_finite_cases (r2 * dt) 0 finite_0 H2) as [[Fb _] | Binf].
  - destruct (between_finite 0 (r1 * dt) (r2 * dt) finite_0 Fb H1 Hm) as (Fa & _ & Hab).
    apply add_le_compat; assumption.
  - apply leb_pinf_any.
    + destruct (ge_finite_cases (r1 * dt) 0 finite_0 H1) as [[Fa _] | Ainf].
      * apply add_defined; assumption.
      * rewrite leb_spec, add_spec, Ainf. unfold finite in Fp.
        destruct (Prim2SF p) as [? | ? | | ? ? ?]; try discriminate; reflexivity.
    + rewrite add_spec, Binf. unfold finite in Fp.
      destruct (Prim2SF p) as [? | ? | | ? ? ?]; try discriminate; reflexivity.
Qed.

(** X18: in a tick with an interval that is not negative that does not
    reach the end of the lane, the new position is between the position
    advanced at the lowest rate, [4.0 * 1000 / 3600], and the position
    advanced at the highest rate, [18.0 * 1000 / 3600]. *)
Theorem position_advance_is_bounded a dt rnd :
  position_ok a = true -> (0 <=? dt) = true -> reaches_end dt rnd a = false ->
  exists a', AGVState.tick a dt rnd = Ok a' /\
    (AGVState.position_m a + 4.0 * 1000.0 / 3600.0 * dt <=? AGVState.position_m a')
      = true /\
    (AGVState.position_m a' <=? AGVState.position_m a + 18.0 * 1000.0 / 3600.0 * dt)
      = true.
Proof.
  unfold position_ok, reaches_end. rewrite andb_true_iff.
  intros [Hp0 Hp1] Hdt Hend.
  destruct (tick_total a dt rnd) as (a' & E & _ & _ & _ & Hp & _).
  rewrite Hend in Hp.
  destruct (move_position a dt rnd) as (rate & Hmove & Fr & Hr & R1 & R2).
  rewrite Hmove in Hp.
  apply ltb_leb in Hp1.
  destruct (between_finite 0.0 _ 1000.0 eq_refl eq_refl Hp0 Hp1) as (Fp & _).
  assert (Flo : finite (4.0 * 1000.0 / 3600.0) = true) by reflexivity.
  assert (Fhi : finite (18.0 * 1000.0 / 3600.0) = true) by reflexivity.
  pose proof (proj1 (leb_finite _ _ Flo Fr) R1) as Q1.
  pose proof (proj1 (leb_finite _ _ Fr Fhi) R2) as Q2.
  assert (Vlo : (1 <= F2R (4.0 * 1000.0 / 3600.0))%R).
  { change (4.0 * 1000.0 / 3600.0) with 1.1111111111111112.
    float_value 1.1111111111111112 as V. lra. }
  exists a'. split; [exact E |]. rewrite Hp.
  split; apply advance_le_compat; auto; lra.
Qed.

Lemma position_advance_is_bounded_witness :
  exists a', AGVState.tick midlane_vehicle 1.0 sample_draws = Ok a' /\
    (AGVState.position_m midlane_vehicle + 4.0 * 1000.0 / 3600.0 * 1.0
     <=? AGVState.position_m a') = true /\
    (AGVState.position_m a'
     <=? AGVState.position_m midlane_vehicle + 18.0 * 1000.0 / 3600.0 * 1.0) = true.
Proof.
  apply (position_advance_is_bounded midlane_vehicle 1.0 sample_draws); reflexivity.
Defined.

(** X19: a vehicle that would stay short of the end of its lane at the
    highest rate does not complete the lane: when the position advanced by
    [18.0 * 1000 / 3600] times the interval is below 1000, the tick keeps
    the job and ends at a position below 1000, whatever the draws. *)
Theorem lane_not_completed_early a dt rnd :
  position_ok a = true -> (0 <=? dt) = true ->
  (AGVState.position_m a + 18.0 * 1000.0 / 3600.0 * dt <? 1000.0) = true ->
  reaches_end dt rnd a = false /\
  exists a', AGVState.tick a dt rnd = Ok a' /\
    AGVState.job_id a' = AGVState.job_id a /\
    (AGVState.position_m a' <? 1000.0) = true.
Proof.
  unfold position_ok. rewrite andb_true_iff.
  intros [Hp0 Hp1] Hdt Hfar.
  destruct (move_position a dt rnd) as (rate & Hmove & Fr & Hr & R1 & R2).
  pose proof Hp1 as Hp1'. apply ltb_leb in Hp1'.
  destruct (between_finite 0.0 _ 1000.0 eq_refl eq_refl Hp0 Hp1') as (Fp & _).
  assert (Fhi : finite (18.0 * 1000.0 / 3600.0) = true) by reflexivity.
  pose proof (proj1 (leb_finite _ _ Fr Fhi) R2) as Q2.
  assert (Hle : (AGVState.position_m (AGVState.move dt rnd a)
                 <=? AGVState.position_m a + 18.0 * 1000.0 / 3600.0 * dt) = true).
  { rewrite Hmove. apply advance_le_compat; auto; lra. }
  assert (Hend : reaches_end dt rnd a = false).
  { unfold reaches_end, py_ge.
    destruct (1000.0 <=? AGVState.position_m (AGVState.move dt rnd a)) eqn:E;
      [| reflexivity].
    pose proof (leb_trans _ _ _ E Hle) as H. apply leb_not_ltb in H. congruence. }
  split; [exact Hend |].
  destruct (tick_total a dt rnd) as (a' & E & _ & _ & _ & Hp & Hj & _).
  unfold reaches_end in Hend. rewrite Hend in Hp, Hj.
  exists a'. split; [exact E |]. split; [exact Hj |]. rewrite Hp.
  unfold py_ge in Hend.
  apply (not_leb_ltb _ _ Hend); [reflexivity | eapply leb_refl_l; exact Hle].
Qed.

Lemma lane_not_completed_early_witness :
  reaches_end 1.0 sample_draws midlane_vehicle = false /\
  exists a', AGVState.tick midlane_vehicle 1.0 sample_draws = Ok a' /\
    AGVState.job_id a' = AGVState.job_id midlane_vehicle /\
    (AGVState.position_m a' <? 1000.0) = true.
Proof.
  apply (lane_not_completed_early midlane_vehicle 1.0 sample_draws); reflexivity.
Defined.

(** ** The text of a job id *)

Lemma all_from_spec k : forall lo P,
  all_from k lo P = true ->
  forall n, (lo <= n < lo + 2 ^ Z.of_nat k)%Z -> P n = true.
Proof.
  induction k as [| k IH]; intros lo P H n Hn.
  - simpl in Hn. assert (n = lo) by lia. subst. exact H.
  - cbn [all_from] in H. apply andb_true_iff in H. destruct H as [H1 H2].
    rewrite Nat2Z.inj_succ, Z.pow_succ_r in Hn by lia.
    destruct (Z_lt_ge_dec n (lo + 2 ^ Z.of_nat k)).
    + apply (IH lo P H1). lia.
    + apply (IH _ P H2). lia.
Qed.

Lemma is_digit_spec c :
  is_digit c = true <-> (48 <= N_of_ascii c <= 57)%N.
Proof.
  destruct c as [[] [] [] [] [] [] [] []]; vm_compute;
    (split; [intros H; try discriminate H; split; discriminate
            | intros [H1 H2]; try reflexivity; exfalso;
              first [apply H1; reflexivity | apply H2; reflexivity]]).
Qed.

Lemma str_int_six_digits n :
  (100000 <= n <= 999999)%Z ->
  String.length (str_int n) = 6%nat /\ all_digits (str_int n) = true.
Proof.
  intros Hn.
  assert (H : all_from 20 100000 six_digits = true) by (vm_compute; reflexivity).
  pose proof (all_from_spec 20 100000 six_digits H n ltac:(simpl; lia)) as Hs.
  unfold six_digits in Hs. apply orb_true_iff in Hs. destruct Hs as [Hs | Hs].
  - apply Z.ltb_lt in Hs. lia.
  - apply andb_true_iff in Hs. destruct Hs as [H1 H2].
    apply Nat.eqb_eq in H1. auto.
Qed.

(** X20: for a number in the range of [randint(100000, 999999)], the job id
    is the text [JOB-] followed by six decimal digits, ten characters in
    all, and two numbers of the range never give the same id. *)
Theorem job_id_format n :
  (100000 <= n <= 999999)%Z ->
  exists digits,
    AGVState._new_job_id n = "JOB-" ++ digits /\
    String.length digits = 6%nat /\ all_digits digits = true /\
    String.length (AGVState._new_job_id n) = 10%nat /\
    forall k, AGVState._new_job_id k = AGVState._new_job_id n -> k = n.
Proof.
  intros Hn. destruct (str_int_six_digits n Hn) as [Hlen Hdig].
  exists (str_int n). split; [reflexivity |]. split; [exact Hlen |].
  split; [exact Hdig |]. split.
  - unfold AGVState._new_job_id. cbn [String.append String.length].
    rewrite Hlen. reflexivity.
  - intros k. apply new_job_id_inj.
Qed.

Lemma job_id_format_witness :
  exists digits,
    AGVState._new_job_id 123456 = "JOB-" ++ digits /\
    String.length digits = 6%nat /\ all_digits digits = true /\
    String.length (AGVState._new_job_id 123456) = 10%nat /\
    forall k, AGVState._new_job_id k = AGVState._new_job_id 123456 -> k = 123456%Z.
Proof.
  apply (job_id_format 123456). lia.
Defined.

(** ** Numbers that binary64 holds exactly, and the error of a sum *)

Section ExactNumbers.

Local Open Scope Z_scope.

(** A mantissa below 2^53 at an exponent in range is a binary64 number. *)
Lemma binary_round_exact p e :
  Z.pos p < 2 ^ 53 -> -1074 <= e -> Z.pos (digits2_pos p) + e <= 1024 ->
  let r := binary_round prec emax false p e in
  valid_binary r = true /\ SFfin r = true /\ SF2R r = dyad (Z.pos p) e.
Proof.
  intros Hp He Htop. unfold binary_round.
  destruct (shl_align_spec p e (fexp64 (Z.pos (digits2_pos p) + e))) as (Ev & Ee & Ed).
  destruct (shl_align p e (fexp64 (Z.pos (digits2_pos p) + e))) as [pz ez].
  cbn [fst snd] in *.
  pose proof (digits2_pos_le p 53 Hp ltac:(lia)) as Hd.
  assert (Hez : ez = fexp64 (Z.pos (digits2_pos p) + e)).
  { rewrite Ee, fexp64_eq. lia. }
  assert (Hcan : ez <= fexp64 (Zdigits2 (Z.pos pz) + ez)).
  { simpl Zdigits2. rewrite Ed. lia. }
  split; [apply round_aux_valid; [lia | exact Hcan] |].
  destruct (round_aux_spec false (Z.pos pz) ez loc_Exact ltac:(lia) Hcan)
    as (m2 & _ & Hex & _ & _ & _ & Hr & _).
  assert (Ee1 : fexp64 (Zdigits2 (Z.pos pz) + ez) - ez = 0).
  { simpl Zdigits2. rewrite Ed. lia. }
  rewrite Ee1 in Hex. change (2 ^ 0) with 1 in Hex.
  rewrite Z.mod_1_r, Z.div_1_r in Hex. specialize (Hex eq_refl eq_refl).
  assert (Ee1' : fexp64 (Zdigits2 (Z.pos pz) + ez) = ez) by lia.
  rewrite Ee1', Hex, Ev in Hr.
  destruct Hr as [[_ H0] | [(m3 & e3 & -> & E & _) | [_ Hbig]]].
  - discriminate H0.
  - split; [reflexivity |]. simpl. exact E.
  - exfalso. pose proof (digits2_pos_bounds p) as [_ Hhi].
    assert (dyad (Z.pos p) e < bpow 1024)%R; [| lra].
    apply Rlt_le_trans with (dyad (2 ^ Z.pos (digits2_pos p)) e);
      [apply dyad_lt; assumption |].
    rewrite dyad_pow by lia. apply bpow_le. lia.
Qed.

End ExactNumbers.

Lemma exact_float p e :
  (Z.pos p < 2 ^ 53)%Z -> (-1074 <= e)%Z ->
  (Z.pos (digits2_pos p) + e <= 1024)%Z ->
  exists g, finite g = true /\ F2R g = dyad (Z.pos p) e.
Proof.
  intros Hp He Htop.
  destruct (binary_round_exact p e Hp He Htop) as (V & F & E).
  exists (SF2Prim (binary_round prec emax false p e)).
  unfold finite, F2R. rewrite Prim2SF_SF2Prim by exact V. auto.
Qed.

Lemma eps43 : bpow (-43) = (/ 8796093022208)%R.
Proof.
  pose proof (bpow_neg 43 ltac:(lia)) as B. change (Z.opp 43) with (-43)%Z in B.
  exact B.
Qed.

(** Every real number of [0, 1023) lies between two binary64 numbers that
    are 2^-43 apart. *)
Lemma float_near v :
  (0 <= v < 1023)%R ->
  exists lo hi, finite lo = true /\ finite hi = true /\
    (F2R lo <= v <= F2R hi)%R /\ (F2R hi - F2R lo = bpow (-43))%R.
Proof.
  intros Hv.
  pose proof (bpow_neg 43 ltac:(lia)) as B43. change (Z.opp 43) with (-43)%Z in B43.
  assert (P43 : (0 < IZR (2 ^ 43))%R) by (apply IZR_lt; lia).
  set (m := Int_part (v * IZR (2 ^ 43))).
  destruct (base_Int_part (v * IZR (2 ^ 43))) as [Hlo Hhi]. fold m in Hlo, Hhi.
  assert (Hm0 : (0 <= m)%Z).
  { assert (0 <= v * IZR (2 ^ 43))%R by nra.
    assert (-1 < m)%Z by (apply lt_IZR; lra). lia. }
  assert (Hm1 : (m + 1 < 2 ^ 53)%Z).
  { apply lt_IZR. rewrite plus_IZR.
    assert (v * IZR (2 ^ 43) < 1023 * IZR (2 ^ 43))%R by nra.
    assert (1023 * IZR (2 ^ 43) + 1 <= IZR (2 ^ 53))%R.
    { rewrite <- mult_IZR, <- plus_IZR. apply IZR_le. lia. }
    lra. }
  assert (Hbelow : (dyad m (-43) <= v)%R).
  { unfold dyad. rewrite B43. apply Rmult_le_reg_r with (IZR (2 ^ 43)); [assumption |].
    rewrite Rmult_assoc, Rinv_l by lra. lra. }
  assert (Habove : (v <= dyad (m + 1) (-43))%R).
  { unfold dyad. rewrite B43, plus_IZR.
    apply Rmult_le_reg_r with (IZR (2 ^ 43)); [assumption |].
    rewrite Rmult_assoc, Rinv_l by lra. lra. }
  assert (Hgap : (dyad (m + 1) (-43) - dyad m (-43) = bpow (-43))%R).
  { rewrite dyad_add. unfold dyad. lra. }
  assert (Hrep : forall p, (Z.pos p < 2 ^ 53)%Z ->
            exists g, finite g = true /\ F2R g = dyad (Z.pos p) (-43)).
  { intros p Hp. apply exact_float; [assumption | lia |].
    pose proof (digits2_pos_le p 53 Hp ltac:(lia)). lia. }
  destruct (Hrep (Z.to_pos (m + 1))) as (hi & Fhi & Ehi); [lia |].
  rewrite Z2Pos.id in Ehi by lia.
  destruct m as [| p | p]; try lia.
  - exists 0, hi. rewrite F2R_0, Ehi. rewrite dyad_0 in *.
    repeat split; auto using finite_0; lra.
  - destruct (Hrep p) as (lo & Flo & Elo); [lia |].
    exists lo, hi. rewrite Elo, Ehi. repeat split; auto; lra.
Qed.

(** The error of a sum and of a difference below 1023. *)
Lemma add_error x y :
  finite x = true -> finite y = true -> (0 <= F2R x + F2R y < 1023)%R ->
  finite (x + y) = true /\
  (F2R x + F2R y - bpow (-43) <= F2R (x + y) <= F2R x + F2R y + bpow (-43))%R.
Proof.
  intros Fx Fy Hv.
  destruct (float_near _ Hv) as (lo & hi & Flo & Fhi & Hb & Hgap).
  assert (H1 : (lo <=? x + y) = true) by (apply (add_bracket x y lo); auto; lra).
  assert (H2 : (x + y <=? hi) = true) by (apply (add_bracket x y hi); auto; lra).
  destruct (between_finite lo (x + y) hi Flo Fhi H1 H2) as (F & B).
  split; [exact F | lra].
Qed.

Lemma sub_error x y :
  finite x = true -> finite y = true -> (0 <= F2R x - F2R y < 1023)%R ->
  finite (x - y) = true /\
  (F2R x - F2R y - bpow (-43) <= F2R (x - y) <= F2R x - F2R y + bpow (-43))%R.
Proof.
  intros Fx Fy Hv.
  destruct (float_near _ Hv) as (lo & hi & Flo & Fhi & Hb & Hgap).
  assert (H1 : (lo <=? x - y) = true) by (apply (sub_bracket x y lo); auto; lra).
  assert (H2 : (x - y <=? hi) = true) by (apply (sub_bracket x y hi); auto; lra).
  destruct (between_finite lo (x - y) hi Flo Fhi H1 H2) as (F & B).
  split; [exact F | lra].
Qed.

(** ** How long a lane and a charge last *)

(** From a position of at most [k] times 5 m (and a rounding error), a run
    of ticks of at most one second does not complete the lane while the
    ticks number 199 at most. *)
Lemma lane_run_bound steps : forall a (k : nat),
  forallb within_second steps = true ->
  finite (AGVState.position_m a) = true ->
  (0 <= F2R (AGVState.position_m a) <= INR k * (5 + bpow (-43)))%R ->
  (k + List.length steps <= 199)%nat ->
  never_completes steps a = true /\
  exists a', run_ticks steps a = Ok a' /\
    AGVState.job_id a' = AGVState.job_id a /\
    finite (AGVState.position_m a') = true /\
    (0 <= F2R (AGVState.position_m a') < 1000)%R.
Proof.
  pose proof eps43 as Heps.
  induction steps as [| [dt rnd] steps IH]; intros a k Hsteps Fp Hp Hlen.
  - split; [reflexivity |]. exists a. repeat split; auto; try lra.
    assert (INR k <= 199)%R.
    { replace 199%R with (INR 199) by (simpl; lra). apply le_INR.
      cbn [List.length] in Hlen. lia. }
    nra.
  - cbn [forallb] in Hsteps. apply andb_true_iff in Hsteps.
    destruct Hsteps as [Hst Hsteps]. unfold within_second in Hst. cbn [fst] in Hst.
    apply andb_true_iff in Hst. destruct Hst as [Hdt0 Hdt1].
    cbn [List.length] in Hlen.
    assert (Hk : (INR (S k) <= 199)%R).
    { replace 199%R with (INR 199) by (simpl; lra). apply le_INR. lia. }
    rewrite S_INR in Hk.
    destruct (between_finite 0 dt 1.0 finite_0 eq_refl Hdt0 Hdt1) as (Fdt & T0 & T1).
    rewrite F2R_0 in T0. float_value 1.0 as V1. float_value 5.0 as V5.
    float_value 1000.0 as V1000.
    destruct (move_position a dt rnd) as (rate & Hmove & Fr & Hr & _ & _).
    assert (X0 : (0 <=? rate * dt) = true) by (apply mul_pos_nonneg; auto; lra).
    assert (X5 : (rate * dt <=? 5.0) = true).
    { apply (mul_bracket rate dt 5.0); auto. nra. }
    destruct (between_finite 0 _ 5.0 finite_0 eq_refl X0 X5) as (Fx & Hx0 & Hx5).
    rewrite F2R_0 in Hx0.
    destruct (add_error (AGVState.position_m a) (rate * dt) Fp Fx) as (Fp' & _ & Hup);
      [nra |].
    assert (Hnn : (0 <=? AGVState.position_m a + rate * dt) = true).
    { apply add_nonneg; [| assumption]. apply leb_finite; auto using finite_0.
      rewrite F2R_0. lra. }
    apply (leb_finite 0 _ finite_0 Fp') in Hnn. rewrite F2R_0 in Hnn.
    assert (Hnext : (F2R (AGVState.position_m a + rate * dt)
                     <= INR (S k) * (5 + bpow (-43)))%R).
    { rewrite S_INR. nra. }
    assert (Hend : reaches_end dt rnd a = false).
    { unfold reaches_end, py_ge. rewrite Hmove.
      destruct (1000.0 <=? AGVState.position_m a + rate * dt) eqn:E; [| reflexivity].
      apply (leb_finite 1000.0 _ eq_refl Fp') in E. rewrite S_INR in Hnext. nra. }
    destruct (tick_total a dt rnd) as (a1 & E1 & _ & _ & _ & Hp1 & Hj1 & _).
    unfold reaches_end in Hend. rewrite Hend in Hp1, Hj1. rewrite Hmove in Hp1.
    destruct (IH a1 (S k) Hsteps) as (Hnever & a' & Ea' & Hj' & Fp'' & Hb');
      [rewrite Hp1; exact Fp' | rewrite Hp1; split; [exact Hnn | exact Hnext] | lia |].
    split.
    + cbn [never_completes]. unfold reaches_end. rewrite Hend, E1. exact Hnever.
    + exists a'. cbn [run_ticks]. rewrite E1. cbn [bind].
      repeat split; try assumption; try congruence; lra.
Qed.

(** X21: a lane takes at least 200 seconds.  From the start of a lane, a
    run of at most 199 ticks of at most one second each never takes the lane
    completion branch, whatever the speeds and the draws: the vehicle keeps
    its job and stays below 1000 m. *)
Theorem lane_takes_200_seconds a steps :
  AGVState.position_m a = 0.0 -> forallb within_second steps = true ->
  (List.length steps <= 199)%nat ->
  never_completes steps a = true /\
  exists a', run_ticks steps a = Ok a' /\
    AGVState.job_id a' = AGVState.job_id a /\
    (AGVState.position_m a' <? 1000.0) = true.
Proof.
  intros Hp Hsteps Hlen.
  destruct (lane_run_bound steps a 0%nat Hsteps) as (Hnever & a' & E & Hj & Fp & Hb).
  - rewrite Hp. reflexivity.
  - rewrite Hp. change (F2R 0.0) with 0%R. simpl INR. lra.
  - lia.
  - split; [exact Hnever |]. exists a'. repeat split; try assumption.
    float_value 1000.0 as V. apply ltb_finite; auto. lra.
Qed.

Lemma lane_takes_200_seconds_witness :
  never_completes (repeat (1.0, sample_draws) 199) lane_start = true /\
  exists a', run_ticks (repeat (1.0, sample_draws) 199) lane_start = Ok a' /\
    AGVState.job_id a' = AGVState.job_id lane_start /\
    (AGVState.position_m a' <? 1000.0) = true.
Proof.
  apply (lane_takes_200_seconds lane_start (repeat (1.0, sample_draws) 199));
    [reflexivity | vm_compute; reflexivity | rewrite repeat_length; lia].
Defined.

(** From a charge of at least 60 less [k] drains of a second at the highest
    rate, a run of ticks of at most one second does not take the charge
    below 30 while the ticks number 599 at most. *)
Lemma charge_run_bound steps : forall a (k : nat),
  forallb (fun st => step_ok st && within_second st) steps = true ->
  finite (AGVState.soc_pct a) = true ->
  (60 - INR k * (F2R 0.05 + bpow (-43)) <= F2R (AGVState.soc_pct a) <= 100)%R ->
  (k + List.length steps <= 599)%nat ->
  never_recharges steps a = true /\
  exists a', run_ticks steps a = Ok a' /\
    finite (AGVState.soc_pct a') = true /\
    (30 < F2R (AGVState.soc_pct a') <= 100)%R.
Proof.
  pose proof eps43 as Heps. float_value 0.05 as V5.
  induction steps as [| [dt rnd] steps IH]; intros a k Hsteps Fs Hs Hlen.
  - split; [reflexivity |]. exists a. repeat split; auto; try lra.
    assert (INR k <= 599)%R.
    { replace 599%R with (INR 599) by (simpl; lra). apply le_INR.
      cbn [List.length] in Hlen. lia. }
    nra.
  - cbn [forallb] in Hsteps. rewrite !andb_true_iff in Hsteps.
    destruct Hsteps as [[Hok Hst] Hsteps].
    unfold within_second in Hst. cbn [fst] in Hst.
    apply andb_true_iff in Hst. destruct Hst as [Hdt0 Hdt1].
    unfold step_ok, battery_draws_ok, uniform_ok in Hok. cbn [fst snd] in Hok.
    rewrite !andb_true_iff in Hok. destruct Hok as (_ & (Hd1 & Hd5) & _).
    cbn [List.length] in Hlen.
    assert (Hk : (INR (S k) <= 599)%R).
    { replace 599%R with (INR 599) by (simpl; lra). apply le_INR. lia. }
    rewrite S_INR in Hk.
    destruct (between_finite 0 dt 1.0 finite_0 eq_refl Hdt0 Hdt1) as (Fdt & T0 & T1).
    rewrite F2R_0 in T0. float_value 1.0 as V1. float_value 0.01 as V01.
    float_value 30.0 as V30. float_value 100.0 as V100.
    destruct (between_finite 0.01 _ 0.05 eq_refl eq_refl Hd1 Hd5) as (Fd & D1 & D5).
    set (d := AGVState.drain rnd) in *.
    assert (X0 : (0 <=? d * dt) = true) by (apply mul_pos_nonneg; auto; lra).
    assert (X5 : (d * dt <=? 0.05) = true).
    { apply (mul_bracket d dt 0.05); auto. nra. }
    destruct (between_finite 0 _ 0.05 finite_0 eq_refl X0 X5) as (Fx & Hx0 & Hx5).
    rewrite F2R_0 in Hx0.
    assert (Hk0 : (0 <= INR k)%R) by apply pos_INR.
    destruct (sub_error (AGVState.soc_pct a) (d * dt) Fs Fx) as (Fs' & Hlow & _);
      [nra |].
    assert (Hle : (AGVState.soc_pct a - d * dt <=? 100.0) = true).
    { apply sub_nonneg_le; [reflexivity | | assumption]. apply leb_finite; auto. lra. }
    apply (leb_finite _ 100.0 Fs' eq_refl) in Hle.
    assert (Hnext : (60 - INR (S k) * (F2R 0.05 + bpow (-43))
                     <= F2R (AGVState.soc_pct a - d * dt))%R).
    { rewrite S_INR. nra. }
    assert (Hre : recharges dt rnd a = false).
    { unfold recharges. fold d.
      destruct (AGVState.soc_pct a - d * dt <? 30.0) eqn:E; [| reflexivity].
      apply (ltb_finite _ 30.0 Fs' eq_refl) in E. rewrite S_INR in Hnext. nra. }
    destruct (tick_total a dt rnd) as (a1 & E1 & _ & _ & _ & _ & _ & Hs1).
    rewrite battery_soc, Hre in Hs1. fold d in Hs1.
    destruct (IH a1 (S k) Hsteps) as (Hnever & a' & Ea' & Fs'' & Hb');
      [rewrite Hs1; exact Fs' | rewrite Hs1; split; [exact Hnext | lra] | lia |].
    split.
    + cbn [never_recharges]. rewrite Hre, E1. exact Hnever.
    + exists a'. cbn [run_ticks]. rewrite E1. cbn [bind]. auto.
Qed.

(** X22: a charge lasts at least 600 seconds.  From a charge in the range
    of creation, [60, 100], a run of at most 599 ticks of at most one second
    each, with draws in their ranges, never executes the recharge reset:
    the charge only drains, and it is still above 30 at the end. *)
Theorem charge_lasts_600_seconds a steps :
  uniform_ok 60.0 100.0 (AGVState.soc_pct a) = true ->
  forallb (fun st => step_ok st && within_second st) steps = true ->
  (List.length steps <= 599)%nat ->
  never_recharges steps a = true /\
  exists a', run_ticks steps a = Ok a' /\
    (30.0 <? AGVState.soc_pct a') = true.
Proof.
  unfold uniform_ok. rewrite andb_true_iff. intros [H60 H100] Hsteps Hlen.
  destruct (between_finite 60.0 _ 100.0 eq_refl eq_refl H60 H100) as (Fs & B1 & B2).
  float_value 60.0 as V60. float_value 100.0 as V100. float_value 30.0 as V30.
  destruct (charge_run_bound steps a 0%nat Hsteps Fs) as (Hnever & a' & E & Fs' & Hb).
  - simpl INR. lra.
  - lia.
  - split; [exact Hnever |]. exists a'. split; [exact E |].
    apply ltb_finite; auto. lra.
Qed.

Lemma charge_lasts_600_seconds_witness :
  never_recharges (repeat (1.0, draining) 599) lane_start = true /\
  exists a', run_ticks (repeat (1.0, draining) 599) lane_start = Ok a' /\
    (30.0 <? AGVState.soc_pct a') = true.
Proof.
  apply (charge_lasts_600_seconds lane_start (repeat (1.0, draining) 599));
    [reflexivity | vm_compute; reflexivity | rewrite repeat_length; lia].
Defined.

(** A run of ticks of at least one second that never completes the lane
    advances by more than 1.11 m a tick, and stays below 1000 m. *)
Lemma slow_run_bound steps : forall a,
  forallb (fun st => 1.0 <=? fst st) steps = true ->
  position_ok a = true -> never_completes steps a = true ->
  (F2R (AGVState.position_m a) + INR (List.length steps) * 1.11 < 1000)%R.
Proof.
  pose proof eps43 as Heps. float_value 1000.0 as V1000. float_value 1.0 as V1.
  induction steps as [| [dt rnd] steps IH]; intros a Hsteps Hpos Hnever.
  - unfold position_ok in Hpos. apply andb_true_iff in Hpos. destruct Hpos as [Hp0 Hp1].
    pose proof (ltb_leb _ _ Hp1) as Hp1'.
    destruct (between_finite 0.0 _ 1000.0 eq_refl eq_refl Hp0 Hp1') as (Fp & _).
    apply (ltb_finite _ 1000.0 Fp eq_refl) in Hp1. simpl. lra.
  - cbn [forallb] in Hsteps. apply andb_true_iff in Hsteps.
    destruct Hsteps as [Hdt Hsteps]. cbn [fst] in Hdt.
    cbn [never_completes] in Hnever. apply andb_true_iff in Hnever.
    destruct Hnever as [Hend Hnever]. apply negb_true_iff in Hend.
    destruct (tick_total a dt rnd) as (a1 & E1 & _ & _ & _ & Hp1 & _).
    rewrite E1 in Hnever. unfold reaches_end in Hend. rewrite Hend in Hp1.
    unfold py_ge in Hend.
    destruct (move_position a dt rnd) as (rate & Hmove & Fr & Hr & R1 & _).
    rewrite Hmove in Hp1, Hend.
    unfold position_ok in Hpos. apply andb_true_iff in Hpos. destruct Hpos as [Hp0 Hplt].
    pose proof (ltb_leb _ _ Hplt) as Hple.
    destruct (between_finite 0.0 _ 1000.0 eq_refl eq_refl Hp0 Hple) as (Fp & P0 & _).
    change (F2R 0.0) with 0%R in P0.
    set (p := AGVState.position_m a) in *.
    assert (Flo : finite (4.0 * 1000.0 / 3600.0) = true) by reflexivity.
    pose proof (proj1 (leb_finite _ _ Flo Fr) R1) as Q1.
    change (4.0 * 1000.0 / 3600.0) with 1.1111111111111112 in Q1, Flo.
    float_value 1.1111111111111112 as Vlo.
    assert (Hinf : forall x, Prim2SF x = S754_infinity false ->
                     (1000.0 <=? p + x) = true).
    { intros x Hx. apply leb_pinf; [reflexivity |]. rewrite add_spec, Hx.
      unfold finite in Fp. destruct (Prim2SF p) as [? | ? | | ? ? ?];
        try discriminate; reflexivity. }
    destruct (ge_finite_cases dt 1.0 eq_refl Hdt) as [[Fdt Hdt1] | Tinf].
    2:{ exfalso. rewrite Hinf in Hend; [discriminate |].
        destruct (finite_pos_repr rate Fr ltac:(lra)) as (m & e & Er).
        rewrite mul_spec, Er, Tinf. reflexivity. }
    assert (Hx : (1.1111111111111112 <=? rate * dt) = true).
    { apply (mul_bracket rate dt 1.1111111111111112); auto. nra. }
    destruct (ge_finite_cases _ _ Flo Hx) as [[Fx Hx1] | Xinf].
    2:{ exfalso. rewrite (Hinf _ Xinf) in Hend. discriminate. }
    destruct (Rlt_or_le (F2R p + F2R (rate * dt)) 1000) as [Hsum | Hsum].
    2:{ exfalso. assert (E : (1000.0 <=? p + rate * dt) = true)
          by (apply (add_bracket p (rate * dt) 1000.0); auto; lra).
        congruence. }
    destruct (add_error p (rate * dt) Fp Fx) as (Fp' & Hlow & _); [lra |].
    assert (Hpos1 : position_ok a1 = true).
    { unfold position_ok. rewrite Hp1. apply andb_true_iff. split.
      - apply leb_finite; auto. change (F2R 0.0) with 0%R. lra.
      - apply (not_leb_ltb _ _ Hend); [reflexivity |].
        apply leb_finite; auto. lra. }
    specialize (IH a1 Hsteps Hpos1 Hnever). rewrite Hp1 in IH.
    cbn [List.length]. rewrite S_INR. lra.
Qed.

(** X23: a lane is completed within 901 seconds.  From any position in
    [0, 1000), a run of 901 ticks or more, each of at least one second,
    takes the lane completion branch at least once, whatever the draws. *)
Theorem lane_completes_within_901_ticks a steps :
  position_ok a = true -> forallb (fun st => 1.0 <=? fst st) steps = true ->
  (901 <= List.length steps)%nat ->
  never_completes steps a = false.
Proof.
  intros Hpos Hsteps Hlen.
  destruct (never_completes steps a) eqn:E; [exfalso | reflexivity].
  pose proof (slow_run_bound steps a Hsteps Hpos E) as H.
  unfold position_ok in Hpos. apply andb_true_iff in Hpos. destruct Hpos as [Hp0 Hp1].
  apply ltb_leb in Hp1.
  destruct (between_finite 0.0 _ 1000.0 eq_refl eq_refl Hp0 Hp1) as (_ & P0 & _).
  change (F2R 0.0) with 0%R in P0.
  assert (901 <= INR (List.length steps))%R.
  { replace 901%R with (INR 901) by (simpl; lra). apply le_INR. exact Hlen. }
  lra.
Qed.

Lemma lane_completes_within_901_ticks_witness :
  never_completes (repeat (1.0, sample_draws) 901) lane_start = false.
Proof.
  apply (lane_completes_within_901_ticks lane_start (repeat (1.0, sample_draws) 901));
    [reflexivity | vm_compute; reflexivity | rewrite repeat_length; lia].
Defined.

(** ** The driver loop and the vehicle model *)

Lemma create_fleet_nth rnd ids : forall i0,
  exists agvs, create_fleet rnd i0 ids = Ok agvs /\
    forall i id, nth_error ids i = Some id ->
      exists a0, AGVState.__init__ id (rnd (i0 + i)%nat) = Ok a0 /\
                 nth_error agvs i = Some a0.
Proof.
  induction ids as [| agv_id ids IH]; intros i0.
  - exists []. split; [reflexivity |]. intros [| i] id H; discriminate.
  - destruct (init_total agv_id (rnd i0)) as (a & Ea & _).
    destruct (IH (S i0)) as (agvs & E & Hn).
    exists (a :: agvs). cbn [create_fleet]. rewrite Ea. cbn [bind]. rewrite E. cbn [bind].
    split; [reflexivity |]. intros [| i] id H.
    + cbn in H. injection H as <-. exists a. rewrite Nat.add_0_r. auto.
    + cbn [nth_error] in *. destruct (Hn i id H) as (a0 & H1 & H2).
      exists a0. rewrite Nat.add_succ_r. auto.
Qed.

Lemma loop_batches_grow py cfg start its : forall agvs tick sent,
  (List.length sent <= List.length (batches (loop py cfg start its agvs tick sent)))%nat.
Proof.
  induction its as [| it its IH]; intros agvs tick sent; [reflexivity |].
  cbn [loop].
  destruct (clock it - start <? float_of_int (DURATION_SEC cfg)); [| reflexivity].
  destruct (tick_fleet py (TICK_INTERVAL_SEC cfg) (draws it) (stamps it) 0 agvs)
    as [[agvs' docs] | e]; [| reflexivity].
  assert (Hlen : (List.length sent <= List.length (sent ++ [docs]))%nat)
    by (rewrite length_app; lia).
  destruct (bulk_index py cfg (INDEX_NAME cfg) docs (response it)); [| exact Hlen].
  destruct (slept it); [| exact Hlen].
  specialize (IH agvs' (tick + 1)%Z (sent ++ [docs])%list). lia.
Qed.

Lemma loop_runs_ticks py cfg start its : forall agvs tick sent,
  let r := loop py cfg start its agvs tick sent in
  let n := (List.length (batches r) - List.length sent)%nat in
  forall i a0, nth_error agvs i = Some a0 ->
    exists a, run_ticks (ticks_of cfg (firstn n its) i) a0 = Ok a /\
              nth_error (fleet r) i = Some a.
Proof.
  induction its as [| it its IH]; intros agvs tick sent r n i a0 Ha0.
  - exists a0. unfold n, r. cbn. rewrite Nat.sub_diag. auto.
  - unfold n, r. clear n r. cbn [loop].
    destruct (clock it - start <? float_of_int (DURATION_SEC cfg)).
    2:{ exists a0. cbn. rewrite Nat.sub_diag. auto. }
    destruct (tick_fleet_nth py (TICK_INTERVAL_SEC cfg) (draws it) (stamps it) agvs 0%nat)
      as (agvs' & docs & E & Hk).
    rewrite E. destruct (Hk i a0 Ha0) as (a1 & E1 & Hn1 & _). cbn [Nat.add] in E1.
    assert (Hone : forall e,
              exists a,
                run_ticks
                  (ticks_of cfg
                     (firstn (List.length (batches (Build_Run (Aborted e) tick agvs'
                                                               (sent ++ [docs])))
                              - List.length sent) (it :: its)) i) a0 = Ok a /\
                nth_error agvs' i = Some a).
    { intros e. cbn [batches]. rewrite length_app. cbn [List.length].
      replace (List.length sent + 1 - List.length sent)%nat with 1%nat by lia.
      exists a1. cbn. rewrite E1. auto. }
    destruct (bulk_index py cfg (INDEX_NAME cfg) docs (response it)) as [req | e];
      [| destruct (Hone e) as (a & H1 & H2); exists a; auto].
    destruct (slept it) as [[] | e];
      [| destruct (Hone e) as (a & H1 & H2); exists a; cbn [batches] in *; auto].
    pose proof (loop_batches_grow py cfg start its agvs' (tick + 1)%Z (sent ++ [docs])%list)
      as Hgrow.
    destruct (IH agvs' (tick + 1)%Z (sent ++ [docs])%list i a1 Hn1) as (a & H1 & H2).
    rewrite length_app in Hgrow, H1. cbn [List.length] in Hgrow, H1.
    exists a. split; [| exact H2].
    replace (List.length (batches (loop py cfg start its agvs' (tick + 1) (sent ++ [docs])))
             - List.length sent)%nat
      with (S (List.length (batches (loop py cfg start its agvs' (tick + 1) (sent ++ [docs])))
               - (List.length sent + 1)))%nat by lia.
    cbn [firstn ticks_of map run_ticks]. rewrite E1. cbn [bind]. exact H1.
Qed.

(** X24: the driver composes the vehicle model.  In a run of [main] that
    built [n] batches, the vehicle at index [i] of the fleet is the vehicle
    created for the [i]-th id with the creation draws of index [i], advanced
    by the ticks of the first [n] iterations, each with the configured
    interval and the draws of index [i]. *)
Theorem fleet_is_run_of_ticks py cfg w i id :
  configured cfg = true -> nth_error AGV_IDS i = Some id ->
  exists a0 a,
    AGVState.__init__ id (init_draws w i) = Ok a0 /\
    run_ticks (ticks_of cfg (firstn (List.length (batches (main py cfg w)))
                                    (iterations w)) i) a0 = Ok a /\
    nth_error (fleet (main py cfg w)) i = Some a.
Proof.
  intros Hc Hid. rewrite main_configured, Hc.
  destruct (create_fleet_nth (init_draws w) AGV_IDS 0%nat) as (agvs & E & Hn).
  rewrite E. destruct (Hn i id Hid) as (a0 & E0 & Hn0). cbn [Nat.add] in E0.
  destruct (loop_runs_ticks py cfg (start_time w) (iterations w) agvs 0%Z [] i a0 Hn0)
    as (a & H1 & H2).
  cbn [List.length] in H1. rewrite Nat.sub_0_r in H1.
  exists a0, a. auto.
Qed.

Lemma fleet_is_run_of_ticks_witness :
  exists a0 a,
    AGVState.__init__ "AGV-03" (init_draws finishing_world 2) = Ok a0 /\
    run_ticks (ticks_of sample_cfg
                 (firstn (List.length (batches (main sample_py sample_cfg finishing_world)))
                         (iterations finishing_world)) 2) a0 = Ok a /\
    nth_error (fleet (main sample_py sample_cfg finishing_world)) 2 = Some a.
Proof.
  apply (fleet_is_run_of_ticks sample_py sample_cfg finishing_world 2 "AGV-03");
    reflexivity.
Defined.

Lemma tick_fleet_renders py dt rnd now agvs : forall i agvs' docs,
  tick_fleet py dt rnd now i agvs = Ok (agvs', docs) -> renders py docs agvs'.
Proof.
  unfold renders. induction agvs as [| a agvs IH]; intros i agvs' docs H.
  - cbn in H. injection H as <- <-. reflexivity.
  - cbn [tick_fleet] in H.
    destruct (AGVState.tick a dt (rnd i)) as [a' | e]; cbn [bind] in H; [| discriminate].
    destruct (tick_fleet py dt rnd now (S i) agvs) as [[agvs1 docs1] | e] eqn:E;
      cbn [bind fst snd] in H; [| discriminate].
    injection H as <- <-. cbn [map]. rewrite (IH (S i) agvs1 docs1 E). reflexivity.
Qed.

Lemma loop_renders py cfg start its : forall agvs tick sent,
  (forall earlier docs, sent = (earlier ++ [docs])%list -> renders py docs agvs) ->
  forall earlier docs,
    batches (loop py cfg start its agvs tick sent) = (earlier ++ [docs])%list ->
    renders py docs (fleet (loop py cfg start its agvs tick sent)).
Proof.
  induction its as [| it its IH]; intros agvs tick sent Hsent; [exact Hsent |].
  cbn [loop].
  destruct (clock it - start <? float_of_int (DURATION_SEC cfg)); [| exact Hsent].
  destruct (tick_fleet py (TICK_INTERVAL_SEC cfg) (draws it) (stamps it) 0 agvs)
    as [[agvs' docs'] | e] eqn:E; [| exact Hsent].
  assert (Hsent' : forall earlier docs,
            (sent ++ [docs'])%list = (earlier ++ [docs])%list -> renders py docs agvs').
  { intros earlier docs H. apply app_inj_tail in H. destruct H as [_ <-].
    eapply tick_fleet_renders. exact E. }
  destruct (bulk_index py cfg (INDEX_NAME cfg) docs' (response it)); [| exact Hsent'].
  destruct (slept it); [| exact Hsent'].
  apply IH. exact Hsent'.
Qed.

(** X25: the last batch of a run is the snapshot of its fleet.  However a
    run of [main] ends, the records of the last batch it built are, field
    by field apart from the timestamps, the rendering of the vehicles of the
    fleet as the run leaves them: nothing advances or restores a vehicle
    after its last snapshot, not even a failure of the publisher. *)
Theorem last_batch_renders_fleet py cfg w earlier docs :
  batches (main py cfg w) = (earlier ++ [docs])%list ->
  renders py docs (fleet (main py cfg w)).
Proof.
  rewrite main_configured.
  destruct (configured cfg).
  - destruct (create_fleet (init_draws w) 0 AGV_IDS) as [agvs | e].
    + apply loop_renders. intros e d H. destruct e; discriminate H.
    + intros H. destruct earlier; discriminate H.
  - intros H. destruct earlier; discriminate H.
Qed.

Lemma last_batch_renders_fleet_witness :
  exists earlier docs,
    batches (main sample_py sample_cfg failing_world) = (earlier ++ [docs])%list /\
    renders sample_py docs (fleet (main sample_py sample_cfg failing_world)).
Proof.
  set (b := batches (main sample_py sample_cfg failing_world)).
  assert (E : b = (removelast b ++ [last b []])%list) by (vm_compute; reflexivity).
  exists (removelast b), (last b []). split; [exact E |].
  apply (last_batch_renders_fleet sample_py sample_cfg failing_world _ _ E).
Defined.
